(** * yapi-mcp: a shallow embedding of the YApi service layer

    The development follows [src/services/yapi/api.ts] (class [YApiService])
    and the tool handlers of the MCP server (class [YapiMcpServer]).

    Conventions of the embedding.
    - A JavaScript string is a [string]: a sequence of code units, here
      restricted to U+0000..U+00FF, one [ascii] per code unit.
    - A JavaScript number that the code uses as an identifier, a count or an
      error code is a [Z].
    - A JavaScript [Map] is an association list in insertion order
      ([JS.Map.t]): the code iterates over [keys()] and [values()].
    - An optional field ([x?: T], possibly [undefined]) is an [option].
    - The state is a [World]: the service object, the log of the HTTP
      requests issued so far and the persisted snapshot.  The remote
      service is a function from requests to answers ([Remote]).
    - An [async] method is a [Task]: its synchronous part, then the
      handling of the answer it awaits.  [Promise.all] starts every call
      and handles the answers in their order of arrival; the calls it no
      longer waits for stay in flight ([Sys]).  A method that may throw
      returns a [sum Err _]. *)

From Stdlib Require Import List ZArith String Ascii Bool Lia Permutation Sorted.
From Stdlib Require Import DecimalString DecimalZ DecimalFacts.
Import ListNotations.
Local Open Scope string_scope.
Local Open Scope list_scope.

Set Implicit Arguments.
#[local] Set Warnings "-register-all".

(* ===================================================================== *)
(** ** The JavaScript runtime functions the code relies on *)
(* ===================================================================== *)

Module JS.

(** Truthiness of a string: every string but the empty one. *)
Definition truthy (s : string) : bool :=
  match s with EmptyString => false | String _ _ => true end.

(** Truthiness of a possibly [undefined] string. *)
Definition truthy_opt (o : option string) : bool :=
  match o with Some s => truthy s | None => false end.

(** [WhiteSpace] and [LineTerminator] code units below U+0100. *)
Definition isWhiteSpace (c : ascii) : bool :=
  let n := nat_of_ascii c in
  (Nat.eqb n 9 || Nat.eqb n 10 || Nat.eqb n 11 || Nat.eqb n 12
   || Nat.eqb n 13 || Nat.eqb n 32 || Nat.eqb n 160)%bool.

Fixpoint trimStart (s : string) : string :=
  match s with
  | EmptyString => EmptyString
  | String c r => if isWhiteSpace c then trimStart r else s
  end.

Fixpoint trimEnd (s : string) : string :=
  match s with
  | EmptyString => EmptyString
  | String c r =>
      match trimEnd r with
      | EmptyString => if isWhiteSpace c then EmptyString else String c EmptyString
      | r' => String c r'
      end
  end.

(** [String.prototype.trim]. *)
Definition trim (s : string) : string := trimEnd (trimStart s).

(** [String.prototype.split] with a one-character separator: the result
    always has at least one element. *)
Fixpoint split (sep : ascii) (s : string) : list string :=
  match s with
  | EmptyString => [EmptyString]
  | String c r =>
      if Ascii.eqb c sep then EmptyString :: split sep r
      else match split sep r with
           | h :: t => String c h :: t
           | [] => [String c EmptyString]
           end
  end.

(** [String.prototype.includes]. *)
Fixpoint includes (s needle : string) : bool :=
  (String.prefix needle s
   || match s with
      | EmptyString => false
      | String _ r => includes r needle
      end)%bool.

(** [String.prototype.toLowerCase] on code units below U+0100: the
    letters A-Z and the Latin-1 capitals U+00C0..U+00DE except U+00D7. *)
Definition lowerChar (c : ascii) : ascii :=
  let n := nat_of_ascii c in
  if ((Nat.leb 65 n && Nat.leb n 90)
      || (Nat.leb 192 n && Nat.leb n 222 && negb (Nat.eqb n 215)))%bool
  then ascii_of_nat (n + 32) else c.

Fixpoint toLowerCase (s : string) : string :=
  match s with
  | EmptyString => EmptyString
  | String c r => String (lowerChar c) (toLowerCase r)
  end.

(** [String(n)] for an integer [n]. *)
Definition String_of_number (n : Z) : string :=
  NilZero.string_of_int (Z.to_int n).

(** [n || 0] for a number [n]. *)
Definition or_zero (n : Z) : Z := if Z.eqb n 0 then 0%Z else n.

(** [Array.prototype.slice(0, end)]: a negative [end] counts from the
    end of the array. *)
Definition slice0 (A : Type) (l : list A) (e : Z) : list A :=
  let len := Z.of_nat (List.length l) in
  let k := if (e <? 0)%Z then Z.max (len + e) 0 else Z.min e len in
  firstn (Z.to_nat k) l.

(** [Array.prototype.sort(cmp)] for a comparator of the form
    [(a, b) => key(b) - key(a)]: a stable sort, largest key first. *)
Section Sort.
Variable A : Type.
Variable key : A -> Z.

Fixpoint insert_desc (x : A) (l : list A) : list A :=
  match l with
  | [] => [x]
  | y :: r => if (key y <=? key x)%Z then x :: l else y :: insert_desc x r
  end.

Definition sort_desc (l : list A) : list A :=
  fold_right insert_desc [] l.
End Sort.

(** [Map<string, V>]: entries in insertion order; [set] on a key that is
    already present keeps its position. *)
Module Map.
Definition t (V : Type) : Type := list (string * V).

Definition empty (V : Type) : t V := [].

Fixpoint get (V : Type) (m : t V) (k : string) : option V :=
  match m with
  | [] => None
  | (k', v) :: r => if String.eqb k' k then Some v else get r k
  end.

Definition has (V : Type) (m : t V) (k : string) : bool :=
  match get m k with Some _ => true | None => false end.

Fixpoint set (V : Type) (m : t V) (k : string) (v : V) : t V :=
  match m with
  | [] => [(k, v)]
  | (k', v') :: r =>
      if String.eqb k' k then (k', v) :: r else (k', v') :: set r k v
  end.

Definition keys (V : Type) (m : t V) : list string := map fst m.
Definition values (V : Type) (m : t V) : list V := map snd m.
Definition size (V : Type) (m : t V) : nat := List.length m.
End Map.

End JS.

(* ===================================================================== *)
(** ** Data model ([services/yapi/types.ts] as used by the code) *)
(* ===================================================================== *)

Record ProjectInfo := mkProjectInfo {
  project__id : Z;
  project_name : string;
  project_desc : string;
  project_basepath : string;
  project_group_id : Z
}.

Record CategoryInfo := mkCategoryInfo {
  cat__id : Z;
  cat_name : string;
  cat_desc : string
}.

(** The class state of [YApiService] (the logger has no effect on what the
    methods return and is left out). *)
Record YApiService := mkYApiService {
  baseUrl : string;
  tokenMap : JS.Map.t string;
  defaultToken : string;
  projectInfoCache : JS.Map.t ProjectInfo;
  categoryListCache : JS.Map.t (list CategoryInfo)
}.

(* ===================================================================== *)
(** ** Credential resolver: the constructor and [getToken] *)
(* ===================================================================== *)

Module Credentials.

(** One iteration of [for (const pair of tokenPairs)]; the accumulator is
    [(tokenMap, defaultToken)]. *)
Definition parse_pair (acc : JS.Map.t string * string) (pair : string)
  : JS.Map.t string * string :=
  let fields := JS.split ":" (JS.trim pair) in
  let projectId := hd EmptyString fields in
  let projectToken := nth_error fields 1 in
  if (JS.truthy projectId && JS.truthy_opt projectToken)%bool then
    match projectToken with
    | Some tok => (JS.Map.set (fst acc) projectId tok, snd acc)
    | None => acc
    end
  else if negb (JS.includes projectId ":") then
    (fst acc, JS.trim pair)
  else acc.

(** The token-parsing part of the constructor. *)
Definition parse_tokens (token : string) : JS.Map.t string * string :=
  if JS.truthy token then
    fold_left parse_pair (JS.split "," token) (JS.Map.empty string, EmptyString)
  else (JS.Map.empty string, EmptyString).

(** [new YApiService(baseUrl, token)]. *)
Definition new (base token : string) : YApiService :=
  let '(tm, dt) := parse_tokens token in
  mkYApiService base tm dt (JS.Map.empty _) (JS.Map.empty _).

(** [this.tokenMap.get(projectId) || this.defaultToken]. *)
Definition getToken (svc : YApiService) (projectId : string) : string :=
  match JS.Map.get (tokenMap svc) projectId with
  | Some tok => if JS.truthy tok then tok else defaultToken svc
  | None => defaultToken svc
  end.

Definition getConfiguredProjectIds (svc : YApiService) : list string :=
  JS.Map.keys (tokenMap svc).

(** *** The resolver as the specification words it *)

(** Split an entry on its first colon; [None] when it has no colon. *)
Fixpoint split_first_colon (s : string) : option (string * string) :=
  match s with
  | EmptyString => None
  | String c r =>
      if Ascii.eqb c ":" then Some (EmptyString, r)
      else match split_first_colon r with
           | Some (i, t) => Some (String c i, t)
           | None => None
           end
  end.

Definition spec_entry (acc : JS.Map.t string * string) (entry : string)
  : JS.Map.t string * string :=
  match split_first_colon (JS.trim entry) with
  | Some (i, t) => (JS.Map.set (fst acc) i t, snd acc)
  | None => (fst acc, JS.trim entry)
  end.

Definition spec_resolve (raw : string) : JS.Map.t string * string :=
  match raw with
  | EmptyString => (JS.Map.empty string, EmptyString)
  | _ => fold_left spec_entry (JS.split "," raw) (JS.Map.empty string, EmptyString)
  end.

Definition spec_tokenFor (r : JS.Map.t string * string) (projectId : string)
  : string :=
  match JS.Map.get (fst r) projectId with
  | Some tok => tok
  | None => snd r
  end.

(** *** The resolver read off the code, entry by entry *)

(** The [(projectId, token)] pair an entry contributes, if any: its first
    two colon-separated fields, when both are non-empty. *)
Definition entry_pair (entry : string) : option (string * string) :=
  match JS.split ":" (JS.trim entry) with
  | i :: tok :: _ =>
      if (JS.truthy i && JS.truthy tok)%bool then Some (i, tok) else None
  | _ => None
  end.

Definition entries (raw : string) : list string :=
  if JS.truthy raw then JS.split "," raw else [].

Definition is_pair_for (projectId entry : string) : bool :=
  match entry_pair entry with
  | Some (i, _) => String.eqb i projectId
  | None => false
  end.

Definition is_default (entry : string) : bool :=
  match entry_pair entry with Some _ => false | None => true end.

(** The token for [projectId]: that of the last entry which is a pair for
    it, else the last entry which is not a pair, trimmed, else empty. *)
Definition last_wins (raw projectId : string) : string :=
  match find (is_pair_for projectId) (rev (entries raw)) with
  | Some e =>
      match entry_pair e with Some (_, tok) => tok | None => EmptyString end
  | None =>
      match find is_default (rev (entries raw)) with
      | Some e => JS.trim e
      | None => EmptyString
      end
  end.

(** No entry has a second colon, and an entry with a colon has text on
    both sides of it. *)
Definition plain_entry (entry : string) : bool :=
  match JS.split ":" (JS.trim entry) with
  | [_] => true
  | [i; tok] => (JS.truthy i && JS.truthy tok)%bool
  | _ => false
  end.

Definition plain (raw : string) : bool := forallb plain_entry (entries raw).

End Credentials.

(* ===================================================================== *)
(** ** The remote service, the request log and the monad of the methods *)
(* ===================================================================== *)

Inductive Method := GET | POST.

Inductive Endpoint :=
| ProjectGet      (* /api/project/get *)
| GetCatMenu      (* /api/interface/getCatMenu *)
| ListMenu        (* /api/interface/list_menu *)
| InterfaceAdd    (* /api/interface/add *)
| InterfaceUp     (* /api/interface/up *).

Definition endpoint_path (e : Endpoint) : string :=
  match e with
  | ProjectGet => "/api/project/get"
  | GetCatMenu => "/api/interface/getCatMenu"
  | ListMenu => "/api/interface/list_menu"
  | InterfaceAdd => "/api/interface/add"
  | InterfaceUp => "/api/interface/up"
  end.

(** An element of a [tag] array: a string, or an object.  [String(tag)]
    of an object is a text, or throws a [TypeError] when the object cannot
    be converted to a primitive value, as the object decoded from the
    JSON text [{ toString: 1 }] with its key quoted, whose [toString] is
    not a function: [None]. *)
Inductive TagValue :=
| TagString (s : string)
| TagObject (text : option string).

(** One interface of a menu, then one search result.  [item_title],
    [item_path] and [item_tag] are [None] when the field is missing or has
    not the type the filters test for ([typeof ... === 'string'],
    [Array.isArray]).  [item_catid], [item_cat_name] and
    [item_project_name] are the fields the search joins in. *)
Record ApiItem := mkApiItem {
  item__id : Z;
  item_title : option string;
  item_path : option string;
  item_method : string;
  item_tag : option (list TagValue);
  item_project_id : Z;
  item_catid : option Z;
  item_cat_name : option string;
  item_project_name : option string
}.

(** One category of the menu answered by [list_menu]. *)
Record MenuCategory := mkMenuCategory {
  menu__id : Z;
  menu_name : string;
  menu_list : option (list ApiItem)
}.

(** JSON values, for the decoded sub-structures of a save request. *)
Inductive json :=
| JNull
| JBool (b : bool)
| JNumber (lexeme : string)
| JString (s : string)
| JArray (l : list json)
| JObject (fields : list (string * json)).

(** [SaveApiInterfaceParams], as the tool handler fills it. *)
Record SaveApiInterfaceParams := mkSaveParams {
  sp_project_id : string;
  sp_catid : string;
  sp_id : option string;
  sp_title : string;
  sp_path : string;
  sp_method : string;
  sp_status : string;
  sp_tag : json;
  sp_desc : string;
  sp_markdown : string;
  sp_req_params : option json;
  sp_req_query : option json;
  sp_req_headers : option json;
  sp_req_body_type : option string;
  sp_req_body_form : option json;
  sp_req_body_other : option string;
  sp_req_body_is_json_schema : option bool;
  sp_res_body_type : option string;
  sp_res_body : option string;
  sp_res_body_is_json_schema : option bool;
  sp_switch_notice : option bool;
  sp_api_opened : option bool
}.

(** The envelope of every answer of the remote service. *)
Record Envelope (T : Type) := mkEnvelope {
  errcode : Z;
  errmsg : string;
  data : T
}.

(** What [axios] reports for one request: an answer, an HTTP error with a
    response (status and the [errmsg] of its body, empty when absent), or
    no response at all. *)
Inductive Outcome (T : Type) :=
| Responded (body : Envelope T)
| HttpError (status : Z) (msg : string)
| NoResponse.
Arguments HttpError {T} status msg.
Arguments NoResponse {T}.

(** What is sent with a request besides the token. *)
Inductive Payload :=
| ById (id : string)
| ByProject (project_id : string)
| Save (params : SaveApiInterfaceParams).

Record Request := mkRequest {
  req_method : Method;
  req_endpoint : Endpoint;
  req_payload : Payload;
  req_token : string
}.

(** The remote service and the network: the answer to each request, and
    the time each answer takes; answers to requests in flight together
    arrive by increasing latency, in issue order when equal. *)
Record Remote := mkRemote {
  project_get : string -> string -> Outcome ProjectInfo;
  cat_menu : string -> string -> Outcome (list CategoryInfo);
  list_menu : string -> string -> Outcome (option (list MenuCategory));
  interface_save : Endpoint -> SaveApiInterfaceParams -> string -> Outcome Z;
  latency : Endpoint -> string -> nat
}.

(** What the methods throw.
    - [ErrComm]: [new Error("与YApi服务器通信失败")];
    - [ErrHttp status msg]: the object [{status, message}], where
      [message] is [msg || "未知错误"];
    - [ErrRemote e msg]: [new Error(msg || <the default text of e>)], thrown
      on a non-zero [errcode];
    - [ErrSyntax msg]: the [SyntaxError] of [JSON.parse]. *)
Inductive Err :=
| ErrComm
| ErrHttp (status : Z) (msg : string)
| ErrRemote (e : Endpoint) (msg : string)
| ErrSyntax (msg : string).

(** The service object, the HTTP requests issued so far (oldest first) and
    what [saveToCache] last persisted. *)
Record World := mkWorld {
  svc : YApiService;
  requests : list Request;
  persisted : option (JS.Map.t ProjectInfo)
}.

(** A system state: the world now, and the continuations of the requests
    still in flight (those a rejected [Promise.all] no longer waits for),
    in arrival order. *)
Record Sys := mkSys {
  now : World;
  in_flight : list (World -> World)
}.

(** Deliver every answer still in flight. *)
Definition quiesce (s : Sys) : World :=
  fold_left (fun w k => k w) (in_flight s) (now s).

(** The monad of the [async] methods. *)
Definition M (A : Type) : Type := Sys -> (Err + A) * Sys.

Definition ret (A : Type) (a : A) : M A := fun s => (inr a, s).

Definition throw (A : Type) (e : Err) : M A := fun s => (inl e, s).
Arguments throw {A} e.

Definition bind (A B : Type) (m : M A) (f : A -> M B) : M B :=
  fun s =>
    match m s with
    | (inr a, s') => f a s'
    | (inl e, s') => (inl e, s')
    end.

(** [try { m } catch (error) { h error }]. *)
Definition try_catch (A : Type) (m : M A) (h : Err -> M A) : M A :=
  fun s =>
    match m s with
    | (inr a, s') => (inr a, s')
    | (inl e, s') => h e s'
    end.

Definition get_svc : M YApiService := fun s => (inr (svc (now s)), s).

Definition on_world (f : World -> World) : M unit :=
  fun s => (inr tt, mkSys (f (now s)) (in_flight s)).

Definition set_projectInfoCache (c : JS.Map.t ProjectInfo) (w : World) : World :=
  let v := svc w in
  mkWorld (mkYApiService (baseUrl v) (tokenMap v) (defaultToken v) c
             (categoryListCache v))
          (requests w) (persisted w).

Definition set_categoryListCache (c : JS.Map.t (list CategoryInfo)) (w : World)
  : World :=
  let v := svc w in
  mkWorld (mkYApiService (baseUrl v) (tokenMap v) (defaultToken v)
             (projectInfoCache v) c)
          (requests w) (persisted w).

Definition log_request (r : Request) (w : World) : World :=
  mkWorld (svc w) (requests w ++ [r]) (persisted w).

(** *** Asynchronous methods and [Promise.all] *)

(** An [async] call runs synchronously up to its first [await] on the
    network.  It is then either settled, or waits for an answer that
    arrives after [lat] and is handled by the continuation [k]. *)
Inductive Started (T : Type) :=
| Settled (r : Err + T)
| Awaiting (lat : nat) (k : World -> (Err + T) * World).

Definition Task (T : Type) : Type := World -> Started T * World.

(** [const x = await t; return f(x)] inside an [async] method. *)
Definition then_ (A B : Type) (t : Task A)
  (f : A -> World -> (Err + B) * World) : Task B :=
  fun w =>
    match t w with
    | (Settled (inr a), w') => let '(r, w'') := f a w' in (Settled r, w'')
    | (Settled (inl e), w') => (Settled (inl e), w')
    | (Awaiting lat k, w') =>
        (Awaiting lat (fun w1 =>
           match k w1 with
           | (inr a, w2) => f a w2
           | (inl e, w2) => (inl e, w2)
           end), w')
    end.

(** [try { return await t } catch (e) { return h(e) }] inside an [async]
    method. *)
Definition catch_ (A : Type) (t : Task A) (h : Err -> A) : Task A :=
  fun w =>
    match t w with
    | (Settled (inr a), w') => (Settled (inr a), w')
    | (Settled (inl e), w') => (Settled (inr (h e)), w')
    | (Awaiting lat k, w') =>
        (Awaiting lat (fun w1 =>
           match k w1 with
           | (inr a, w2) => (inr a, w2)
           | (inl e, w2) => (inr (h e), w2)
           end), w')
    end.

(** [await t], for a call awaited on its own. *)
Definition await (A : Type) (t : Task A) : M A :=
  fun s =>
    match t (now s) with
    | (Settled r, w) => (r, mkSys w (in_flight s))
    | (Awaiting _ k, w) => let '(r, w') := k w in (r, mkSys w' (in_flight s))
    end.

(** The synchronous prefixes of [tasks.map(t => t())], in array order. *)
Fixpoint start_all (T : Type) (tasks : list (Task T)) (w : World)
  : list (Started T) * World :=
  match tasks with
  | [] => ([], w)
  | t :: r =>
      let '(st, w1) := t w in
      let '(sts, w2) := start_all r w1 in
      (st :: sts, w2)
  end.

(** The first call that is already rejected, if any. *)
Fixpoint first_rejected (T : Type) (sts : list (Started T)) : option Err :=
  match sts with
  | [] => None
  | Settled (inl e) :: _ => Some e
  | _ :: r => first_rejected r
  end.

(** The calls waiting for an answer, by increasing latency and, when
    equal, in array order. *)
Fixpoint insert_arrival (T : Type) (x : nat * (World -> (Err + T) * World))
  (l : list (nat * (World -> (Err + T) * World)))
  : list (nat * (World -> (Err + T) * World)) :=
  match l with
  | [] => [x]
  | y :: r => if Nat.leb (fst x) (fst y) then x :: l else y :: insert_arrival x r
  end.

Fixpoint arrivals (T : Type) (sts : list (Started T))
  : list (nat * (World -> (Err + T) * World)) :=
  match sts with
  | [] => []
  | Settled _ :: r => arrivals r
  | Awaiting lat k :: r => insert_arrival (lat, k) (arrivals r)
  end.

(** Handle the answers as they arrive, up to the first one whose handler
    throws; the others stay in flight. *)
Fixpoint deliver (T : Type) (l : list (nat * (World -> (Err + T) * World)))
  (w : World)
  : (Err + unit) * World * list (nat * (World -> (Err + T) * World)) :=
  match l with
  | [] => (inr tt, w, [])
  | (_, k) :: r =>
      match k w with
      | (inr _, w') => deliver r w'
      | (inl e, w') => (inl e, w', r)
      end
  end.

Definition late (T : Type) (x : nat * (World -> (Err + T) * World))
  : World -> World :=
  fun w => snd (snd x w).

(** [await Promise.all(tasks.map(t => t()))] with the values dropped: it
    resumes when every call is fulfilled, or as soon as one is rejected,
    and then no longer waits for the calls still in flight. *)
Definition promise_all_ (T : Type) (tasks : list (Task T)) : M unit :=
  fun s =>
    let '(sts, w1) := start_all tasks (now s) in
    match first_rejected sts with
    | Some e =>
        (inl e, mkSys w1 (in_flight s ++ map (@late T) (arrivals sts)))
    | None =>
        let '(r, w2, rest) := deliver (arrivals sts) w1 in
        (r, mkSys w2 (in_flight s ++ map (@late T) rest))
    end.

(** [await Promise.all(...)] with its values, for calls that wait for the
    answer to one and the same request: the answers arrive in issue
    order. *)
Fixpoint finish_all (T : Type) (sts : list (Started T)) (w : World)
  : (Err + list T) * World * list (World -> World) :=
  match sts with
  | [] => (inr [], w, [])
  | st :: r =>
      let '(x, w1) := match st with
                      | Settled x => (x, w)
                      | Awaiting _ k => k w
                      end in
      match x with
      | inl e =>
          (inl e, w1,
           flat_map (fun st' => match st' with
                                | Settled _ => []
                                | Awaiting lat k => [late (lat, k)]
                                end) r)
      | inr a =>
          match finish_all r w1 with
          | (inr l, w2, rest) => (inr (a :: l), w2, rest)
          | (inl e, w2, rest) => (inl e, w2, rest)
          end
      end
  end.

Definition promise_all_same (T : Type) (tasks : list (Task T)) : M (list T) :=
  fun s =>
    let '(sts, w1) := start_all tasks (now s) in
    match first_rejected sts with
    | Some e =>
        (inl e, mkSys w1 (in_flight s ++ map (@late T) (arrivals sts)))
    | None =>
        let '(r, w2, rest) := finish_all sts w1 in
        (r, mkSys w2 (in_flight s ++ rest))
    end.

(** [for (const x of l) { acc = body(x, acc) }]. *)
Fixpoint for_of (A B : Type) (l : list A) (body : A -> B -> M B) (acc : B)
  : M B :=
  match l with
  | [] => ret acc
  | x :: r => bind (body x acc) (fun acc' => for_of r body acc')
  end.

(* ===================================================================== *)
(** ** The methods of [YApiService] *)
(* ===================================================================== *)

(** [{ total, list }]; the field [list] is [results] here. *)
Record SearchPage := mkSearchPage {
  total : nat;
  results : list ApiItem
}.

(** A keyword option of [searchApis]: [string[] | string | undefined]. *)
Inductive Keyword :=
| KwUndefined
| KwString (s : string)
| KwArray (l : list string).

Record SearchOptions := mkSearchOptions {
  projectKeyword : option string;
  nameKeyword : Keyword;
  pathKeyword : Keyword;
  tagKeyword : Keyword;
  page : option Z;
  limit : option Z;
  maxProjects : option Z
}.

(** [queryParams] of [searchWithSingleKeyword]. *)
Record QueryParams := mkQueryParams {
  q_keyword : option string;
  q_path : option string;
  q_tag : option (list string)
}.

Definition or_default (A : Type) (o : option A) (d : A) : A :=
  match o with Some a => a | None => d end.

(** [Array.isArray(k) ? k : k ? [k] : []]. *)
Definition keywords_of (k : Keyword) : list string :=
  match k with
  | KwArray l => l
  | KwString s => if JS.truthy s then [s] else []
  | KwUndefined => []
  end.

(** [ks.length ? ks : [blank]], where [blank] is the empty string. *)
Definition or_blank (ks : list string) : list string :=
  match ks with [] => [EmptyString] | _ => ks end.

(** The [queryParams] built for one combination of keywords. *)
Definition query_of (nameKey pathKey tagKey : string) : QueryParams :=
  mkQueryParams (if JS.truthy nameKey then Some nameKey else None)
                (if JS.truthy pathKey then Some pathKey else None)
                (if JS.truthy tagKey then Some [tagKey] else None).

(** [{...api, cat_name: category.name, catid: category._id}]. *)
Definition with_cat_info (category : MenuCategory) (api : ApiItem) : ApiItem :=
  mkApiItem (item__id api) (item_title api) (item_path api) (item_method api)
            (item_tag api) (item_project_id api)
            (Some (menu__id category)) (Some (menu_name category))
            (item_project_name api).

(** The loop that flattens the menu into [allInterfaces]. *)
Definition flatten_menu (menuData : list MenuCategory) : list ApiItem :=
  fold_left
    (fun allInterfaces category =>
       match menu_list category with
       | Some l => allInterfaces ++ map (with_cat_info category) l
       | None => allInterfaces
       end)
    menuData [].

(** The three filters.  Each sits in a [try] of its own, whose [catch]
    logs the exception and leaves [filteredResults] as it was.  The tests
    on the title and on the path are guarded by [typeof] and cannot
    throw; the test on the tags calls [String(tag)], which can. *)
Definition filter_by_name (q : QueryParams) (items : list ApiItem) : list ApiItem :=
  match q_keyword q with
  | Some k =>
      if JS.truthy k then
        let keyword := JS.toLowerCase k in
        filter (fun item =>
                  match item_title item with
                  | Some t => (JS.truthy t && JS.includes (JS.toLowerCase t) keyword)%bool
                  | None => false
                  end) items
      else items
  | None => items
  end.

Definition filter_by_path (q : QueryParams) (items : list ApiItem) : list ApiItem :=
  match q_path q with
  | Some k =>
      if JS.truthy k then
        let pathKeyword := JS.toLowerCase k in
        filter (fun item =>
                  match item_path item with
                  | Some t => (JS.truthy t && JS.includes (JS.toLowerCase t) pathKeyword)%bool
                  | None => false
                  end) items
      else items
  | None => items
  end.

(** [tag && String(tag).toLowerCase().includes(keyword)]; [None] when it
    throws. *)
Definition tag_includes (tag : TagValue) (keyword : string) : option bool :=
  match tag with
  | TagString s => Some (JS.truthy s && JS.includes (JS.toLowerCase s) keyword)%bool
  | TagObject (Some text) => Some (JS.includes (JS.toLowerCase text) keyword)
  | TagObject None => None
  end.

(** [xs.some(test)] and [xs.filter(test)] for a test that may throw. *)
Fixpoint some_ (A : Type) (test : A -> option bool) (xs : list A) : option bool :=
  match xs with
  | [] => Some false
  | x :: r =>
      match test x with
      | None => None
      | Some true => Some true
      | Some false => some_ test r
      end
  end.

Fixpoint filter_ (A : Type) (test : A -> option bool) (xs : list A)
  : option (list A) :=
  match xs with
  | [] => Some []
  | x :: r =>
      match test x with
      | None => None
      | Some b =>
          match filter_ test r with
          | None => None
          | Some l => Some (if b then x :: l else l)
          end
      end
  end.

(** The body of the [try] of the tag filter: the filtered list, or [None]
    when the test throws. *)
Definition try_filter_by_tag (tags : list string) (items : list ApiItem)
  : option (list ApiItem) :=
  let tagKeywords := map JS.toLowerCase tags in
  filter_ (fun item =>
             match item_tag item with
             | Some ts =>
                 some_ (fun tag =>
                   some_ (fun keyword => tag_includes tag keyword) tagKeywords) ts
             | None => Some false
             end) items.

Definition filter_by_tag (q : QueryParams) (items : list ApiItem) : list ApiItem :=
  match q_tag q with
  | Some ((_ :: _) as tags) =>
      match try_filter_by_tag tags items with
      | Some filtered => filtered
      | None => items
      end
  | _ => items
  end.

(** [filteredResults.sort((a, b) => (b._id || 0) - (a._id || 0))]. *)
Definition sort_by_id_desc (items : list ApiItem) : list ApiItem :=
  JS.sort_desc (fun item => JS.or_zero (item__id item)) items.

(** What [searchWithSingleKeyword] makes of a menu. *)
Definition search_menu (q : QueryParams) (menuData : list MenuCategory)
  : list ApiItem :=
  sort_by_id_desc (filter_by_tag q (filter_by_path q (filter_by_name q
    (flatten_menu menuData)))).

(** [deduplicateResults]: [seen] is the [Set<string>] of the ids met. *)
Fixpoint dedup_from (seen : list string) (results : list ApiItem)
  : list ApiItem :=
  match results with
  | [] => []
  | item :: r =>
      let id := JS.String_of_number (item__id item) in
      if existsb (String.eqb id) seen then dedup_from seen r
      else item :: dedup_from (id :: seen) r
  end.

Definition deduplicateResults (results : list ApiItem) : list ApiItem :=
  dedup_from [] results.

(** [String(item.catid)]. *)
Definition String_of_catid (c : option Z) : string :=
  match c with Some n => JS.String_of_number n | None => "undefined" end.

(** [result.cat_name = category.name]. *)
Definition set_cat_name (result : ApiItem) (name : string) : ApiItem :=
  mkApiItem (item__id result) (item_title result) (item_path result)
            (item_method result) (item_tag result) (item_project_id result)
            (item_catid result) (Some name) (item_project_name result).

(** [{...item, project_name: project.name}]. *)
Definition set_project_name (item : ApiItem) (name : string) : ApiItem :=
  mkApiItem (item__id item) (item_title item) (item_path item)
            (item_method item) (item_tag item) (item_project_id item)
            (item_catid item) (item_cat_name item) (Some name).

(** The test of [projects.filter] for a project keyword. *)
Definition project_matches (keyword : string) (project : ProjectInfo) : bool :=
  let name := JS.toLowerCase (project_name project) in
  let desc := JS.toLowerCase (project_desc project) in
  let id := if Z.eqb (project__id project) 0 then EmptyString
            else JS.String_of_number (project__id project) in
  (JS.includes name keyword || JS.includes desc keyword
   || JS.includes id keyword)%bool.

Section Service.

Variable remote : Remote.

(** [request]: the token is that of the project, or the default one.
    Without a token the [Error] thrown inside the [try] is replaced by
    the [catch] with the communication error, and nothing is sent. *)
Definition request (T : Type) (answer : string -> Outcome T)
  (endpoint : Endpoint) (payload : Payload) (projectId : string)
  (method : Method) : Task (Envelope T) :=
  fun w =>
    let token := if JS.truthy projectId
                 then Credentials.getToken (svc w) projectId
                 else defaultToken (svc w) in
    if negb (JS.truthy token) then (Settled (inl ErrComm), w)
    else
      (Awaiting (latency remote endpoint projectId)
         (fun w' =>
            (match answer token with
             | Responded body => inr body
             | HttpError status msg => inl (ErrHttp status msg)
             | NoResponse => inl ErrComm
             end, w')),
       log_request (mkRequest method endpoint payload token) w).

Definition getCategoryList (projectId : string) : Task (list CategoryInfo) :=
  fun w =>
    match JS.Map.get (categoryListCache (svc w)) projectId with
    | Some cached => (Settled (inr cached), w)
    | None =>
        then_ (request (cat_menu remote projectId) GetCatMenu
                 (ByProject projectId) projectId GET)
          (fun response w' =>
             if negb (Z.eqb (errcode response) 0)
             then (inl (ErrRemote GetCatMenu (errmsg response)), w')
             else (inr (data response),
                   set_categoryListCache
                     (JS.Map.set (categoryListCache (svc w')) projectId
                        (data response)) w'))
          w
    end.

Definition loadAllCategoryLists : M unit :=
  bind get_svc (fun v =>
    let projectIds := JS.Map.keys (projectInfoCache v) in
    match projectIds with
    | [] => ret tt
    | _ =>
        try_catch (promise_all_ (map getCategoryList projectIds))
          (fun _ => ret tt)
    end).

Definition getProjectInfo (projectId : string) : Task ProjectInfo :=
  fun w =>
    match JS.Map.get (projectInfoCache (svc w)) projectId with
    | Some cached => (Settled (inr cached), w)
    | None =>
        then_ (request (project_get remote projectId) ProjectGet
                 (ById projectId) projectId GET)
          (fun response w' =>
             if negb (Z.eqb (errcode response) 0)
             then (inl (ErrRemote ProjectGet (errmsg response)), w')
             else (inr (data response),
                   set_projectInfoCache
                     (JS.Map.set (projectInfoCache (svc w')) projectId
                        (data response)) w'))
          w
    end.

Definition loadAllProjectInfo : M unit :=
  bind get_svc (fun v =>
    let projectIds := Credentials.getConfiguredProjectIds v in
    match projectIds with
    | [] => ret tt
    | _ =>
        try_catch (promise_all_ (map getProjectInfo projectIds))
          (fun _ => ret tt)
    end).

Definition saveInterface (params : SaveApiInterfaceParams) : Task (Envelope Z) :=
  let projectId := sp_project_id params in
  let isAdd := negb (JS.truthy_opt (sp_id params)) in
  let endpoint := if isAdd then InterfaceAdd else InterfaceUp in
  then_ (request (interface_save remote endpoint params) endpoint
           (Save params) projectId POST)
    (fun response w' =>
       if negb (Z.eqb (errcode response) 0)
       then (inl (ErrRemote endpoint (errmsg response)), w')
       else (inr response, w')).

Definition getInterfaceMenu (projectId : string) : Task (list MenuCategory) :=
  then_ (request (list_menu remote projectId) ListMenu
           (ByProject projectId) projectId GET)
    (fun response w' =>
       if negb (Z.eqb (errcode response) 0)
       then (inl (ErrRemote ListMenu (errmsg response)), w')
       else (inr (or_default (data response) []), w')).

(** [searchWithSingleKeyword]; [page] and [limit] are not used.  The
    checks at its head convert keywords that are not strings, and change
    nothing for the strings of [QueryParams]. *)
Definition searchWithSingleKeyword (projectId : string) (q : QueryParams)
  (page limit : Z) : M SearchPage :=
  try_catch
    (bind (await (getInterfaceMenu projectId)) (fun menuData =>
       let filteredResults := search_menu q menuData in
       ret (mkSearchPage (List.length filteredResults) filteredResults)))
    (fun _ => ret (mkSearchPage 0 [])).

(** The [async (item) => ...] that joins the project and category names
    into a result. *)
Definition enrich (project : ProjectInfo) (projectId : string)
  (item : ApiItem) : Task ApiItem :=
  let result := set_project_name item (project_name project) in
  let catId := String_of_catid (item_catid item) in
  if JS.truthy catId then
    catch_
      (then_ (getCategoryList projectId)
         (fun categories w =>
            (inr match find (fun cat =>
                         String.eqb (JS.String_of_number (cat__id cat)) catId)
                       categories with
                 | Some category => set_cat_name result (cat_name category)
                 | None => result
                 end, w)))
      (fun _ => result)
  else fun w => (Settled (inr result), w).

(** The body of the innermost loop of [searchApis]. *)
Definition search_one (project : ProjectInfo) (projectId : string)
  (page limit : Z) (nameKey pathKey tagKey : string)
  (allResults : list ApiItem) : M (list ApiItem) :=
  let queryParams := query_of nameKey pathKey tagKey in
  bind (searchWithSingleKeyword projectId queryParams page limit)
    (fun projectResults =>
  bind (promise_all_same (map (enrich project projectId) (results projectResults)))
    (fun resultsWithProjectInfo =>
  ret (allResults ++ resultsWithProjectInfo))).

(** The projects [searchApis] searches, from the cached ones (which are
    objects: [filter(p => !!p)] keeps them all). *)
Definition select_projects (options : SearchOptions)
  (cached : list ProjectInfo) : list ProjectInfo :=
  let maxProjects := or_default (maxProjects options) 5%Z in
  let projects :=
    match projectKeyword options with
    | Some pk =>
        if (JS.truthy pk && JS.truthy (JS.trim pk))%bool
        then filter (project_matches (JS.toLowerCase (JS.trim pk))) cached
        else cached
    | None => cached
    end in
  if (Z.of_nat (List.length projects) >? maxProjects)%Z
  then JS.slice0 projects maxProjects
  else projects.

Definition searchApis (options : SearchOptions) : M SearchPage :=
  let page := or_default (page options) 1%Z in
  let limit := or_default (limit options) 20%Z in
  let nameKeywords := keywords_of (nameKeyword options) in
  let pathKeywords := keywords_of (pathKeyword options) in
  let tagKeywords := keywords_of (tagKeyword options) in
  try_catch
    (bind loadAllProjectInfo (fun _ =>
     bind get_svc (fun v =>
     let projects :=
       select_projects options (JS.Map.values (projectInfoCache v)) in
     match projects with
     | [] => ret (mkSearchPage 0 [])
     | _ =>
         bind
           (for_of projects (fun project =>
              let projectId := JS.String_of_number (project__id project) in
              for_of (or_blank nameKeywords) (fun nameKey =>
                for_of (or_blank pathKeywords) (fun pathKey =>
                  for_of (or_blank tagKeywords) (fun tagKey =>
                    search_one project projectId page limit
                      nameKey pathKey tagKey))))
              [])
           (fun allResults =>
              let deduplicated := deduplicateResults allResults in
              let limitedResults := JS.slice0 deduplicated limit in
              ret (mkSearchPage (List.length deduplicated) limitedResults))
     end)))
    (fun error => throw error).

(** [searchApisByName] and [searchApisByPath]. *)
Definition searchApisByName (nameKeyword : string)
  (projectKeyword : option string) (page limit maxProjects : option Z)
  : M SearchPage :=
  searchApis (mkSearchOptions projectKeyword (KwArray [nameKeyword])
                KwUndefined KwUndefined
                (Some (or_default page 1%Z)) (Some (or_default limit 20%Z))
                (Some (or_default maxProjects 5%Z))).

Definition searchApisByPath (pathKeyword : string)
  (projectKeyword : option string) (page limit maxProjects : option Z)
  : M SearchPage :=
  searchApis (mkSearchOptions projectKeyword KwUndefined
                (KwArray [pathKeyword]) KwUndefined
                (Some (or_default page 1%Z)) (Some (or_default limit 20%Z))
                (Some (or_default maxProjects 5%Z))).

End Service.

(* ===================================================================== *)
(** ** [JSON.parse] *)
(* ===================================================================== *)

(** The tool handlers take [JSON.parse] as a parameter: a function from
    the text to the decoded value or to the message of the [SyntaxError].
    [JSON.parse] below is a recursive-descent reader of the JSON grammar,
    used to run the handlers on concrete arguments.  It keeps numbers and
    strings as they are written (escapes are checked, not decoded). *)
Module JSON.

(** The double quote, U+0022. *)
Definition dquote : ascii := ascii_of_nat 34.

Definition is_ws (c : ascii) : bool :=
  let n := nat_of_ascii c in
  (Nat.eqb n 32 || Nat.eqb n 9 || Nat.eqb n 10 || Nat.eqb n 13)%bool.

Definition is_digit (c : ascii) : bool :=
  let n := nat_of_ascii c in (Nat.leb 48 n && Nat.leb n 57)%bool.

Definition is_hex (c : ascii) : bool :=
  let n := nat_of_ascii c in
  (is_digit c || (Nat.leb 65 n && Nat.leb n 70)
   || (Nat.leb 97 n && Nat.leb n 102))%bool.

Fixpoint skip_ws (s : string) : string :=
  match s with
  | String c r => if is_ws c then skip_ws r else s
  | EmptyString => s
  end.

(** The characters of a string up to its closing quote, and the rest. *)
Fixpoint read_string (s : string) : option (string * string) :=
  match s with
  | EmptyString => None
  | String c r =>
      if Ascii.eqb c dquote then Some (EmptyString, r)
      else if Nat.ltb (nat_of_ascii c) 32 then None
      else if Ascii.eqb c "\" then
        match r with
        | String e r1 =>
            if Ascii.eqb e "u" then
              match r1 with
              | String h1 (String h2 (String h3 (String h4 r2))) =>
                  if (is_hex h1 && is_hex h2 && is_hex h3 && is_hex h4)%bool
                  then match read_string r2 with
                       | Some (t, r3) =>
                           Some (String c (String e (String h1 (String h2
                                  (String h3 (String h4 t))))), r3)
                       | None => None
                       end
                  else None
              | _ => None
              end
            else if existsb (Ascii.eqb e)
                      [dquote; "\"; "/"; "b"; "f"; "n"; "r"; "t"]%char
            then match read_string r1 with
                 | Some (t, r2) => Some (String c (String e t), r2)
                 | None => None
                 end
            else None
        | EmptyString => None
        end
      else match read_string r with
           | Some (t, r1) => Some (String c t, r1)
           | None => None
           end
  end.

Fixpoint read_digits (s : string) : string * string :=
  match s with
  | String c r =>
      if is_digit c then let '(d, r') := read_digits r in (String c d, r')
      else (EmptyString, s)
  | EmptyString => (EmptyString, s)
  end.

(** A number: an optional minus sign, an integer part without a leading
    zero, an optional fraction and an optional exponent. *)
Definition read_number (s : string) : option (string * string) :=
  let '(sign, s1) := match s with
                     | String "-" r => ("-", r)
                     | _ => (EmptyString, s)
                     end in
  let '(int, s2) := read_digits s1 in
  match int with
  | EmptyString => None
  | String "0" (String _ _) => None
  | _ =>
      let frac :=
        match s2 with
        | String "." r =>
            let '(d, r') := read_digits r in
            match d with
            | EmptyString => None
            | _ => Some (String "." d, r')
            end
        | _ => Some (EmptyString, s2)
        end in
      match frac with
      | None => None
      | Some (f, s3) =>
          let exp :=
            match s3 with
            | String e r =>
                if (Ascii.eqb e "e" || Ascii.eqb e "E")%bool then
                  let '(sg, r1) := match r with
                                   | String "+" r' => ("+", r')
                                   | String "-" r' => ("-", r')
                                   | _ => (EmptyString, r)
                                   end in
                  let '(d, r2) := read_digits r1 in
                  match d with
                  | EmptyString => None
                  | _ => Some (String e (String.append sg d), r2)
                  end
                else Some (EmptyString, s3)
            | EmptyString => Some (EmptyString, s3)
            end in
          match exp with
          | None => None
          | Some (x, s4) => Some (String.append sign (String.append int (String.append f x)), s4)
          end
      end
  end.

Definition read_literal (lit : string) (v : json) (s : string)
  : option (json * string) :=
  if String.prefix lit s
  then Some (v, substring (String.length lit)
                  (String.length s - String.length lit) s)
  else None.

Fixpoint read_value (fuel : nat) (s : string) {struct fuel}
  : option (json * string) :=
  match fuel with
  | O => None
  | S fuel' =>
      match skip_ws s with
      | EmptyString => None
      | String c r =>
          if Ascii.eqb c "n" then read_literal "null" JNull (String c r)
          else if Ascii.eqb c "t" then read_literal "true" (JBool true) (String c r)
          else if Ascii.eqb c "f" then read_literal "false" (JBool false) (String c r)
          else if Ascii.eqb c dquote then
            match read_string r with
            | Some (t, r') => Some (JString t, r')
            | None => None
            end
          else if Ascii.eqb c "[" then
            match skip_ws r with
            | String "]" r' => Some (JArray [], r')
            | _ =>
                match read_elements fuel' r with
                | Some (l, r') => Some (JArray l, r')
                | None => None
                end
            end
          else if Ascii.eqb c "{" then
            match skip_ws r with
            | String "}" r' => Some (JObject [], r')
            | _ =>
                match read_members fuel' r with
                | Some (l, r') => Some (JObject l, r')
                | None => None
                end
            end
          else
            match read_number (String c r) with
            | Some (n, r') => Some (JNumber n, r')
            | None => None
            end
      end
  end

with read_elements (fuel : nat) (s : string) {struct fuel}
  : option (list json * string) :=
  match fuel with
  | O => None
  | S fuel' =>
      match read_value fuel' s with
      | Some (v, r) =>
          match skip_ws r with
          | String "," r' =>
              match read_elements fuel' r' with
              | Some (l, r'') => Some (v :: l, r'')
              | None => None
              end
          | String "]" r' => Some ([v], r')
          | _ => None
          end
      | None => None
      end
  end

with read_members (fuel : nat) (s : string) {struct fuel}
  : option (list (string * json) * string) :=
  match fuel with
  | O => None
  | S fuel' =>
      match skip_ws s with
      | String c r =>
          if negb (Ascii.eqb c dquote) then None else
          match read_string r with
          | Some (k, r1) =>
              match skip_ws r1 with
              | String ":" r2 =>
                  match read_value fuel' r2 with
                  | Some (v, r3) =>
                      match skip_ws r3 with
                      | String "," r4 =>
                          match read_members fuel' r4 with
                          | Some (l, r5) => Some ((k, v) :: l, r5)
                          | None => None
                          end
                      | String "}" r4 => Some ([(k, v)], r4)
                      | _ => None
                      end
                  | None => None
                  end
              | _ => None
              end
          | None => None
          end
      | EmptyString => None
      end
  end.

(** Every call above but the first consumes a character between two
    uses of the fuel, so twice the length of the text is enough. *)
Definition parse (text : string) : string + json :=
  match read_value (2 * String.length text + 2) text with
  | Some (v, r) =>
      match skip_ws r with
      | EmptyString => inr v
      | _ => inl "SyntaxError: Unexpected non-whitespace character after JSON"
      end
  | None => inl "SyntaxError: Unexpected token or end of JSON input"
  end.

End JSON.

(* ===================================================================== *)
(** ** The MCP server: cache refresh and the [yapi_save_api] tool *)
(* ===================================================================== *)

(** The arguments of the [yapi_save_api] tool. *)
Record SaveArgs := mkSaveArgs {
  a_projectId : string;
  a_catid : string;
  a_id : option string;
  a_title : string;
  a_path : string;
  a_method : string;
  a_status : option string;
  a_tag : option string;
  a_req_params : option string;
  a_req_query : option string;
  a_req_headers : option string;
  a_req_body_type : option string;
  a_req_body_form : option string;
  a_req_body_other : option string;
  a_req_body_is_json_schema : option bool;
  a_res_body_type : option string;
  a_res_body : option string;
  a_res_body_is_json_schema : option bool;
  a_switch_notice : option bool;
  a_api_opened : option bool;
  a_desc : option string;
  a_markdown : option string
}.

(** The four JSON-encoded sub-structures with an error message of their
    own: "路径参数", "查询参数", "请求头参数" and "表单请求体", each followed
    by "JSON解析错误: " and the error. *)
Inductive JsonField := F_req_params | F_req_query | F_req_headers | F_req_body_form.

(** The text a call of the tool answers with.  The error is put in by
    the template, which converts it to a string ([render] below says
    what is left of it).
    - [JsonParseError f e]: the message of field [f] above;
    - [SaveError e]: "保存API接口出错: " and the error;
    - [Saved isUpdate id title method path]: "接口更新成功！" or
      "接口新增成功！" followed by the interface id, title, method, path. *)
Inductive Reply :=
| JsonParseError (f : JsonField) (e : Err)
| SaveError (e : Err)
| Saved (isUpdate : bool) (resultApiId : Z) (title method path : string).

(** [x || d] for an optional string. *)
Definition or_string (o : option string) (d : string) : string :=
  match o with
  | Some s => if JS.truthy s then s else d
  | None => d
  end.

(** [if (x) params.x = x] for an optional string. *)
Definition if_truthy (o : option string) : option string :=
  if JS.truthy_opt o then o else None.

Section Server.

Variable remote : Remote.
Variable JSON_parse : string -> string + json.

(** Modelled from the spec: [ProjectInfoCache.saveToCache]
    ([services/yapi/cache.ts] is not among the sources): it overwrites
    the persisted snapshot with the given mapping. *)
Definition saveToCache (m : JS.Map.t ProjectInfo) : M unit :=
  on_world (fun w => mkWorld (svc w) (requests w) (Some m)).

Definition asyncUpdateCache : M unit :=
  try_catch
    (bind (loadAllProjectInfo remote) (fun _ =>
     bind get_svc (fun v =>
     bind (saveToCache (projectInfoCache v)) (fun _ =>
     loadAllCategoryLists remote))))
    (fun error => throw error).

(** [JSON.parse(text)], throwing a [SyntaxError]. *)
Definition parse_json (text : string) : Err + json :=
  match JSON_parse text with
  | inl msg => inl (ErrSyntax msg)
  | inr v => inr v
  end.

(** [if (x) { try { params.x = JSON.parse(x) } catch (e) { ... } }]:
    the decoded field, or the error to report. *)
Definition parse_field (o : option string) : Err + option json :=
  match o with
  | Some text =>
      if JS.truthy text then
        match parse_json text with
        | inl e => inl e
        | inr v => inr (Some v)
        end
      else inr None
  | None => inr None
  end.

(** The handler of [yapi_save_api]. *)
Definition yapi_save_api (a : SaveArgs) : M Reply :=
  try_catch
    (bind (match a_tag a with
           | Some text =>
               if JS.truthy text then
                 match parse_json text with
                 | inl e => throw e
                 | inr v => ret v
                 end
               else ret (JArray [])
           | None => ret (JArray [])
           end) (fun tag =>
     match parse_field (a_req_params a) with
     | inl e => ret (JsonParseError F_req_params e)
     | inr req_params =>
     match parse_field (a_req_query a) with
     | inl e => ret (JsonParseError F_req_query e)
     | inr req_query =>
     match parse_field (a_req_headers a) with
     | inl e => ret (JsonParseError F_req_headers e)
     | inr req_headers =>
     match parse_field (a_req_body_form a) with
     | inl e => ret (JsonParseError F_req_body_form e)
     | inr req_body_form =>
         let params :=
           mkSaveParams (a_projectId a) (a_catid a) (if_truthy (a_id a))
             (a_title a) (a_path a) (a_method a)
             (or_string (a_status a) "undone") tag
             (or_string (a_desc a) EmptyString)
             (or_string (a_markdown a) EmptyString)
             req_params req_query req_headers
             (if_truthy (a_req_body_type a)) req_body_form
             (if_truthy (a_req_body_other a))
             (a_req_body_is_json_schema a)
             (if_truthy (a_res_body_type a)) (if_truthy (a_res_body a))
             (a_res_body_is_json_schema a)
             (a_switch_notice a) (a_api_opened a) in
         bind (await (saveInterface remote params)) (fun response =>
         let resultApiId := data response in
         ret (Saved (JS.truthy_opt (a_id a)) resultApiId
                (a_title a) (a_method a) (a_path a)))
     end end end end))
    (fun error => ret (SaveError error)).

End Server.

(** A system at rest around a service object. *)
Definition at_rest (v : YApiService) : Sys := mkSys (mkWorld v [] None) [].

(* ===================================================================== *)
(** ** Vocabulary of the statements *)
(* ===================================================================== *)

Definition ids (items : list ApiItem) : list Z := map item__id items.

(** Keep the first occurrence of every number. *)
Fixpoint first_occurrences (l : list Z) : list Z :=
  match l with
  | [] => []
  | x :: r => x :: filter (fun y => negb (Z.eqb y x)) (first_occurrences r)
  end.

(** A list of numbers is in descending order. *)
Definition descending (l : list Z) : Prop := StronglySorted Z.ge l.

(** The token [request] sends for a project; empty when there is none. *)
Definition token_for (v : YApiService) (projectId : string) : string :=
  if JS.truthy projectId then Credentials.getToken v projectId
  else defaultToken v.

(** The menu [getInterfaceMenu] returns for a project, [None] when the
    call throws. *)
Definition menu_of (remote : Remote) (v : YApiService) (projectId : string)
  : option (list MenuCategory) :=
  if JS.truthy (token_for v projectId) then
    match list_menu remote projectId (token_for v projectId) with
    | Responded body =>
        if Z.eqb (errcode body) 0 then Some (or_default (data body) []) else None
    | _ => None
    end
  else None.

(** One fetch of the search: a project and the [queryParams] of one
    combination of keywords. *)
Definition Fetch : Type := (ProjectInfo * QueryParams)%type.

Definition fetch_project (f : Fetch) : string :=
  JS.String_of_number (project__id (fst f)).

(** The interfaces one fetch contributes, before the names are joined
    in: none when the menu cannot be fetched. *)
Definition fetched (remote : Remote) (v : YApiService) (f : Fetch)
  : list ApiItem :=
  match menu_of remote v (fetch_project f) with
  | Some menuData => search_menu (snd f) menuData
  | None => []
  end.

Definition fetch_succeeds (remote : Remote) (v : YApiService) (f : Fetch)
  : bool :=
  match menu_of remote v (fetch_project f) with
  | Some _ => true
  | None => false
  end.

(** The combinations of keywords, in the order of the three loops. *)
Definition combinations (options : SearchOptions) : list QueryParams :=
  flat_map (fun nameKey =>
    flat_map (fun pathKey =>
      map (fun tagKey => query_of nameKey pathKey tagKey)
          (or_blank (keywords_of (tagKeyword options))))
      (or_blank (keywords_of (pathKeyword options))))
    (or_blank (keywords_of (nameKeyword options))).

(** The fetches of a search, in order. *)
Definition plan (options : SearchOptions) (projects : list ProjectInfo)
  : list Fetch :=
  flat_map (fun project => map (pair project) (combinations options)) projects.

(** The candidate projects of a search started in state [s]. *)
Definition candidates (remote : Remote) (options : SearchOptions) (s : Sys)
  : list ProjectInfo :=
  select_projects options
    (JS.Map.values
       (projectInfoCache (svc (now (snd (loadAllProjectInfo remote s)))))).

(** The ids of all fetched interfaces, concatenated in fetch order. *)
Definition all_ids (remote : Remote) (v : YApiService) (fs : list Fetch)
  : list Z :=
  List.concat (map (fun f => ids (fetched remote v f)) fs).

(** The [list_menu] requests of a log. *)
Definition menu_requests (w : World) : list Request :=
  filter (fun r => match req_endpoint r with ListMenu => true | _ => false end)
         (requests w).

(** [r] is [item] with the project name, and possibly a category name,
    joined in. *)
Definition joined (project : ProjectInfo) (item r : ApiItem) : Prop :=
  item__id r = item__id item /\ item_title r = item_title item /\
  item_path r = item_path item /\ item_method r = item_method item /\
  item_tag r = item_tag item /\ item_project_id r = item_project_id item /\
  item_catid r = item_catid item /\
  item_project_name r = Some (project_name project).

(** What a project fetch answers for a credentialed id. *)
Definition project_answer (remote : Remote) (v : YApiService) (id : string)
  : option ProjectInfo :=
  if JS.truthy (token_for v id) then
    match project_get remote id (token_for v id) with
    | Responded body => if Z.eqb (errcode body) 0 then Some (data body) else None
    | _ => None
    end
  else None.

(** What a category-list fetch answers for a project. *)
Definition category_answer (remote : Remote) (v : YApiService) (id : string)
  : option (list CategoryInfo) :=
  if JS.truthy (token_for v id) then
    match cat_menu remote id (token_for v id) with
    | Responded body => if Z.eqb (errcode body) 0 then Some (data body) else None
    | _ => None
    end
  else None.

(** The options of a search with another page number. *)
Definition with_page (options : SearchOptions) (p : option Z) : SearchOptions :=
  mkSearchOptions (projectKeyword options) (nameKeyword options)
                  (pathKeyword options) (tagKeyword options) p
                  (limit options) (maxProjects options).

(** The text of one of the four JSON-encoded fields of a save call. *)
Definition field_text (a : SaveArgs) (f : JsonField) : option string :=
  match f with
  | F_req_params => a_req_params a
  | F_req_query => a_req_query a
  | F_req_headers => a_req_headers a
  | F_req_body_form => a_req_body_form a
  end.

(** A field is given and does not decode, with the message [msg]. *)
Definition field_fails (JSON_parse : string -> string + json) (a : SaveArgs)
  (f : JsonField) (msg : string) : Prop :=
  exists text, field_text a f = Some text /\ JS.truthy text = true /\
               JSON_parse text = inl msg.

(** The place of a field in the order the handler decodes them in. *)
Definition field_rank (f : JsonField) : nat :=
  match f with
  | F_req_params => 0
  | F_req_query => 1
  | F_req_headers => 2
  | F_req_body_form => 3
  end.

(** The tag list is absent, empty or decodes. *)
Definition tag_decodes (JSON_parse : string -> string + json) (a : SaveArgs)
  : Prop :=
  match a_tag a with
  | Some text => JS.truthy text = true -> exists v, JSON_parse text = inr v
  | None => True
  end.

Definition with_tag (a : SaveArgs) (t : option string) : SaveArgs :=
  mkSaveArgs (a_projectId a) (a_catid a) (a_id a) (a_title a) (a_path a)
    (a_method a) (a_status a) t (a_req_params a) (a_req_query a)
    (a_req_headers a) (a_req_body_type a) (a_req_body_form a)
    (a_req_body_other a) (a_req_body_is_json_schema a) (a_res_body_type a)
    (a_res_body a) (a_res_body_is_json_schema a) (a_switch_notice a)
    (a_api_opened a) (a_desc a) (a_markdown a).

(** What no method changes: the credentials; and what only a menu fetch
    changes: the [list_menu] requests of the log. *)
Definition same_tokens (v v' : YApiService) : Prop :=
  tokenMap v' = tokenMap v /\ defaultToken v' = defaultToken v.

Definition kept (w w' : World) : Prop :=
  same_tokens (svc w) (svc w') /\ menu_requests w' = menu_requests w.

(** A call that is never rejected, whose value satisfies [R], and that
    keeps the above. *)
Definition safe (A : Type) (R : A -> Prop) (t : Task A) : Prop :=
  forall w,
    match t w with
    | (Settled (inr a), w') => R a /\ kept w w'
    | (Settled (inl _), _) => False
    | (Awaiting _ k, w') =>
        kept w w' /\
        forall w1, exists a w2, k w1 = (inr a, w2) /\ R a /\ kept w1 w2
    end.

(** How the world may change while the methods run for a service with
    the credentials of [v0]: a request other than [list_menu] is logged,
    the answer of a project fetch or of a category fetch is stored, or
    the snapshot is persisted. *)
Inductive evolves (remote : Remote) (v0 : YApiService) : World -> World -> Prop :=
| ev_refl w : evolves remote v0 w w
| ev_trans w1 w2 w3 :
    evolves remote v0 w1 w2 -> evolves remote v0 w2 w3 -> evolves remote v0 w1 w3
| ev_log r w :
    req_endpoint r <> ListMenu -> evolves remote v0 w (log_request r w)
| ev_project id info w :
    project_answer remote v0 id = Some info ->
    evolves remote v0 w
      (set_projectInfoCache (JS.Map.set (projectInfoCache (svc w)) id info) w)
| ev_category id cats w :
    category_answer remote v0 id = Some cats ->
    evolves remote v0 w
      (set_categoryListCache (JS.Map.set (categoryListCache (svc w)) id cats) w)
| ev_persist m w :
    evolves remote v0 w (mkWorld (svc w) (requests w) (Some m)).

(** A call is tame for a relation [R] between worlds, from the worlds
    that satisfy [Pre]: up to its first [await] it leaves the service
    object as it is, and both this part and the handling of the answer
    stay within [R]. *)
Definition tame (R : World -> World -> Prop) (Pre : World -> Prop)
  (T : Type) (t : Task T) : Prop :=
  forall w, Pre w ->
    match t w with
    | (Settled _, w') => svc w' = svc w /\ R w w'
    | (Awaiting _ k, w') =>
        svc w' = svc w /\ R w w' /\ forall w1, R w1 (snd (k w1))
    end.

Definition tame_started (R : World -> World -> Prop) (T : Type)
  (st : Started T) : Prop :=
  match st with
  | Settled _ => True
  | Awaiting _ k => forall w1, R w1 (snd (k w1))
  end.

Definition tame_arrival (R : World -> World -> Prop) (T : Type)
  (x : nat * (World -> (Err + T) * World)) : Prop :=
  forall w1, R w1 (snd (snd x w1)).

(** A started call waits for an answer whose handling makes [P] hold. *)
Definition settles (P : World -> Prop) (T : Type) (st : Started T) : Prop :=
  match st with
  | Settled _ => False
  | Awaiting _ k => forall w1, P (snd (k w1))
  end.


(** The project map, or the category map, holds a value for a project. *)
Definition has_project (id : string) (info : ProjectInfo) (w : World) : Prop :=
  JS.Map.get (projectInfoCache (svc w)) id = Some info.

Definition has_categories (id : string) (cats : list CategoryInfo) (w : World)
  : Prop :=
  JS.Map.get (categoryListCache (svc w)) id = Some cats.

(** The interfaces of a fetch, each with the project of the fetch. *)
Definition fetched_by (remote : Remote) (v : YApiService) (f : Fetch)
  : list (ProjectInfo * ApiItem) :=
  map (pair (fst f)) (fetched remote v f).

(** The [list_menu] request a fetch sends, when its project has a token. *)
Definition menu_request_of (v : YApiService) (f : Fetch) : list Request :=
  if JS.truthy (token_for v (fetch_project f))
  then [mkRequest GET ListMenu (ByProject (fetch_project f))
          (token_for v (fetch_project f))]
  else [].

(** What [safe] means once a call is started. *)
Definition safe_started (A : Type) (R : A -> Prop) (st : Started A) : Prop :=
  match st with
  | Settled (inr a) => R a
  | Settled (inl _) => False
  | Awaiting _ k =>
      forall w1, exists a w2, k w1 = (inr a, w2) /\ R a /\ kept w1 w2
  end.

(** One round of a loop of the search that starts with the credentials of
    [v0]: it appends to the results the items [J] relates to [F x], and
    sends the menu requests [G x]. *)
Definition round (X A : Type) (J : X -> ApiItem -> Prop) (v0 : YApiService)
  (body : A -> list ApiItem -> M (list ApiItem))
  (F : A -> list X) (G : A -> list Request) : Prop :=
  forall x acc s,
    same_tokens v0 (svc (now s)) ->
    exists rs s',
      body x acc s = (inr (acc ++ rs), s') /\
      Forall2 J (F x) rs /\
      same_tokens v0 (svc (now s')) /\
      in_flight s' = in_flight s /\
      menu_requests (now s') = menu_requests (now s) ++ G x.

(** The arguments of a save call as the handler reads them: a text that
    is left out or empty is not given, and an id that is not given means
    a new interface. *)
Definition given (o : option string) : option string :=
  match o with
  | Some (String c r) => Some (String c r)
  | _ => None
  end.

Definition given_or (o : option string) (d : string) : string :=
  match given o with Some s => s | None => d end.

Definition id_given (a : SaveArgs) : bool :=
  match given (a_id a) with Some _ => true | None => false end.

Definition endpoint_for (a : SaveArgs) : Endpoint :=
  if id_given a then InterfaceUp else InterfaceAdd.

(** A JSON-encoded field decodes to [v]: nothing when the text is not
    given, else the value [JSON.parse] returns for it. *)
Definition decodes_to (JSON_parse : string -> string + json)
  (o : option string) (v : option json) : Prop :=
  match given o with
  | Some text => exists j, JSON_parse text = inr j /\ v = Some j
  | None => v = None
  end.

(** The tag list decodes to [tag]: the empty array when the text is not
    given. *)
Definition tag_decodes_to (JSON_parse : string -> string + json)
  (o : option string) (tag : json) : Prop :=
  match given o with
  | Some text => JSON_parse text = inr tag
  | None => tag = JArray []
  end.

(** The parameters a save call posts for its arguments, field by
    field. *)
Definition posted_for (JSON_parse : string -> string + json) (a : SaveArgs)
  (params : SaveApiInterfaceParams) : Prop :=
  sp_project_id params = a_projectId a /\
  sp_catid params = a_catid a /\
  sp_id params = given (a_id a) /\
  sp_title params = a_title a /\
  sp_path params = a_path a /\
  sp_method params = a_method a /\
  sp_status params = given_or (a_status a) "undone" /\
  tag_decodes_to JSON_parse (a_tag a) (sp_tag params) /\
  sp_desc params = given_or (a_desc a) EmptyString /\
  sp_markdown params = given_or (a_markdown a) EmptyString /\
  decodes_to JSON_parse (a_req_params a) (sp_req_params params) /\
  decodes_to JSON_parse (a_req_query a) (sp_req_query params) /\
  decodes_to JSON_parse (a_req_headers a) (sp_req_headers params) /\
  sp_req_body_type params = given (a_req_body_type a) /\
  decodes_to JSON_parse (a_req_body_form a) (sp_req_body_form params) /\
  sp_req_body_other params = given (a_req_body_other a) /\
  sp_req_body_is_json_schema params = a_req_body_is_json_schema a /\
  sp_res_body_type params = given (a_res_body_type a) /\
  sp_res_body params = given (a_res_body a) /\
  sp_res_body_is_json_schema params = a_res_body_is_json_schema a /\
  sp_switch_notice params = a_switch_notice a /\
  sp_api_opened params = a_api_opened a.

(** How a thrown value reads in the text of a reply, where the template
    converts it to a string: an [Error] or a [SyntaxError] reads as its
    name and its message; the plain object thrown on an HTTP error reads
    "[object Object]", whatever its status and message. *)
Inductive Rendered :=
| RenderedError (e : Err)
| RenderedObject.

Definition render (e : Err) : Rendered :=
  match e with
  | ErrHttp _ _ => RenderedObject
  | _ => RenderedError e
  end.

(** The text of a reply of the save tool. *)
Inductive ReplyText :=
| TextJsonParseError (f : JsonField) (e : Rendered)
| TextSaveError (e : Rendered)
| TextSaved (isUpdate : bool) (resultApiId : Z) (title method path : string).

Definition reply_text (r : Reply) : ReplyText :=
  match r with
  | JsonParseError f e => TextJsonParseError f (render e)
  | SaveError e => TextSaveError (render e)
  | Saved isUpdate resultApiId title method path =>
      TextSaved isUpdate resultApiId title method path
  end.

(* ===================================================================== *)
(** ** A small remote service, to run the model on *)
(* ===================================================================== *)

Module Demo.
Local Open Scope Z_scope.

Definition ok (T : Type) (d : T) : Outcome T :=
  Responded (mkEnvelope 0 EmptyString d).

Definition interface (id : Z) (title path : string) (tags : list string)
  : ApiItem :=
  mkApiItem id (Some title) (Some path) "GET" (Some (map TagString tags))
    10 None None None.

Definition shop_menu : list MenuCategory :=
  [ mkMenuCategory 1 "user"
      (Some [interface 5 "User Login" "/user/login" ["auth"];
             interface 7 "User Logout" "/user/logout" []]);
    mkMenuCategory 2 "admin"
      (Some [interface 9 "Admin Login" "/admin/login" ["auth"; "ops"]]) ].

Definition office_menu : list MenuCategory :=
  [ mkMenuCategory 3 "misc" (Some [interface 12 "Ping" "/ping" []]) ].

(** A menu with a tag that [String] cannot convert. *)
Definition odd_menu : list MenuCategory :=
  [ mkMenuCategory 4 "odd"
      (Some [mkApiItem 1 (Some "One") (Some "/one") "GET"
               (Some [TagObject None]) 50 None None None;
             mkApiItem 2 (Some "Two") (Some "/two") "GET"
               (Some [TagString "beta"]) 50 None None None]) ].

(** Projects 10, 20 and 50 answer every call; project 30 answers none;
    project 40 has project information, which arrives late, and no
    menu. *)
Definition remote : Remote :=
  mkRemote
    (fun id _ =>
       if String.eqb id "10" then ok (mkProjectInfo 10 "Shop" "web shop" "/" 1)
       else if String.eqb id "20" then ok (mkProjectInfo 20 "Office" "back office" "/" 1)
       else if String.eqb id "40" then ok (mkProjectInfo 40 "Late" EmptyString "/" 1)
       else if String.eqb id "50" then ok (mkProjectInfo 50 "Odd" EmptyString "/" 1)
       else NoResponse)
    (fun id _ =>
       if String.eqb id "10"
       then ok [mkCategoryInfo 1 "user" EmptyString; mkCategoryInfo 2 "admin" EmptyString]
       else if String.eqb id "20" then ok [mkCategoryInfo 3 "misc" EmptyString]
       else NoResponse)
    (fun id _ =>
       if String.eqb id "10" then ok (Some shop_menu)
       else if String.eqb id "20" then ok (Some office_menu)
       else if String.eqb id "50" then ok (Some odd_menu)
       else NoResponse)
    (fun _ _ _ => ok 77)
    (fun _ id => if String.eqb id "40" then 9%nat
                 else if String.eqb id "30" then 5%nat else 0%nat).



Definition service : YApiService :=
  Credentials.new "http://yapi" "10:abc,20:def".

Definition service3 : YApiService :=
  Credentials.new "http://yapi" "10:abc,40:q,20:def".

Definition service4 : YApiService :=
  Credentials.new "http://yapi" "10:abc,30:zzz,20:def,40:q".

Definition by_name (names : list string) (lim : option Z) : SearchOptions :=
  mkSearchOptions None (KwArray names) KwUndefined KwUndefined None lim None.

Definition by_tag (tag : string) : SearchOptions :=
  mkSearchOptions None KwUndefined KwUndefined (KwString tag) None None None.

Definition everything (lim : option Z) : SearchOptions :=
  mkSearchOptions None KwUndefined KwUndefined KwUndefined None lim None.

Definition save_args (id tag req_query : option string) : SaveArgs :=
  mkSaveArgs "10" "1" id "Ping" "/ping" "GET" None tag None req_query None
    None None None None None None None None None None None.
End Demo.

(* ===================================================================== *)
(** ** The search tools of the MCP server *)
(* ===================================================================== *)

(** The search condition a search tool passes to [formatSearchResults]:
    "接口名称关键字: " or "接口路径关键字: " followed by the keyword. *)
Inductive SearchCondition :=
| NameCondition (nameKeyword : string)
| PathCondition (pathKeyword : string).

(** The text a call of [yapi_search_by_name] or [yapi_search_by_path]
    answers with.
    - [SearchResults text]: the text [formatSearchResults] returns;
    - [SearchFailed e]: the text of [handleSearchError] for the error. *)
Inductive SearchReply :=
| SearchResults (text : string)
| SearchFailed (e : Err).

(** [n || d] for an optional number. *)
Definition or_number (o : option Z) (d : Z) : Z :=
  match o with
  | Some n => if Z.eqb n 0 then d else n
  | None => d
  end.

Section SearchTools.

Variable remote : Remote.

(** The search tools take [formatSearchResults] as a parameter: a
    function from the page of a search, the search condition and the
    project keyword to the text, or to the exception it throws (it prints
    dates by the locale, and converts fields of the results to text). *)
Variable formatSearchResults :
  SearchPage -> SearchCondition -> option string -> Err + string.

(** The handler of [yapi_search_by_name]. *)
Definition yapi_search_by_name (nameKeyword : string)
  (projectKeyword : option string) (limit : option Z) : M SearchReply :=
  try_catch
    (bind (searchApisByName remote nameKeyword projectKeyword None
             (Some (or_number limit 20%Z)) None)
       (fun searchResults =>
          match formatSearchResults searchResults (NameCondition nameKeyword)
                  projectKeyword with
          | inl e => throw e
          | inr text => ret (SearchResults text)
          end))
    (fun error => ret (SearchFailed error)).

(** The handler of [yapi_search_by_path]. *)
Definition yapi_search_by_path (pathKeyword : string)
  (projectKeyword : option string) (limit : option Z) : M SearchReply :=
  try_catch
    (bind (searchApisByPath remote pathKeyword projectKeyword None
             (Some (or_number limit 20%Z)) None)
       (fun searchResults =>
          match formatSearchResults searchResults (PathCondition pathKeyword)
                  projectKeyword with
          | inl e => throw e
          | inr text => ret (SearchResults text)
          end))
    (fun error => ret (SearchFailed error)).

End SearchTools.

(* ===================================================================== *)
(** ** The logger ([services/yapi/logger.ts]) *)
(* ===================================================================== *)

Module Logger.

Inductive LogLevel := DEBUG | INFO | WARN | ERROR | NONE.

(** The number of a level in the [enum]. *)
Definition level_number (l : LogLevel) : Z :=
  match l with
  | DEBUG => 0
  | INFO => 1
  | WARN => 2
  | ERROR => 3
  | NONE => 4
  end.

(** [getLogLevel(level)]; [None] is a [level] that is not a string. *)
Definition getLogLevel (level : option string) : LogLevel :=
  match level with
  | None => INFO
  | Some s =>
      if negb (JS.truthy s) then INFO
      else
        let name := JS.toLowerCase s in
        if String.eqb name "debug" then DEBUG
        else if String.eqb name "info" then INFO
        else if String.eqb name "warn" then WARN
        else if String.eqb name "error" then ERROR
        else if String.eqb name "none" then NONE
        else INFO
  end.

(** The fields of a [Logger] that its methods read. *)
Record t := mk {
  prefix : string;
  logLevel : LogLevel
}.

(** [new Logger(prefix, logLevel)]: the level is a [LogLevel], the name
    of one, or left out. *)
Definition new (prefix : string) (logLevel : option (LogLevel + string)) : t :=
  mk prefix
     match logLevel with
     | None => INFO
     | Some (inl l) => l
     | Some (inr name) => getLogLevel (Some name)
     end.

(** The two functions of the console the logger prints with; both write
    to the standard error stream. *)
Inductive Console := console_warn | console_error.

(** One call of the console: the function, the text and the extra
    arguments. *)
Record Line (Any : Type) := mkLine {
  line_console : Console;
  line_text : string;
  line_args : list Any
}.

Definition tagged (tag : string) (lg : t) (message : string) : string :=
  String.append "[" (String.append tag (String.append "]["
    (String.append (prefix lg) (String.append "] " message)))).

Definition debug (Any : Type) (lg : t) (message : string) (args : list Any)
  : list (Line Any) :=
  if (level_number (logLevel lg) <=? level_number DEBUG)%Z
  then [mkLine console_warn (tagged "DEBUG" lg message) args] else [].

Definition info (Any : Type) (lg : t) (message : string) (args : list Any)
  : list (Line Any) :=
  if (level_number (logLevel lg) <=? level_number INFO)%Z
  then [mkLine console_warn (tagged "INFO" lg message) args] else [].

Definition warn (Any : Type) (lg : t) (message : string) (args : list Any)
  : list (Line Any) :=
  if (level_number (logLevel lg) <=? level_number WARN)%Z
  then [mkLine console_warn (tagged "WARN" lg message) args] else [].

Definition error (Any : Type) (lg : t) (message : string) (args : list Any)
  : list (Line Any) :=
  if (level_number (logLevel lg) <=? level_number ERROR)%Z
  then [mkLine console_error (tagged "ERROR" lg message) args] else [].

End Logger.

(* ===================================================================== *)
(** ** The configuration ([config.ts]) *)
(* ===================================================================== *)

(** Numbers are integers here; a number that may be [NaN] is an
    [option Z], with [None] for [NaN]. *)
Module Config.

(** [s.slice(-n)]: the last [n] code units of [s], all of [s] when it has
    fewer. *)
Fixpoint drop (n : nat) (s : string) : string :=
  match n, s with
  | O, _ => s
  | S n', String _ r => drop n' r
  | S _, EmptyString => EmptyString
  end.

Definition slice_last (n : nat) (s : string) : string :=
  drop (String.length s - n) s.

Definition maskApiKey (key : string) : string :=
  if Nat.leb (String.length key) 4 then "****"
  else String.append "****" (slice_last 4 key).

(** The value of a decimal digit. *)
Definition digit_value (c : ascii) : option Z :=
  let n := nat_of_ascii c in
  if (Nat.leb 48 n && Nat.leb n 57)%bool then Some (Z.of_nat (n - 48)) else None.

(** The number written by the longest prefix of digits, [acc] when there
    is no digit. *)
Fixpoint digits (s : string) (acc : option Z) : option Z :=
  match s with
  | EmptyString => acc
  | String c r =>
      match digit_value c with
      | Some d => digits r (Some (10 * or_default acc 0 + d)%Z)
      | None => acc
      end
  end.

(** [parseInt(s, 10)]: leading white space, a sign, then digits; [NaN]
    without a digit.  (Exact, where [parseInt] rounds from 2^53 on.) *)
Definition parseInt (s : string) : option Z :=
  match JS.trimStart s with
  | String c r =>
      if Ascii.eqb c "-" then option_map Z.opp (digits r None)
      else if Ascii.eqb c "+" then digits r None
      else digits (String c r) None
  | EmptyString => None
  end.

(** The command-line arguments as [yargs] parses them.  A number is
    [None] when the option is not given or is [NaN]: both are falsy. *)
Record CliArgs := mkCliArgs {
  arg_yapi_base_url : option string;
  arg_yapi_token : option string;
  arg_port : option Z;
  arg_yapi_cache_ttl : option Z;
  arg_yapi_log_level : option string
}.

(** The variables of [process.env] the function reads. *)
Record Env := mkEnv {
  YAPI_BASE_URL : option string;
  YAPI_TOKEN : option string;
  PORT : option string;
  YAPI_CACHE_TTL : option string;
  YAPI_LOG_LEVEL : option string
}.

(** ["default"], ["cli"] or ["env"]. *)
Inductive Source := src_default | src_cli | src_env.

Record ConfigSources := mkConfigSources {
  src_yapiBaseUrl : Source;
  src_yapiToken : Source;
  src_port : Source;
  src_yapiCacheTTL : Source;
  src_yapiLogLevel : Source
}.

Record ServerConfig := mkServerConfig {
  yapiBaseUrl : string;
  yapiToken : string;
  port : option Z;
  yapiCacheTTL : option Z;
  yapiLogLevel : string;
  configSources : ConfigSources
}.

(** Truthiness of a number that is not [NaN]. *)
Definition truthy_number (o : option Z) : bool :=
  match o with Some n => negb (Z.eqb n 0) | None => false end.

Definition validLevels : list string := ["debug"; "info"; "warn"; "error"].

(** [getServerConfig()], as a function of the command line and of the
    environment; the lines it logs are left out. *)
Definition getServerConfig (argv : CliArgs) (env : Env) : ServerConfig :=
  let '(baseUrl, baseUrlSource) :=
    if JS.truthy_opt (arg_yapi_base_url argv)
    then (or_default (arg_yapi_base_url argv) EmptyString, src_cli)
    else if JS.truthy_opt (YAPI_BASE_URL env)
    then (or_default (YAPI_BASE_URL env) EmptyString, src_env)
    else ("http://localhost:3000", src_default) in
  let '(token, tokenSource) :=
    if JS.truthy_opt (arg_yapi_token argv)
    then (or_default (arg_yapi_token argv) EmptyString, src_cli)
    else if JS.truthy_opt (YAPI_TOKEN env)
    then (or_default (YAPI_TOKEN env) EmptyString, src_env)
    else (EmptyString, src_default) in
  let '(port, portSource) :=
    if truthy_number (arg_port argv) then (arg_port argv, src_cli)
    else if JS.truthy_opt (PORT env)
    then (parseInt (or_default (PORT env) EmptyString), src_env)
    else (Some 3388%Z, src_default) in
  let '(cacheTTL, cacheTTLSource) :=
    if truthy_number (arg_yapi_cache_ttl argv)
    then (arg_yapi_cache_ttl argv, src_cli)
    else if JS.truthy_opt (YAPI_CACHE_TTL env)
    then match parseInt (or_default (YAPI_CACHE_TTL env) EmptyString) with
         | Some cacheTTL => (Some cacheTTL, src_env)
         | None => (Some 10%Z, src_default)
         end
    else (Some 10%Z, src_default) in
  let '(logLevel, logLevelSource) :=
    if JS.truthy_opt (arg_yapi_log_level argv)
    then (or_default (arg_yapi_log_level argv) EmptyString, src_cli)
    else if JS.truthy_opt (YAPI_LOG_LEVEL env)
    then let logLevel :=
           JS.toLowerCase (JS.trim (or_default (YAPI_LOG_LEVEL env) EmptyString)) in
         if existsb (String.eqb logLevel) validLevels
         then (logLevel, src_env)
         else ("info", src_default)
    else ("info", src_default) in
  mkServerConfig baseUrl token port cacheTTL logLevel
    (mkConfigSources baseUrlSource tokenSource portSource cacheTTLSource
       logLevelSource).

End Config.

(* ===================================================================== *)
(** ** Vocabulary of the further properties *)
(* ===================================================================== *)

(** The request a project fetch sends for [id] from the service object
    [v]: none when the project is in the map or has no token. *)
Definition project_request_of (v : YApiService) (id : string) : list Request :=
  match JS.Map.get (projectInfoCache v) id with
  | Some _ => []
  | None =>
      if JS.truthy (token_for v id)
      then [mkRequest GET ProjectGet (ById id) (token_for v id)]
      else []
  end.

(** The request a category fetch sends for [id]. *)
Definition category_request_of (v : YApiService) (id : string) : list Request :=
  match JS.Map.get (categoryListCache v) id with
  | Some _ => []
  | None =>
      if JS.truthy (token_for v id)
      then [mkRequest GET GetCatMenu (ByProject id) (token_for v id)]
      else []
  end.

(** The invariant of the token map the constructor builds: no key
    twice, every key non-empty and without a colon, every token
    non-empty. *)
Definition well_keyed (m : JS.Map.t string) : Prop :=
  NoDup (JS.Map.keys m) /\
  forall k, In k (JS.Map.keys m) ->
    JS.truthy k = true /\ JS.includes k ":" = false /\
    exists tok, JS.Map.get m k = Some tok /\ JS.truthy tok = true.

(** The log of requests is the same in two worlds. *)
Definition same_log (w w' : World) : Prop := requests w' = requests w.

(** From [w] to [w'], the projects of the map [pc0] and the category
    lists of the map [cc0] keep their values. *)
Definition keeps_entries (pc0 : JS.Map.t ProjectInfo)
  (cc0 : JS.Map.t (list CategoryInfo)) (w w' : World) : Prop :=
  (forall id, JS.Map.get pc0 id <> None ->
     JS.Map.get (projectInfoCache (svc w')) id
     = JS.Map.get (projectInfoCache (svc w)) id) /\
  (forall id, JS.Map.get cc0 id <> None ->
     JS.Map.get (categoryListCache (svc w')) id
     = JS.Map.get (categoryListCache (svc w)) id).

(** The maps of [w] have a value for every key of [pc0] and of [cc0]. *)
Definition holds_entries (pc0 : JS.Map.t ProjectInfo)
  (cc0 : JS.Map.t (list CategoryInfo)) (w : World) : Prop :=
  (forall id, JS.Map.get pc0 id <> None ->
     JS.Map.get (projectInfoCache (svc w)) id <> None) /\
  (forall id, JS.Map.get cc0 id <> None ->
     JS.Map.get (categoryListCache (svc w)) id <> None).

(** The persisted snapshot is the same in two worlds. *)
Definition same_snapshot (w w' : World) : Prop := persisted w' = persisted w.

(* ===================================================================== *)
(** * Properties *)
(* ===================================================================== *)

(** ** Strings and maps *)

Lemma split_nonempty sep s : JS.split sep s <> [].
Proof.
  destruct s as [|c r]; simpl; [discriminate|].
  destruct (Ascii.eqb c sep); [discriminate|].
  destruct (JS.split sep r); discriminate.
Qed.

Lemma includes_hd_split sep s :
  JS.includes (hd EmptyString (JS.split sep s)) (String sep EmptyString) = false.
Proof.
  induction s as [|c r IH]; simpl; [reflexivity|].
  destruct (Ascii.eqb_spec c sep) as [->|Hne]; simpl; [reflexivity|].
  destruct (JS.split sep r) as [|h t] eqn:E; simpl in *.
  - destruct (ascii_dec sep c) as [->|_]; [congruence|reflexivity].
  - destruct (ascii_dec sep c) as [->|_]; [congruence|]. simpl. exact IH.
Qed.

Lemma map_get_set_same V (m : JS.Map.t V) k v :
  JS.Map.get (JS.Map.set m k v) k = Some v.
Proof.
  induction m as [|[k' v'] r IH]; simpl.
  - now rewrite String.eqb_refl.
  - destruct (String.eqb k' k) eqn:E; simpl; rewrite E; [reflexivity|exact IH].
Qed.

Lemma map_get_set_other V (m : JS.Map.t V) k k' v :
  k <> k' -> JS.Map.get (JS.Map.set m k v) k' = JS.Map.get m k'.
Proof.
  intros Hne. induction m as [|[k0 v0] r IH]; simpl.
  - destruct (String.eqb_spec k k'); [contradiction|reflexivity].
  - destruct (String.eqb_spec k0 k) as [->|Hk]; simpl.
    + destruct (String.eqb_spec k k'); [contradiction|reflexivity].
    + destruct (String.eqb_spec k0 k'); [reflexivity|exact IH].
Qed.

(** ** The credential resolver *)

(** One iteration of the constructor's loop, by what the entry is. *)
Lemma parse_pair_entry acc e :
  Credentials.parse_pair acc e =
  match Credentials.entry_pair e with
  | Some (i, tok) => (JS.Map.set (fst acc) i tok, snd acc)
  | None => (fst acc, JS.trim e)
  end.
Proof.
  unfold Credentials.parse_pair, Credentials.entry_pair.
  pose proof (includes_hd_split ":" (JS.trim e)) as Hinc.
  destruct (JS.split ":" (JS.trim e)) as [|i [|tok rest]] eqn:E; simpl in *.
  - reflexivity.
  - rewrite Hinc. simpl. now rewrite andb_false_r.
  - destruct (JS.truthy i && JS.truthy tok)%bool; [reflexivity|].
    now rewrite Hinc.
Qed.

Lemma entry_pair_truthy e i tok :
  Credentials.entry_pair e = Some (i, tok) ->
  JS.truthy i = true /\ JS.truthy tok = true.
Proof.
  unfold Credentials.entry_pair.
  destruct (JS.split ":" (JS.trim e)) as [|i' [|tok' rest]]; try discriminate.
  destruct (JS.truthy i' && JS.truthy tok')%bool eqn:E; [|discriminate].
  intros [= <- <-]. now apply andb_true_iff.
Qed.

(** What the loop has built after the entries [es]. *)
Lemma fold_parse_pair es :
  let acc := fold_left Credentials.parse_pair es (JS.Map.empty string, EmptyString) in
  (forall id,
     JS.Map.get (fst acc) id =
     match find (Credentials.is_pair_for id) (rev es) with
     | Some e => option_map snd (Credentials.entry_pair e)
     | None => None
     end) /\
  snd acc = match find Credentials.is_default (rev es) with
            | Some e => JS.trim e
            | None => EmptyString
            end.
Proof.
  induction es as [|e es IH] using rev_ind; [split; reflexivity|].
  cbv zeta in *. rewrite fold_left_app, rev_app_distr. simpl.
  destruct IH as [IHm IHd].
  rewrite parse_pair_entry.
  unfold Credentials.is_pair_for at 1, Credentials.is_default at 1.
  destruct (Credentials.entry_pair e) as [[i tok]|] eqn:E; simpl.
  - split; [|exact IHd]. intros id.
    destruct (String.eqb_spec i id) as [->|Hne].
    + rewrite E. apply map_get_set_same.
    + rewrite map_get_set_other by assumption. apply IHm.
  - split; [|reflexivity]. intros id. apply IHm.
Qed.

(** What [getToken] returns for any credential string: the token of the
    last entry that is a pair for the project, else the last entry that
    is not a pair, trimmed, else the empty string. *)
Lemma getToken_last_wins base raw projectId :
  Credentials.getToken (Credentials.new base raw) projectId =
  Credentials.last_wins raw projectId.
Proof.
  unfold Credentials.new, Credentials.parse_tokens, Credentials.last_wins,
    Credentials.entries, Credentials.getToken.
  destruct (JS.truthy raw); [|reflexivity].
  destruct (fold_parse_pair (JS.split "," raw)) as [Hm Hd].
  destruct (fold_left _ _ _) as [tm dt]. simpl in *.
  rewrite Hm, Hd.
  destruct (find (Credentials.is_pair_for projectId) _) as [e|] eqn:F; [|reflexivity].
  apply find_some in F. destruct F as [_ F].
  unfold Credentials.is_pair_for in F.
  destruct (Credentials.entry_pair e) as [[i tok]|] eqn:E; [|discriminate].
  simpl. apply entry_pair_truthy in E. destruct E as [_ ->]. reflexivity.
Qed.

(** Splitting on the first colon against splitting on every colon. *)
Lemma split_first_colon_split s :
  match Credentials.split_first_colon s with
  | Some (i, t) => JS.split ":" s = i :: JS.split ":" t
  | None => JS.split ":" s = [s]
  end.
Proof.
  induction s as [|c r IH]; simpl; [reflexivity|].
  destruct (Ascii.eqb c ":"); [reflexivity|].
  destruct (Credentials.split_first_colon r) as [[i t]|]; rewrite IH; reflexivity.
Qed.

Lemma spec_entry_plain acc e :
  Credentials.plain_entry e = true ->
  Credentials.spec_entry acc e = Credentials.parse_pair acc e.
Proof.
  unfold Credentials.plain_entry. intros Hp.
  rewrite parse_pair_entry.
  unfold Credentials.spec_entry, Credentials.entry_pair.
  pose proof (split_first_colon_split (JS.trim e)) as Hs.
  destruct (Credentials.split_first_colon (JS.trim e)) as [[i t]|].
  - pose proof (split_first_colon_split t) as Ht.
    rewrite Hs in *.
    destruct (Credentials.split_first_colon t) as [[i' t']|].
    + rewrite Ht in Hp. pose proof (split_nonempty ":" t') as Hn.
      destruct (JS.split ":" t'); [contradiction|discriminate].
    + rewrite Ht in *. now rewrite Hp.
  - now rewrite Hs.
Qed.

Lemma fold_spec_entry_plain es acc :
  forallb Credentials.plain_entry es = true ->
  fold_left Credentials.spec_entry es acc = fold_left Credentials.parse_pair es acc.
Proof.
  revert acc. induction es as [|e es IH]; intros acc H; simpl in *; [reflexivity|].
  apply andb_true_iff in H. destruct H as [He Hes].
  rewrite spec_entry_plain by assumption. now apply IH.
Qed.

(** C2 (as amended).  For every raw credential string in which no entry
    has a second colon and every entry with a colon has text on both
    sides of it, [getToken] is the resolver of the specification: the
    entries are separated by commas, an entry is split on its colon into
    project id and token, an entry without a colon is the default token,
    the last one wins; the token of a project is its own if it has one,
    else the default one, else the empty string. *)
Theorem credentials_resolved base raw projectId :
  Credentials.plain raw = true ->
  Credentials.getToken (Credentials.new base raw) projectId =
  Credentials.spec_tokenFor (Credentials.spec_resolve raw) projectId.
Proof.
  unfold Credentials.plain, Credentials.entries, Credentials.spec_resolve,
    Credentials.new, Credentials.parse_tokens, Credentials.getToken,
    Credentials.spec_tokenFor.
  destruct raw as [|c r]; [reflexivity|]. intros Hp.
  change (JS.truthy (String c r)) with true in *. cbv iota in *.
  rewrite fold_spec_entry_plain by assumption.
  destruct (fold_parse_pair (JS.split "," (String c r))) as [Hm _].
  destruct (fold_left _ _ _) as [tm dt]. simpl in *.
  rewrite Hm.
  destruct (find (Credentials.is_pair_for projectId) _) as [e|] eqn:F; [|reflexivity].
  apply find_some in F. destruct F as [_ F].
  unfold Credentials.is_pair_for in F.
  destruct (Credentials.entry_pair e) as [[i tok]|] eqn:E; [|discriminate].
  simpl. apply entry_pair_truthy in E. destruct E as [_ ->]. reflexivity.
Qed.

(** C2 as stated fails: the entry [10:ab:cd] gives project 10 the token
    [ab], where a split on the first colon gives [ab:cd]. *)
Lemma credentials_first_colon_counterexample :
  Credentials.getToken (Credentials.new "http://yapi" "10:ab:cd") "10" = "ab" /\
  Credentials.spec_tokenFor (Credentials.spec_resolve "10:ab:cd") "10" = "ab:cd" /\
  ~ (forall raw projectId,
       Credentials.getToken (Credentials.new "http://yapi" raw) projectId
       = Credentials.spec_tokenFor (Credentials.spec_resolve raw) projectId).
Proof.
  split; [reflexivity|]. split; [reflexivity|].
  intros H. specialize (H "10:ab:cd" "10"). vm_compute in H. discriminate H.
Qed.

Lemma credentials_resolved_witness :
  Credentials.plain "10:abc,20:def,xyz" = true /\
  Credentials.getToken (Credentials.new "http://yapi" "10:abc,20:def,xyz") "99"
  = Credentials.spec_tokenFor (Credentials.spec_resolve "10:abc,20:def,xyz") "99".
Proof.
  split; [reflexivity|].
  apply (credentials_resolved "http://yapi" "10:abc,20:def,xyz" "99").
  reflexivity.
Defined.

Example getToken_scenario :
  let v := Credentials.new "http://yapi" "10:abc,20:def,xyz" in
  (Credentials.getToken v "10", Credentials.getToken v "20",
   Credentials.getToken v "99") = ("abc", "def", "xyz").
Proof. reflexivity. Qed.

(** ** Numbers as strings, sorting, deduplication *)

Lemma to_int_not_nil n :
  Z.to_int n <> Decimal.Pos Decimal.Nil /\ Z.to_int n <> Decimal.Neg Decimal.Nil.
Proof.
  rewrite <- (DecimalZ.of_to n) at 1 2. rewrite DecimalZ.to_of.
  destruct (Z.to_int n) as [d|d]; simpl.
  - split; [|discriminate]. intros [= H]. now apply unorm_nonnil in H.
  - destruct (Decimal.nzhead d) eqn:E; split; discriminate.
Qed.

Lemma String_of_number_inj n m :
  JS.String_of_number n = JS.String_of_number m -> n = m.
Proof.
  unfold JS.String_of_number. intros H.
  apply DecimalZ.to_int_inj.
  assert (Some (Z.to_int n) = Some (Z.to_int m)) as [= ->]; [|reflexivity].
  rewrite <- (NilZero.isi (Z.to_int n)), <- (NilZero.isi (Z.to_int m))
    by apply to_int_not_nil.
  now rewrite H.
Qed.

Lemma or_zero_id n : JS.or_zero n = n.
Proof. unfold JS.or_zero. destruct (Z.eqb_spec n 0); congruence. Qed.

Section SortFacts.
Variable A : Type.
Variable key : A -> Z.

Lemma insert_desc_perm x l : Permutation (JS.insert_desc key x l) (x :: l).
Proof.
  induction l as [|y r IH]; simpl; [reflexivity|].
  destruct (key y <=? key x)%Z; [reflexivity|].
  rewrite IH. apply perm_swap.
Qed.

Lemma sort_desc_perm l : Permutation (JS.sort_desc key l) l.
Proof.
  induction l as [|x r IH]; simpl; [reflexivity|].
  rewrite insert_desc_perm. now constructor.
Qed.

Lemma insert_desc_sorted x l :
  StronglySorted Z.ge (map key l) ->
  StronglySorted Z.ge (map key (JS.insert_desc key x l)).
Proof.
  induction l as [|y r IH]; simpl; intros H.
  - constructor; constructor.
  - inversion H as [|? ? Hs Hf]; subst.
    destruct (Z.leb_spec (key y) (key x)); simpl.
    + constructor; [assumption|]. constructor; [lia|].
      eapply Forall_impl; [|exact Hf]. simpl. intros; lia.
    + constructor; [now apply IH|].
      rewrite Forall_forall in *. intros z Hz.
      apply in_map_iff in Hz. destruct Hz as [a [<- Ha]].
      apply (Permutation_in _ (insert_desc_perm x r)) in Ha.
      destruct Ha as [->|Ha]; [lia|]. apply Hf. now apply in_map.
Qed.

Lemma sort_desc_sorted l : StronglySorted Z.ge (map key (JS.sort_desc key l)).
Proof.
  induction l as [|x r IH]; simpl; [constructor|].
  now apply insert_desc_sorted.
Qed.
End SortFacts.

Lemma sort_by_id_desc_descending items : descending (ids (sort_by_id_desc items)).
Proof.
  unfold descending, ids, sort_by_id_desc.
  rewrite (map_ext _ (fun item => JS.or_zero (item__id item)))
    by (intros; now rewrite or_zero_id).
  apply sort_desc_sorted.
Qed.

Lemma filter_filter A (f g : A -> bool) l :
  filter f (filter g l) = filter (fun x => (g x && f x)%bool) l.
Proof.
  induction l as [|x r IH]; simpl; [reflexivity|].
  destruct (g x); simpl; [destruct (f x)|]; now rewrite IH.
Qed.

Lemma first_occurrences_In x l : In x (first_occurrences l) <-> In x l.
Proof.
  induction l as [|y r IH]; simpl; [tauto|].
  rewrite filter_In, IH.
  destruct (Z.eqb_spec x y); simpl; intuition congruence.
Qed.

Lemma NoDup_filter A (f : A -> bool) l : NoDup l -> NoDup (filter f l).
Proof.
  induction 1 as [|x l Hx Hn IH]; simpl; [constructor|].
  destruct (f x); [|assumption].
  constructor; [|assumption]. rewrite filter_In. tauto.
Qed.

Lemma first_occurrences_NoDup l : NoDup (first_occurrences l).
Proof.
  induction l as [|x r IH]; simpl; constructor.
  - rewrite filter_In. intros [_ H]. now rewrite Z.eqb_refl in H.
  - now apply NoDup_filter.
Qed.

Lemma descending_filter f l : descending l -> descending (filter f l).
Proof.
  unfold descending. induction 1 as [|x l Hs IH Hf]; simpl; [constructor|].
  destruct (f x); [|assumption].
  constructor; [assumption|].
  rewrite Forall_forall in *. intros y Hy. apply filter_In in Hy. now apply Hf.
Qed.

Lemma first_occurrences_descending l :
  descending l -> descending (first_occurrences l).
Proof.
  unfold descending. induction 1 as [|x l Hs IH Hf]; simpl; constructor.
  - now apply descending_filter.
  - rewrite Forall_forall in *. intros y Hy.
    apply filter_In in Hy. destruct Hy as [Hy _].
    apply (proj1 (first_occurrences_In _ _)) in Hy. now apply Hf.
Qed.

Lemma In_firstn A n (l : list A) x : In x (firstn n l) -> In x l.
Proof.
  intros H. rewrite <- (firstn_skipn n l). apply in_or_app. now left.
Qed.

Lemma descending_firstn n l : descending l -> descending (firstn n l).
Proof.
  unfold descending. revert l. induction n as [|n IH]; intros l H; simpl.
  - constructor.
  - destruct l as [|x r]; [constructor|].
    inversion H as [|? ? Hs Hf]; subst. constructor; [now apply IH|].
    rewrite Forall_forall in *. intros y Hy. apply Hf.
    eapply In_firstn; exact Hy.
Qed.

Lemma NoDup_firstn A n (l : list A) : NoDup l -> NoDup (firstn n l).
Proof.
  revert l. induction n as [|n IH]; intros l H; simpl; [constructor|].
  destruct l as [|x r]; [constructor|].
  inversion H; subst. constructor; [|now apply IH].
  intros Hin. apply In_firstn in Hin. contradiction.
Qed.

(** [deduplicateResults] on the ids: the first occurrence of each. *)
Lemma dedup_from_ids seen l :
  ids (dedup_from (map JS.String_of_number seen) l)
  = filter (fun y => negb (existsb (Z.eqb y) seen)) (first_occurrences (ids l)).
Proof.
  revert seen. induction l as [|x r IH]; intros seen; simpl; [reflexivity|].
  assert (Hmem : existsb (String.eqb (JS.String_of_number (item__id x)))
                   (map JS.String_of_number seen)
                 = existsb (Z.eqb (item__id x)) seen).
  { induction seen as [|z zs IHz]; simpl; [reflexivity|]. rewrite IHz. f_equal.
    destruct (Z.eqb_spec (item__id x) z) as [->|Hne].
    - apply String.eqb_refl.
    - apply String.eqb_neq. intros H. now apply String_of_number_inj in H. }
  rewrite Hmem. rewrite filter_filter.
  destruct (existsb (Z.eqb (item__id x)) seen) eqn:E; simpl.
  - rewrite IH. apply filter_ext_in. intros y _.
    destruct (Z.eqb_spec y (item__id x)) as [->|]; simpl; [now rewrite E|reflexivity].
  - f_equal. change (JS.String_of_number (item__id x) :: map JS.String_of_number seen)
      with (map JS.String_of_number (item__id x :: seen)).
    rewrite IH. apply filter_ext. intros y. simpl.
    now rewrite negb_orb.
Qed.

Lemma deduplicateResults_ids l :
  ids (deduplicateResults l) = first_occurrences (ids l).
Proof.
  unfold deduplicateResults. change (@nil string) with (map JS.String_of_number []).
  rewrite dedup_from_ids. simpl.
  induction (first_occurrences (ids l)) as [|y r IH]; simpl; congruence.
Qed.

Lemma slice0_ids l e : ids (JS.slice0 l e) = JS.slice0 (ids l) e.
Proof.
  unfold JS.slice0, ids. rewrite length_map. symmetry. apply firstn_map.
Qed.

Lemma slice0_nonneg A (l : list A) e :
  (0 <= e)%Z -> JS.slice0 l e = firstn (Z.to_nat e) l.
Proof.
  intros H. unfold JS.slice0.
  destruct (Z.ltb_spec e 0); [lia|].
  destruct (Z.le_ge_cases e (Z.of_nat (List.length l))).
  - now rewrite Z.min_l.
  - rewrite Z.min_r by assumption. rewrite Nat2Z.id.
    rewrite firstn_all. symmetry. apply firstn_all2. lia.
Qed.

Lemma slice0_neg A (l : list A) e :
  (e < 0)%Z -> JS.slice0 l e = firstn (List.length l - Z.to_nat (- e)) l.
Proof.
  intros H. unfold JS.slice0.
  destruct (Z.ltb_spec e 0); [|lia]. f_equal. lia.
Qed.

(** ** What the asynchronous calls keep *)

Lemma same_tokens_refl v : same_tokens v v.
Proof. now split. Qed.

Lemma same_tokens_trans v1 v2 v3 :
  same_tokens v1 v2 -> same_tokens v2 v3 -> same_tokens v1 v3.
Proof. intros [A B] [C D]. split; congruence. Qed.

Lemma kept_refl w : kept w w.
Proof. split; [apply same_tokens_refl | reflexivity]. Qed.

Lemma kept_trans w1 w2 w3 : kept w1 w2 -> kept w2 w3 -> kept w1 w3.
Proof.
  intros [A B] [C D]. split; [eapply same_tokens_trans; eassumption | congruence].
Qed.

Create HintDb yapi.
#[local] Hint Resolve kept_refl same_tokens_refl : yapi.
#[local] Hint Constructors evolves : yapi.

Lemma token_for_same v v' id : same_tokens v v' -> token_for v' id = token_for v id.
Proof.
  intros [Ht Hd]. unfold token_for, Credentials.getToken. now rewrite Ht, Hd.
Qed.

Lemma menu_of_same remote v v' id :
  same_tokens v v' -> menu_of remote v' id = menu_of remote v id.
Proof. intros H. unfold menu_of. now rewrite (token_for_same id H). Qed.

Lemma fetched_same remote v v' f :
  same_tokens v v' -> fetched remote v' f = fetched remote v f.
Proof. intros H. unfold fetched. now rewrite (menu_of_same remote _ H). Qed.

Lemma kept_log r w :
  req_endpoint r <> ListMenu -> kept w (log_request r w).
Proof.
  intros H. split; [apply same_tokens_refl|].
  unfold menu_requests, log_request. simpl.
  rewrite filter_app. simpl.
  destruct (req_endpoint r); try contradiction; now rewrite List.app_nil_r.
Qed.

Lemma kept_set_categoryListCache c w : kept w (set_categoryListCache c w).
Proof. split; [split|]; reflexivity. Qed.

Lemma kept_set_projectInfoCache c w : kept w (set_projectInfoCache c w).
Proof. split; [split|]; reflexivity. Qed.

#[local] Hint Resolve kept_set_categoryListCache kept_set_projectInfoCache : yapi.

(** The world evolves within what the search relies on. *)
Lemma evolves_kept remote v0 w w' : evolves remote v0 w w' -> kept w w'.
Proof.
  induction 1; auto with yapi.
  - eapply kept_trans; eassumption.
  - now apply kept_log.
  - split; [split|]; reflexivity.
Qed.

(** A stored answer stays, whatever is stored later. *)
Lemma evolves_has_project remote v0 id info w w' :
  project_answer remote v0 id = Some info ->
  evolves remote v0 w w' -> has_project id info w -> has_project id info w'.
Proof.
  intros Ha H. unfold has_project.
  induction H as [| | | id' info' w Hp | |]; simpl; auto.
  intros Hw. destruct (String.eqb_spec id' id) as [->|Hne].
  - rewrite map_get_set_same. congruence.
  - now rewrite map_get_set_other.
Qed.


(** [request] either sends nothing and is rejected, or logs one request
    and waits for its answer, which leaves the world as it is. *)
Lemma request_cases remote T (answer : string -> Outcome T) e payload id m w :
  (JS.truthy (token_for (svc w) id) = false /\
   request remote answer e payload id m w = (Settled (inl ErrComm), w)) \/
  (JS.truthy (token_for (svc w) id) = true /\
   exists k,
     request remote answer e payload id m w =
       (Awaiting (latency remote e id) k,
        log_request (mkRequest m e payload (token_for (svc w) id)) w) /\
     forall w1, k w1 =
       (match answer (token_for (svc w) id) with
        | Responded body => inr body
        | HttpError status msg => inl (ErrHttp status msg)
        | NoResponse => inl ErrComm
        end, w1)).
Proof.
  unfold request. fold (token_for (svc w) id).
  destruct (JS.truthy (token_for (svc w) id)); simpl.
  - right. split; [reflexivity|]. eexists. split; [reflexivity|]. reflexivity.
  - left. split; reflexivity.
Qed.

(** A project fetch, by what it finds. *)
Lemma getProjectInfo_cases remote id w :
  (exists r, getProjectInfo remote id w = (Settled r, w) /\
             (JS.Map.get (projectInfoCache (svc w)) id <> None \/
              JS.truthy (token_for (svc w) id) = false)) \/
  (JS.Map.get (projectInfoCache (svc w)) id = None /\
   exists k,
     getProjectInfo remote id w
     = (Awaiting (latency remote ProjectGet id) k,
        log_request (mkRequest GET ProjectGet (ById id) (token_for (svc w) id)) w) /\
     forall w1,
       snd (k w1) =
       match project_answer remote (svc w) id with
       | Some info =>
           set_projectInfoCache
             (JS.Map.set (projectInfoCache (svc w1)) id info) w1
       | None => w1
       end).
Proof.
  unfold getProjectInfo, project_answer.
  destruct (JS.Map.get (projectInfoCache (svc w)) id) as [cached|];
    [left; eexists; split; [reflexivity | left; discriminate]|].
  unfold then_.
  destruct (request_cases remote (project_get remote id) ProjectGet (ById id)
              id GET w) as [[Hf ->]|[Ht [k [-> Hk]]]];
    [left; eexists; split; [reflexivity | now right]|].
  right. split; [reflexivity|]. eexists. split; [reflexivity|].
  intros w1. cbv beta. rewrite Hk, Ht.
  destruct (project_get remote id _) as [body| |]; simpl; try reflexivity.
  destruct (errcode body =? 0)%Z; reflexivity.
Qed.

Lemma getCategoryList_cases remote id w :
  (exists r, getCategoryList remote id w = (Settled r, w) /\
             (JS.Map.get (categoryListCache (svc w)) id <> None \/
              JS.truthy (token_for (svc w) id) = false)) \/
  (JS.Map.get (categoryListCache (svc w)) id = None /\
   exists k,
     getCategoryList remote id w
     = (Awaiting (latency remote GetCatMenu id) k,
        log_request (mkRequest GET GetCatMenu (ByProject id) (token_for (svc w) id)) w) /\
     forall w1,
       snd (k w1) =
       match category_answer remote (svc w) id with
       | Some cats =>
           set_categoryListCache
             (JS.Map.set (categoryListCache (svc w1)) id cats) w1
       | None => w1
       end).
Proof.
  unfold getCategoryList, category_answer.
  destruct (JS.Map.get (categoryListCache (svc w)) id) as [cached|];
    [left; eexists; split; [reflexivity | left; discriminate]|].
  unfold then_.
  destruct (request_cases remote (cat_menu remote id) GetCatMenu (ByProject id)
              id GET w) as [[Hf ->]|[Ht [k [-> Hk]]]];
    [left; eexists; split; [reflexivity | now right]|].
  right. split; [reflexivity|]. eexists. split; [reflexivity|].
  intros w1. cbv beta. rewrite Hk, Ht.
  destruct (cat_menu remote id _) as [body| |]; simpl; try reflexivity.
  destruct (errcode body =? 0)%Z; reflexivity.
Qed.

Lemma project_answer_same remote v v' id :
  same_tokens v v' -> project_answer remote v' id = project_answer remote v id.
Proof. intros H. unfold project_answer. now rewrite (token_for_same id H). Qed.


Lemma getProjectInfo_tame remote v0 id :
  tame (evolves remote v0) (fun w => same_tokens v0 (svc w))
       (getProjectInfo remote id).
Proof.
  intros w Hw.
  destruct (getProjectInfo_cases remote id w) as [[r [-> _]]|[_ [k [-> Hk]]]].
  - split; [reflexivity | constructor].
  - split; [reflexivity|]. split; [now constructor|].
    intros w1. rewrite Hk, (project_answer_same remote id Hw).
    destruct (project_answer remote v0 id) eqn:E; now constructor.
Qed.


(** A project fetch leaves the category map as it is. *)
Lemma getProjectInfo_tame_categories remote id :
  tame (fun w w' => categoryListCache (svc w') = categoryListCache (svc w))
       (fun _ => True) (getProjectInfo remote id).
Proof.
  intros w _.
  destruct (getProjectInfo_cases remote id w) as [[r [-> _]]|[_ [k [-> Hk]]]].
  - split; reflexivity.
  - split; [reflexivity|]. split; [reflexivity|].
    intros w1. rewrite Hk. now destruct (project_answer remote (svc w) id).
Qed.

(** *** [Promise.all] over tame calls *)

Lemma insert_arrival_perm T (x : nat * (World -> (Err + T) * World)) l :
  Permutation (insert_arrival x l) (x :: l).
Proof.
  induction l as [|y r IH]; simpl; [reflexivity|].
  destruct (Nat.leb (fst x) (fst y)); [reflexivity|].
  rewrite IH. apply perm_swap.
Qed.

Lemma arrivals_In T (sts : list (Started T)) lat k :
  In (Awaiting lat k) sts -> In (lat, k) (arrivals sts).
Proof.
  induction sts as [|st r IH]; simpl; [tauto|].
  intros [->|Hin].
  - apply (Permutation_in _ (Permutation_sym (insert_arrival_perm _ _))). now left.
  - destruct st as [x|lat' k']; [now apply IH|].
    apply (Permutation_in _ (Permutation_sym (insert_arrival_perm _ _))).
    right. now apply IH.
Qed.

Section Frame.

Variable R : World -> World -> Prop.
Variable Pre : World -> Prop.
Hypothesis R_refl : forall w, R w w.
Hypothesis R_trans : forall w1 w2 w3, R w1 w2 -> R w2 w3 -> R w1 w3.
Hypothesis Pre_stable : forall w w', R w w' -> Pre w -> Pre w'.

Variable T : Type.

Lemma start_all_frame (tasks : list (Task T)) w :
  Forall (tame R Pre (T:=T)) tasks -> Pre w ->
  svc (snd (start_all tasks w)) = svc w /\
  R w (snd (start_all tasks w)) /\
  Forall (tame_started R (T:=T)) (fst (start_all tasks w)).
Proof.
  intros H. revert w. induction H as [|t r Ht Hr IH]; intros w Hw; simpl.
  - split; [reflexivity|]. split; [apply R_refl | constructor].
  - specialize (Ht w Hw). destruct (t w) as [st w1].
    assert (Hw1 : svc w1 = svc w /\ R w w1 /\ tame_started R st).
    { destruct st as [x|lat k]; simpl; tauto. }
    destruct Hw1 as [Hs1 [Hr1 Hst]].
    specialize (IH w1 (Pre_stable Hr1 Hw)).
    destruct (start_all r w1) as [sts w2]. simpl in *.
    destruct IH as [Hs2 [Hr2 Hf]].
    split; [congruence|]. split; [eapply R_trans; eassumption|].
    constructor; assumption.
Qed.

(** A call of the list that, started in a world with the service object
    of [w], settles [P], is found among the started calls. *)
Lemma start_all_settles (P : World -> Prop) (tasks : list (Task T)) w t :
  Forall (tame R Pre (T:=T)) tasks -> Pre w ->
  In t tasks ->
  (forall w0, svc w0 = svc w -> settles P (fst (t w0))) ->
  exists st, In st (fst (start_all tasks w)) /\ settles P st.
Proof.
  intros H. revert w. induction H as [|t' r Ht Hr IH]; intros w Hw Hin Hset;
    simpl in *; [contradiction|].
  pose proof (Ht w Hw) as Ht'. pose proof (Hset w eq_refl) as Hsw.
  destruct (t' w) as [st w1] eqn:E.
  assert (Hw1 : svc w1 = svc w /\ R w w1).
  { destruct st as [x|lat k]; simpl in *; tauto. }
  destruct Hw1 as [Hs1 Hr1].
  destruct (start_all r w1) as [sts w2] eqn:E2. simpl.
  destruct Hin as [->|Hin].
  - rewrite E in Hsw. exists st. split; [now left | exact Hsw].
  - destruct (IH w1 (Pre_stable Hr1 Hw) Hin) as [st' [Hin' Hst']].
    + intros w0 H0. apply Hset. congruence.
    + rewrite E2 in Hin'. exists st'. split; [now right | exact Hst'].
Qed.

Lemma arrivals_frame (sts : list (Started T)) :
  Forall (tame_started R (T:=T)) sts ->
  Forall (tame_arrival R (T:=T)) (arrivals sts).
Proof.
  induction 1 as [|st r Hst Hr IH]; simpl; [constructor|].
  destruct st as [x|lat k]; [assumption|].
  eapply Permutation_Forall; [symmetry; apply insert_arrival_perm|].
  constructor; assumption.
Qed.

Lemma deliver_frame (l : list (nat * (World -> (Err + T) * World))) w :
  Forall (tame_arrival R (T:=T)) l ->
  R w (snd (fst (deliver l w))) /\
  Forall (tame_arrival R (T:=T)) (snd (deliver l w)).
Proof.
  intros H. revert w. induction H as [|[lat k] r Hx Hr IH]; intros w; simpl.
  - split; [apply R_refl | constructor].
  - specialize (Hx w). simpl in Hx.
    destruct (k w) as [[e|a] w1]; simpl in *.
    + split; assumption.
    + destruct (IH w1) as [Hk Hf].
      split; [eapply R_trans; eassumption | assumption].
Qed.

(** An answer whose handling makes [P] hold has been handled when the
    delivery stops, or is still in flight. *)
Lemma deliver_settles (P : World -> Prop)
  (l : list (nat * (World -> (Err + T) * World))) w x :
  (forall w1 w2, R w1 w2 -> P w1 -> P w2) ->
  Forall (tame_arrival R (T:=T)) l ->
  In x l ->
  (forall w1, P (snd (snd x w1))) ->
  P (snd (fst (deliver l w))) \/ In x (snd (deliver l w)).
Proof.
  intros HP H. revert w. induction H as [|[lat k] r Hx Hr IH]; intros w Hin Hs;
    simpl in *; [contradiction|].
  destruct Hin as [<-|Hin].
  - specialize (Hs w). simpl in Hs.
    destruct (k w) as [[e|a] w1]; simpl in *; [now left|].
    left. destruct (deliver_frame w1 Hr) as [Hk _].
    eapply HP; eassumption.
  - destruct (k w) as [[e|a] w1]; simpl; [now right|].
    now apply IH.
Qed.

(** [Promise.all] over tame calls: the world stays within [R], now and
    while the calls left in flight complete; and a call whose answer
    makes a stable [P] hold has made it hold, or is left in flight. *)
Lemma promise_all__frame (tasks : list (Task T)) s :
  Forall (tame R Pre (T:=T)) tasks -> Pre (now s) ->
  exists extra,
    in_flight (snd (promise_all_ tasks s)) = in_flight s ++ extra /\
    R (now s) (now (snd (promise_all_ tasks s))) /\
    Forall (fun k => forall w, R w (k w)) extra /\
    forall (P : World -> Prop) t,
      (forall w1 w2, R w1 w2 -> P w1 -> P w2) ->
      In t tasks ->
      (forall w0, svc w0 = svc (now s) -> settles P (fst (t w0))) ->
      P (now (snd (promise_all_ tasks s))) \/
      exists k, In k extra /\ forall w1, P (k w1).
Proof.
  intros Ht Hpre. unfold promise_all_.
  destruct (start_all_frame Ht Hpre) as [Hsvc [Hk Hs]].
  pose proof (fun P t => @start_all_settles P tasks (now s) t Ht Hpre) as Hset.
  destruct (start_all tasks (now s)) as [sts w1]. simpl in *.
  pose proof (arrivals_frame Hs) as Ha.
  assert (Hlate : forall l, Forall (tame_arrival R (T:=T)) l ->
                    Forall (fun k => forall w, R w (k w)) (map (@late T) l)).
  { intros l Hf. apply Forall_map. eapply Forall_impl; [|exact Hf].
    intros x Hx w. apply Hx. }
  destruct (first_rejected sts); simpl.
  - exists (map (@late T) (arrivals sts)). split; [reflexivity|].
    split; [assumption|]. split; [now apply Hlate|].
    intros P t HP Hin Hst. right.
    destruct (Hset P t Hin Hst) as [st [Hin' Hst']].
    destruct st as [x|lat k]; [contradiction|].
    exists (late (lat, k)). split; [|exact Hst'].
    apply in_map. now apply arrivals_In.
  - destruct (deliver_frame w1 Ha) as [Hd Hr].
    pose proof (fun P x HP => @deliver_settles P (arrivals sts) w1 x HP Ha) as Hds.
    destruct (deliver (arrivals sts) w1) as [[r w2] rest]. simpl in *.
    exists (map (@late T) rest). split; [reflexivity|].
    split; [eapply R_trans; eassumption|]. split; [now apply Hlate|].
    intros P t HP Hin Hst.
    destruct (Hset P t Hin Hst) as [st [Hin' Hst']].
    destruct st as [x|lat k]; [contradiction|].
    destruct (Hds P (lat, k) HP (arrivals_In _ _ _ Hin') Hst') as [Hp|Hrest].
    + now left.
    + right. exists (late (lat, k)). split; [now apply in_map | exact Hst'].
Qed.






End Frame.

(** *** The two passes of a refresh *)

Lemma getProjectInfo_settles remote v0 id info w :
  same_tokens v0 (svc w) ->
  JS.Map.get (projectInfoCache (svc w)) id = None ->
  project_answer remote v0 id = Some info ->
  settles (has_project id info) (fst (getProjectInfo remote id w)).
Proof.
  intros Hw Hc Ha. rewrite <- (project_answer_same remote id Hw) in Ha.
  destruct (getProjectInfo_cases remote id w)
    as [[r [-> [Hn|Hf]]]|[_ [k [-> Hk]]]]; simpl.
  - contradiction.
  - unfold project_answer in Ha. rewrite Hf in Ha. discriminate.
  - intros w1. rewrite Hk, Ha. unfold has_project. simpl.
    apply map_get_set_same.
Qed.


Lemma evolves_same_tokens remote v0 w w' :
  evolves remote v0 w w' -> same_tokens v0 (svc w) -> same_tokens v0 (svc w').
Proof.
  intros H Hw. apply evolves_kept in H. destruct H as [H _].
  eapply same_tokens_trans; eassumption.
Qed.

(** The project pass: it always returns; every credentialed project that
    is not in the map and whose fetch succeeds is in the map when the
    pass returns, or its answer is still in flight. *)
Lemma loadAllProjectInfo_frame remote v0 s :
  same_tokens v0 (svc (now s)) ->
  exists s' extra,
    loadAllProjectInfo remote s = (inr tt, s') /\
    in_flight s' = in_flight s ++ extra /\
    evolves remote v0 (now s) (now s') /\
    Forall (fun k => forall w, evolves remote v0 w (k w)) extra /\
    categoryListCache (svc (now s')) = categoryListCache (svc (now s)) /\
    forall id info,
      In id (Credentials.getConfiguredProjectIds (svc (now s))) ->
      JS.Map.get (projectInfoCache (svc (now s))) id = None ->
      project_answer remote v0 id = Some info ->
      has_project id info (now s') \/
      exists k, In k extra /\ forall w1, has_project id info (k w1).
Proof.
  intros Hw. unfold loadAllProjectInfo, bind, get_svc.
  destruct (Credentials.getConfiguredProjectIds (svc (now s))) as [|i r] eqn:E.
  - exists s, []. rewrite List.app_nil_r. unfold ret.
    split; [reflexivity|]. split; [reflexivity|]. split; [constructor|].
    split; [constructor|]. split; [reflexivity|]. intros ? ? [].
  - set (tasks := map (getProjectInfo remote) (i :: r)).
    assert (Ht : Forall (tame (evolves remote v0)
                           (fun w => same_tokens v0 (svc w)) (T:=ProjectInfo)) tasks).
    { apply Forall_map, Forall_forall. intros; apply getProjectInfo_tame. }
    assert (Hc : Forall (tame (fun w w' => categoryListCache (svc w')
                                           = categoryListCache (svc w))
                           (fun _ => True) (T:=ProjectInfo)) tasks).
    { apply Forall_map, Forall_forall. intros; apply getProjectInfo_tame_categories. }
    destruct (@promise_all__frame (evolves remote v0)
                (fun w => same_tokens v0 (svc w))
                (@ev_refl remote v0) (@ev_trans remote v0)
                (@evolves_same_tokens remote v0) ProjectInfo tasks s Ht Hw)
      as [extra [Hin [Hev [Hex Hset]]]].
    destruct (@promise_all__frame
                (fun w w' => categoryListCache (svc w') = categoryListCache (svc w))
                (fun _ => True) (fun _ => eq_refl)
                (fun w1 w2 w3 H1 H2 => eq_trans H2 H1) (fun _ _ _ _ => I)
                ProjectInfo tasks s Hc I) as [_ [_ [Hcat _]]].
    assert (Hres : try_catch (promise_all_ tasks) (fun _ => ret tt) s
                   = (inr tt, snd (promise_all_ tasks s))).
    { unfold try_catch, ret. now destruct (promise_all_ tasks s) as [[e|[]] s']. }
    exists (snd (promise_all_ tasks s)), extra.
    split; [exact Hres|]. split; [assumption|]. split; [assumption|].
    split; [assumption|]. split; [assumption|].
    intros id info Hid Hnone Hans.
    apply (Hset (has_project id info) (getProjectInfo remote id)).
    + intros w1 w2. now apply (@evolves_has_project remote v0).
    + subst tasks. now apply in_map.
    + intros w0 H0. apply (@getProjectInfo_settles remote v0); try assumption; now rewrite H0.
Qed.







Lemma loadAllProjectInfo_run remote s :
  exists s', loadAllProjectInfo remote s = (inr tt, s') /\ kept (now s) (now s').
Proof.
  destruct (loadAllProjectInfo_frame remote s (same_tokens_refl (svc (now s))))
    as [s' [extra [E [_ [Hev _]]]]].
  exists s'. split; [exact E|]. eapply evolves_kept; exact Hev.
Qed.

(** ** One fetch of the search *)

Lemma searchWithSingleKeyword_run remote pid q page limit s :
  let l := match menu_of remote (svc (now s)) pid with
           | Some menuData => search_menu q menuData
           | None => []
           end in
  exists s',
    searchWithSingleKeyword remote pid q page limit s
      = (inr (mkSearchPage (List.length l) l), s') /\
    svc (now s') = svc (now s) /\
    in_flight s' = in_flight s /\
    requests (now s') =
      requests (now s) ++
      (if JS.truthy (token_for (svc (now s)) pid)
       then [mkRequest GET ListMenu (ByProject pid) (token_for (svc (now s)) pid)]
       else []).
Proof.
  unfold searchWithSingleKeyword, try_catch, bind, await, getInterfaceMenu,
    then_, menu_of, ret.
  destruct (request_cases remote (list_menu remote pid) ListMenu (ByProject pid)
              pid GET (now s)) as [[Ht ->]|[Ht [k [-> Hk]]]]; rewrite Ht.
  - eexists. repeat split. simpl. now rewrite List.app_nil_r.
  - rewrite Hk.
    destruct (list_menu remote pid _) as [body| |]; simpl;
      try (eexists; repeat split; fail).
    destruct (errcode body =? 0)%Z; simpl; eexists; repeat split.
Qed.

Lemma joined_project_name project item :
  joined project item (set_project_name item (project_name project)).
Proof. repeat split. Qed.

Lemma joined_cat_name project item r name :
  joined project item r -> joined project item (set_cat_name r name).
Proof. unfold joined. simpl. tauto. Qed.

Lemma enrich_safe remote project pid item :
  safe (joined project item) (enrich remote project pid item).
Proof.
  intros w. unfold enrich.
  destruct (JS.truthy (String_of_catid (item_catid item)));
    [|split; [apply joined_project_name | apply kept_refl]].
  unfold catch_, then_ at 1, getCategoryList.
  destruct (JS.Map.get (categoryListCache (svc w)) pid) as [cached|].
  - split; [|apply kept_refl].
    destruct (find _ cached); [apply joined_cat_name|]; apply joined_project_name.
  - unfold then_.
    destruct (request_cases remote (cat_menu remote pid) GetCatMenu (ByProject pid)
                pid GET w) as [[_ ->]|[_ [k [-> Hk]]]].
    + split; [apply joined_project_name | apply kept_refl].
    + split; [now apply kept_log|].
      intros w1. rewrite Hk.
      destruct (cat_menu remote pid _) as [body| |]; simpl;
        try (do 2 eexists; split; [reflexivity|];
             split; [apply joined_project_name | apply kept_refl]).
      destruct (negb (errcode body =? 0)%Z); simpl;
        do 2 eexists; (split; [reflexivity|]).
      * split; [apply joined_project_name | apply kept_refl].
      * split; [|apply kept_set_categoryListCache].
        destruct (find _ (data body)); [apply joined_cat_name|];
          apply joined_project_name.
Qed.

(** *** [Promise.all] over safe calls *)

Lemma start_all_safe A X (R : X -> A -> Prop) (f : X -> Task A) xs w :
  (forall x, safe (R x) (f x)) ->
  kept w (snd (start_all (map f xs) w)) /\
  Forall2 (fun x st => safe_started (R x) st) xs (fst (start_all (map f xs) w)) /\
  first_rejected (fst (start_all (map f xs) w)) = None.
Proof.
  intros Hf. revert w. induction xs as [|x r IH]; intros w; simpl.
  - split; [apply kept_refl|]. split; [constructor | reflexivity].
  - pose proof (Hf x w) as Hx. destruct (f x w) as [st w1].
    specialize (IH w1). destruct (start_all (map f r) w1) as [sts w2].
    simpl in *. destruct IH as [Hk [Hs Hn]].
    destruct st as [[e|a]|lat k]; [contradiction| |].
    + destruct Hx as [Ha Hk1].
      split; [eapply kept_trans; eassumption|]. split; [|assumption].
      constructor; assumption.
    + destruct Hx as [Hk1 Hc].
      split; [eapply kept_trans; eassumption|]. split; [|assumption].
      constructor; assumption.
Qed.

Lemma finish_all_safe A X (R : X -> A -> Prop) xs (sts : list (Started A)) w :
  Forall2 (fun x st => safe_started (R x) st) xs sts ->
  exists rs w', finish_all sts w = (inr rs, w', []) /\
                Forall2 R xs rs /\ kept w w'.
Proof.
  intros H. revert w. induction H as [|x st xs sts Hx Hr IH]; intros w; simpl.
  - exists [], w. split; [reflexivity|]. split; [constructor | apply kept_refl].
  - assert (Hst : exists a w1,
               match st with Settled x0 => (x0, w) | Awaiting _ k => k w end
               = (inr a, w1) /\ R x a /\ kept w w1).
    { destruct st as [[e|a]|lat k]; simpl in Hx; [contradiction| |].
      - exists a, w. split; [reflexivity|]. split; [assumption | apply kept_refl].
      - apply Hx. }
    destruct Hst as [a [w1 [-> [Ha Hk]]]].
    destruct (IH w1) as [rs [w2 [-> [Hrs Hk2]]]].
    exists (a :: rs), w2. split; [reflexivity|].
    split; [constructor; assumption | eapply kept_trans; eassumption].
Qed.

Lemma promise_all_same_safe A X (R : X -> A -> Prop) (f : X -> Task A) xs s :
  (forall x, safe (R x) (f x)) ->
  exists rs s',
    promise_all_same (map f xs) s = (inr rs, s') /\
    Forall2 R xs rs /\ kept (now s) (now s') /\ in_flight s' = in_flight s.
Proof.
  intros Hf. unfold promise_all_same.
  destruct (start_all_safe R f xs (now s) Hf) as [Hk [Hs Hn]].
  destruct (start_all (map f xs) (now s)) as [sts w1]. simpl in *.
  rewrite Hn.
  destruct (@finish_all_safe _ _ R _ _ w1 Hs) as [rs [w2 [-> [Hrs Hk2]]]].
  exists rs. eexists. split; [reflexivity|]. simpl.
  split; [assumption|]. split; [eapply kept_trans; eassumption|].
  apply List.app_nil_r.
Qed.

Lemma Forall2_map_left A B C (g : A -> B) (P : B -> C -> Prop) l l' :
  Forall2 (fun a c => P (g a) c) l l' -> Forall2 P (map g l) l'.
Proof. induction 1; simpl; constructor; assumption. Qed.

Lemma search_one_run remote project page limit n p t all s :
  let f := (project, query_of n p t) in
  exists rs s',
    search_one remote project (fetch_project f) page limit n p t all s
      = (inr (all ++ rs), s') /\
    Forall2 (fun x r => joined (fst x) (snd x) r)
            (fetched_by remote (svc (now s)) f) rs /\
    same_tokens (svc (now s)) (svc (now s')) /\
    in_flight s' = in_flight s /\
    menu_requests (now s') = menu_requests (now s) ++ menu_request_of (svc (now s)) f.
Proof.
  intros f. unfold search_one, bind at 1.
  destruct (searchWithSingleKeyword_run remote (fetch_project f)
              (query_of n p t) page limit s) as [s1 [-> [Hv [Hi Hr]]]].
  simpl results. unfold bind.
  destruct (promise_all_same_safe (joined project)
              (enrich remote project (fetch_project f))
              (match menu_of remote (svc (now s)) (fetch_project f) with
               | Some menuData => search_menu (query_of n p t) menuData
               | None => []
               end) s1 (enrich_safe remote project (fetch_project f)))
    as [rs [s2 [-> [Hrs [[Ht Hm] Hi2]]]]].
  exists rs, s2. split; [reflexivity|].
  split.
  { unfold fetched_by, fetched. simpl snd. simpl fst.
    fold f. apply Forall2_map_left. simpl. exact Hrs. }
  rewrite Hv in Ht. split; [assumption|]. split; [congruence|].
  rewrite Hm. unfold menu_requests. rewrite Hr, filter_app.
  unfold menu_request_of. f_equal.
  destruct (JS.truthy _); reflexivity.
Qed.

(** ** The loops of the search *)

Lemma for_of_round X A (J : X -> ApiItem -> Prop) v0
  (body : A -> list ApiItem -> M (list ApiItem)) F G :
  round J v0 body F G ->
  round J v0 (fun l => for_of l body)
    (fun l => List.concat (map F l)) (fun l => List.concat (map G l)).
Proof.
  intros Hb l. induction l as [|x r IH]; intros acc s Ht; simpl.
  - exists [], s. unfold ret. rewrite !List.app_nil_r.
    repeat split; try constructor; apply Ht.
  - unfold bind.
    destruct (Hb x acc s Ht) as [rs [s1 [-> [Hrs [Ht1 [Hi1 Hm1]]]]]].
    destruct (IH (acc ++ rs) s1 Ht1) as [rs2 [s2 [-> [Hrs2 [Ht2 [Hi2 Hm2]]]]]].
    exists (rs ++ rs2), s2. rewrite List.app_assoc.
    split; [reflexivity|]. split; [now apply Forall2_app|].
    split; [assumption|]. split; [congruence|].
    rewrite Hm2, Hm1. now rewrite List.app_assoc.
Qed.

Lemma menu_request_of_same v v' f :
  same_tokens v v' -> menu_request_of v' f = menu_request_of v f.
Proof. intros H. unfold menu_request_of. now rewrite (token_for_same _ H). Qed.

Lemma fetched_by_same remote v v' f :
  same_tokens v v' -> fetched_by remote v' f = fetched_by remote v f.
Proof. intros H. unfold fetched_by. now rewrite (fetched_same remote f H). Qed.

Lemma search_one_round remote v0 project page limit n p :
  round (fun x r => joined (fst x) (snd x) r) v0
    (fun t => search_one remote project
                (JS.String_of_number (project__id project)) page limit n p t)
    (fun t => fetched_by remote v0 (project, query_of n p t))
    (fun t => menu_request_of v0 (project, query_of n p t)).
Proof.
  intros t acc s Ht.
  destruct (search_one_run remote project page limit n p t acc s)
    as [rs [s' [E [Hrs [Ht' [Hi Hm]]]]]].
  exists rs, s'. split; [exact E|].
  rewrite (fetched_by_same remote _ Ht) in Hrs.
  rewrite (menu_request_of_same _ Ht) in Hm.
  split; [assumption|]. split; [eapply same_tokens_trans; eassumption|].
  split; assumption.
Qed.

Lemma concat_map_flat_map A B C (H : B -> list C) (g : A -> list B) l :
  List.concat (map H (flat_map g l))
  = List.concat (map (fun x => List.concat (map H (g x))) l).
Proof.
  induction l as [|x r IH]; simpl; [reflexivity|].
  now rewrite map_app, concat_app, IH.
Qed.

(** The four nested loops visit the fetches of the plan, in order. *)
Lemma loops_plan C (H : Fetch -> list C) options projects :
  List.concat (map (fun project =>
    List.concat (map (fun n =>
      List.concat (map (fun p =>
        List.concat (map (fun t => H (project, query_of n p t))
          (or_blank (keywords_of (tagKeyword options)))))
        (or_blank (keywords_of (pathKeyword options)))))
      (or_blank (keywords_of (nameKeyword options))))) projects)
  = List.concat (map H (plan options projects)).
Proof.
  unfold plan, combinations. rewrite concat_map_flat_map.
  f_equal. apply map_ext. intros project.
  rewrite map_map. rewrite concat_map_flat_map.
  f_equal. apply map_ext. intros n.
  rewrite concat_map_flat_map.
  f_equal. apply map_ext. intros p.
  now rewrite map_map.
Qed.

(** ** The search as a whole *)

Lemma slice0_nil A e : JS.slice0 (@nil A) e = [].
Proof. unfold JS.slice0. apply firstn_nil. Qed.

Lemma searchApis_run remote options s :
  let fs := plan options (candidates remote options s) in
  let lim := or_default (limit options) 20%Z in
  exists all s',
    searchApis remote options s
      = (inr (mkSearchPage (List.length (deduplicateResults all))
                (JS.slice0 (deduplicateResults all) lim)), s') /\
    Forall2 (fun x r => joined (fst x) (snd x) r)
      (List.concat (map (fetched_by remote (svc (now s))) fs)) all /\
    same_tokens (svc (now s)) (svc (now s')) /\
    menu_requests (now s')
      = menu_requests (now s)
        ++ List.concat (map (menu_request_of (svc (now s))) fs).
Proof.
  intros fs lim. subst fs. unfold candidates, searchApis, try_catch, bind at 1.
  destruct (loadAllProjectInfo_run remote s) as [s1 [-> [Ht Hm]]].
  simpl snd. unfold bind at 1, get_svc.
  set (projects := select_projects options _).
  assert (Hround :=
    for_of_round (fun project : ProjectInfo =>
      for_of_round (fun n : string =>
        for_of_round (fun p : string =>
          for_of_round
            (@search_one_round remote (svc (now s)) project
               (or_default (page options) 1%Z) (or_default (limit options) 20%Z)
               n p)
            (or_blank (keywords_of (tagKeyword options))))
          (or_blank (keywords_of (pathKeyword options))))
        (or_blank (keywords_of (nameKeyword options))))
      projects [] s1 Ht).
  destruct Hround as [all [s2 [E [Hall [Ht2 [Hi2 Hm2]]]]]].
  rewrite loops_plan in Hall, Hm2. simpl app in E.
  destruct projects as [|p0 ps] eqn:Ep.
  - exists [], s1. simpl. unfold ret. rewrite slice0_nil. split; [reflexivity|].
    split; [constructor|]. split; [assumption|]. now rewrite List.app_nil_r.
  - exists all, s2. unfold bind.
    match goal with
    | |- context [for_of (p0 :: ps) ?b [] s1] =>
        assert (E' : for_of (p0 :: ps) b [] s1 = (inr all, s2)) by exact E;
        rewrite E'
    end.
    unfold ret.
    split; [reflexivity|]. split; [assumption|]. split; [assumption|].
    now rewrite Hm2, Hm.
Qed.

(** ** What a search returns *)

Lemma joined_ids remote v fs all :
  Forall2 (fun x r => joined (fst x) (snd x) r)
    (List.concat (map (fetched_by remote v) fs)) all ->
  ids all = all_ids remote v fs.
Proof.
  intros H. unfold all_ids.
  assert (E : map (fun x => item__id (snd x))
                (List.concat (map (fetched_by remote v) fs)) = ids all).
  { induction H as [|x r l l' [Hid _] _ IH]; simpl; [reflexivity|].
    now rewrite IH, Hid. }
  rewrite <- E. rewrite concat_map, map_map. f_equal.
  apply map_ext. intros f. unfold fetched_by, ids. now rewrite map_map.
Qed.

(** The ids a search returns: the first occurrences among the ids of all
    fetches, cut by [slice(0, limit)]. *)
Lemma searchApis_ids remote options s :
  let dd := first_occurrences
              (all_ids remote (svc (now s))
                 (plan options (candidates remote options s))) in
  exists page s',
    searchApis remote options s = (inr page, s') /\
    total page = List.length dd /\
    ids (results page) = JS.slice0 dd (or_default (limit options) 20%Z).
Proof.
  destruct (searchApis_run remote options s) as [all [s' [E [Hall _]]]].
  apply joined_ids in Hall.
  eexists. exists s'. split; [exact E|]. simpl.
  rewrite slice0_ids, deduplicateResults_ids, Hall.
  split; [|reflexivity].
  rewrite <- Hall, <- deduplicateResults_ids. unfold ids. now rewrite length_map.
Qed.

Lemma fetched_descending remote v f : descending (ids (fetched remote v f)).
Proof.
  unfold fetched. destruct (menu_of remote v (fetch_project f)).
  - apply sort_by_id_desc_descending.
  - constructor.
Qed.

Lemma slice0_firstn A (l : list A) e : exists n, JS.slice0 l e = firstn n l.
Proof. unfold JS.slice0. eexists. reflexivity. Qed.

(** C1 (as amended).  Every search returns normally.  The ids of the
    returned list are the ids of the per-project, per-keyword-combination
    result sets, concatenated in the order of the loops, with only the
    first occurrence of each id kept, cut to the limit; so no id occurs
    twice.  Each result set is in descending order of id; the returned
    list is not sorted again, and is in descending order when the search
    makes at most one fetch. *)
Theorem search_dedup_first_wins remote options s :
  let v := svc (now s) in
  let fs := plan options (candidates remote options s) in
  exists page s',
    searchApis remote options s = (inr page, s') /\
    ids (results page)
      = JS.slice0 (first_occurrences (all_ids remote v fs))
                  (or_default (limit options) 20%Z) /\
    NoDup (ids (results page)) /\
    Forall (fun f => descending (ids (fetched remote v f))) fs /\
    ((List.length fs <= 1)%nat -> descending (ids (results page))).
Proof.
  intros v fs.
  destruct (searchApis_ids remote options s) as [page [s' [E [_ Hids]]]].
  exists page, s'. split; [exact E|]. split; [exact Hids|].
  fold v fs in Hids.
  destruct (slice0_firstn (first_occurrences (all_ids remote v fs))
              (or_default (limit options) 20%Z)) as [n Hn].
  rewrite Hids, Hn.
  split; [apply NoDup_firstn, first_occurrences_NoDup|].
  split; [apply Forall_forall; intros; apply fetched_descending|].
  intros Hlen. apply descending_firstn, first_occurrences_descending.
  unfold all_ids. destruct fs as [|f [|g r]]; simpl in *; [constructor| |lia].
  rewrite List.app_nil_r. apply fetched_descending.
Qed.

Lemma search_dedup_first_wins_witness :
  (List.length (plan (Demo.by_name ["login"] None)
                  (candidates Demo.remote (Demo.by_name ["login"] None)
                     (at_rest (Credentials.new "http://yapi" "10:abc")))) <= 1)%nat /\
  exists page s',
    searchApis Demo.remote (Demo.by_name ["login"] None)
      (at_rest (Credentials.new "http://yapi" "10:abc")) = (inr page, s') /\
    descending (ids (results page)).
Proof.
  split; [vm_compute; lia|].
  destruct (search_dedup_first_wins Demo.remote (Demo.by_name ["login"] None)
              (at_rest (Credentials.new "http://yapi" "10:abc")))
    as [page [s' [E [_ [_ [_ H]]]]]].
  exists page, s'. split; [exact E|]. apply H. vm_compute; lia.
Defined.

(** C1 as stated fails: with the name keywords [user] and [login] the
    search of the demo project returns the ids 7, 5, 9, which is not the
    descending order 9, 7, 5; the id 5, found by both keywords, stays
    where the first fetch put it. *)
Lemma search_not_sorted_counterexample :
  exists page s',
    searchApis Demo.remote (Demo.by_name ["user"; "login"] None)
      (at_rest (Credentials.new "http://yapi" "10:abc")) = (inr page, s') /\
    ids (results page) = [7; 5; 9]%Z /\
    ~ descending (ids (results page)).
Proof.
  eexists. eexists. split; [vm_compute; reflexivity|].
  split; [reflexivity|]. simpl. intros H.
  inversion H as [|? ? H1 _]; subst. inversion H1 as [|? ? _ H2]; subst.
  inversion H2; subst. lia.
Qed.

(** C5 (as amended).  The returned list is the deduplicated result list
    cut by [slice(0, limit)], and the returned total is the length of the
    deduplicated list before the cut, so the list is never longer than
    the total.  For a limit that is not negative the list is the first
    [limit] entries of the deduplicated list, at most [limit] entries;
    for a negative limit it is the deduplicated list without its last
    [-limit] entries. *)
Theorem search_total_before_truncation remote options s :
  let lim := or_default (limit options) 20%Z in
  exists page s' deduplicated,
    searchApis remote options s = (inr page, s') /\
    results page = JS.slice0 deduplicated lim /\
    total page = List.length deduplicated /\
    ids deduplicated
      = first_occurrences
          (all_ids remote (svc (now s))
             (plan options (candidates remote options s))) /\
    (List.length (results page) <= total page)%nat /\
    ((0 <= lim)%Z ->
     results page = firstn (Z.to_nat lim) deduplicated /\
     (List.length (results page) <= Z.to_nat lim)%nat) /\
    ((lim < 0)%Z ->
     results page
     = firstn (List.length deduplicated - Z.to_nat (- lim)) deduplicated).
Proof.
  intros lim.
  destruct (searchApis_run remote options s) as [all [s' [E [Hall _]]]].
  apply joined_ids in Hall.
  eexists. exists s', (deduplicateResults all). split; [exact E|]. simpl.
  split; [reflexivity|]. split; [reflexivity|].
  split; [now rewrite deduplicateResults_ids, Hall|].
  fold lim. destruct (slice0_firstn (deduplicateResults all) lim) as [n Hn].
  split; [rewrite Hn, length_firstn; lia|]. split.
  - intros Hlim. rewrite slice0_nonneg by assumption.
    split; [reflexivity|]. rewrite length_firstn. lia.
  - intros Hlim. now apply slice0_neg.
Qed.

Lemma search_total_before_truncation_witness :
  (exists page s' deduplicated,
     searchApis Demo.remote (Demo.everything (Some 2%Z)) (at_rest Demo.service)
       = (inr page, s') /\
     total page = List.length deduplicated /\
     results page = firstn 2 deduplicated /\
     (List.length (results page) <= 2)%nat) /\
  (exists page s' deduplicated,
     searchApis Demo.remote (Demo.everything (Some (-1)%Z)) (at_rest Demo.service)
       = (inr page, s') /\
     total page = List.length deduplicated /\
     results page = firstn (List.length deduplicated - 1) deduplicated).
Proof.
  split.
  - destruct (search_total_before_truncation Demo.remote
                (Demo.everything (Some 2%Z)) (at_rest Demo.service))
      as [page [s' [dd [E [_ [Ht [_ [_ [H _]]]]]]]]].
    exists page, s', dd. split; [exact E|]. split; [exact Ht|].
    apply H. simpl. lia.
  - destruct (search_total_before_truncation Demo.remote
                (Demo.everything (Some (-1)%Z)) (at_rest Demo.service))
      as [page [s' [dd [E [_ [Ht [_ [_ [_ H]]]]]]]]].
    exists page, s', dd. split; [exact E|]. split; [exact Ht|].
    apply H. simpl. lia.
Defined.

(** C5 as stated fails for a negative limit: with the limit -1 the four
    deduplicated results of the demo projects give a list of three
    entries, which is not at most -1 entries. *)
Lemma search_negative_limit_counterexample :
  exists page s',
    searchApis Demo.remote (Demo.everything (Some (-1)%Z)) (at_rest Demo.service)
      = (inr page, s') /\
    total page = 4%nat /\
    ids (results page) = [9; 7; 5]%Z /\
    ~ (Z.of_nat (List.length (results page)) <= -1)%Z.
Proof.
  eexists. eexists. split; [vm_compute; reflexivity|].
  split; [reflexivity|]. split; [reflexivity|]. simpl. lia.
Qed.

(** The total can exceed the length of the list: four interfaces, two
    returned. *)
Example search_total_exceeds_list :
  exists page s',
    searchApis Demo.remote (Demo.everything (Some 2%Z)) (at_rest Demo.service)
      = (inr page, s') /\
    total page = 4%nat /\ ids (results page) = [9; 7]%Z.
Proof. eexists. eexists. split; [vm_compute; reflexivity|]. split; reflexivity. Qed.

(** C9 (as amended).  The page number has no effect: two searches that
    differ only in it return the same result and leave the same state.
    Whatever the page, the list holds the deduplicated ids cut by
    [slice(0, limit)]: for a limit that is not negative, the first
    [limit] of them; for a negative limit, all of them but the last
    [-limit]. *)
Theorem search_ignores_page remote options p1 p2 s :
  let lim := or_default (limit options) 20%Z in
  let deduplicated :=
    first_occurrences
      (all_ids remote (svc (now s))
         (plan options (candidates remote options s))) in
  searchApis remote (with_page options p1) s
    = searchApis remote (with_page options p2) s /\
  exists page s',
    searchApis remote (with_page options p1) s = (inr page, s') /\
    ids (results page) = JS.slice0 deduplicated lim /\
    ((0 <= lim)%Z -> ids (results page) = firstn (Z.to_nat lim) deduplicated) /\
    ((lim < 0)%Z ->
     ids (results page)
     = firstn (List.length deduplicated - Z.to_nat (- lim)) deduplicated).
Proof.
  intros lim deduplicated. split; [reflexivity|].
  destruct (searchApis_ids remote (with_page options p1) s)
    as [page [s' [E [_ Hids]]]].
  exists page, s'. split; [exact E|].
  split; [exact Hids|]. split.
  - intros Hlim. rewrite Hids. simpl limit. now apply slice0_nonneg.
  - intros Hlim. rewrite Hids. simpl limit. now apply slice0_neg.
Qed.

Lemma search_ignores_page_witness :
  let options := Demo.everything (Some 2%Z) in
  let options' := Demo.everything (Some (-3)%Z) in
  searchApis Demo.remote (with_page options (Some 1%Z)) (at_rest Demo.service)
    = searchApis Demo.remote (with_page options (Some 7%Z)) (at_rest Demo.service) /\
  (exists page s',
     searchApis Demo.remote (with_page options (Some 1%Z)) (at_rest Demo.service)
       = (inr page, s') /\
     ids (results page)
       = firstn 2
           (first_occurrences
              (all_ids Demo.remote Demo.service
                 (plan options
                    (candidates Demo.remote options (at_rest Demo.service)))))) /\
  (exists page s',
     searchApis Demo.remote (with_page options' (Some 1%Z)) (at_rest Demo.service)
       = (inr page, s') /\
     ids (results page) = [9]%Z).
Proof.
  intros options options'.
  destruct (search_ignores_page Demo.remote options (Some 1%Z) (Some 7%Z)
              (at_rest Demo.service)) as [Heq [page [s' [E [_ [H _]]]]]].
  split; [exact Heq|]. split.
  - exists page, s'. split; [exact E|]. apply H. simpl. lia.
  - destruct (search_ignores_page Demo.remote options' (Some 1%Z) (Some 7%Z)
                (at_rest Demo.service)) as [_ [page' [s'' [E' [_ [_ H']]]]]].
    exists page', s''. split; [exact E'|].
    rewrite H' by (simpl; lia). vm_compute. reflexivity.
Defined.

(** C9 as stated fails for a negative limit: with the limit -3 the list
    is not the first [limit] entries of the four deduplicated results
    (there is no such entry) but their first one. *)
Lemma search_page_negative_limit_counterexample :
  let options := Demo.everything (Some (-3)%Z) in
  let deduplicated :=
    first_occurrences
      (all_ids Demo.remote Demo.service
         (plan options (candidates Demo.remote options (at_rest Demo.service)))) in
  exists page s',
    searchApis Demo.remote (with_page options (Some 2%Z)) (at_rest Demo.service)
      = (inr page, s') /\
    deduplicated = [9; 7; 5; 12]%Z /\
    ids (results page) = [9]%Z /\
    ids (results page) <> firstn (Z.to_nat (-3)) deduplicated.
Proof.
  intros options deduplicated.
  eexists. eexists. split; [vm_compute; reflexivity|].
  split; [vm_compute; reflexivity|]. split; [reflexivity|].
  vm_compute. discriminate.
Qed.

Lemma all_ids_successes remote v fs :
  all_ids remote v (filter (fetch_succeeds remote v) fs) = all_ids remote v fs.
Proof.
  unfold all_ids. induction fs as [|f r IH]; simpl; [reflexivity|].
  unfold fetch_succeeds at 1, fetched at 2.
  destruct (menu_of remote v (fetch_project f)) eqn:E; simpl.
  - unfold fetched at 1. rewrite E. now rewrite IH.
  - exact IH.
Qed.

(** C4 (as amended).  A fetch whose menu cannot be had yields the empty
    page with total 0 and throws nothing.  The search as a whole always
    returns a page: its total and its list are those of the fetches whose
    menu could be had, the others count for nothing.  An exception in the
    tag filter of a fetch is caught as well, but that fetch then
    contributes its interfaces without the tag filter, not the empty
    list. *)
Theorem search_isolates_failures remote options s :
  let v := svc (now s) in
  let fs := plan options (candidates remote options s) in
  let successes := filter (fetch_succeeds remote v) fs in
  (forall f page limit s0,
     fetch_succeeds remote (svc (now s0)) f = false ->
     exists s1,
       searchWithSingleKeyword remote (fetch_project f) (snd f) page limit s0
       = (inr (mkSearchPage 0 []), s1)) /\
  (exists page s',
    searchApis remote options s = (inr page, s') /\
    total page = List.length (first_occurrences (all_ids remote v successes)) /\
    ids (results page)
      = JS.slice0 (first_occurrences (all_ids remote v successes))
                  (or_default (limit options) 20%Z)) /\
  (forall q tag tags menuData,
     q_tag q = Some (tag :: tags) ->
     try_filter_by_tag (tag :: tags)
       (filter_by_path q (filter_by_name q (flatten_menu menuData))) = None ->
     search_menu q menuData
     = sort_by_id_desc (filter_by_path q (filter_by_name q (flatten_menu menuData)))).
Proof.
  intros v fs successes. split; [|split].
  - intros f page limit s0 Hf.
    destruct (searchWithSingleKeyword_run remote (fetch_project f) (snd f)
                page limit s0) as [s1 [E _]].
    exists s1. rewrite E. unfold fetch_succeeds in Hf.
    destruct (menu_of remote (svc (now s0)) (fetch_project f)); [discriminate|].
    reflexivity.
  - subst successes. rewrite all_ids_successes. apply searchApis_ids.
  - intros q tag tags menuData Hq Hthrow.
    unfold search_menu, filter_by_tag. rewrite Hq. cbv iota beta.
    now rewrite Hthrow.
Qed.

Lemma search_isolates_failures_witness :
  let f := (mkProjectInfo 40 "Late" EmptyString "/" 1,
            query_of "login" EmptyString EmptyString) in
  fetch_succeeds Demo.remote Demo.service3 f = false /\
  exists s1,
    searchWithSingleKeyword Demo.remote (fetch_project f) (snd f) 1%Z 20%Z
      (at_rest Demo.service3)
    = (inr (mkSearchPage 0 []), s1).
Proof.
  split; [reflexivity|].
  apply (proj1 (search_isolates_failures Demo.remote (Demo.everything None)
                  (at_rest Demo.service3))).
  reflexivity.
Defined.

(** C4 as stated fails for a filtering exception: project 50 has an
    interface with a tag that [String] cannot convert; the tag filter of
    the search for the tag [alpha] throws, and the search returns both
    interfaces of the project, although neither has that tag. *)
Lemma search_filter_exception_counterexample :
  try_filter_by_tag ["alpha"] (flatten_menu Demo.odd_menu) = None /\
  exists page s',
    searchApis Demo.remote (Demo.by_tag "alpha")
      (at_rest (Credentials.new "http://yapi" "50:t")) = (inr page, s') /\
    total page = 2%nat /\
    ids (results page) = [2; 1]%Z /\
    results page <> [].
Proof.
  split; [reflexivity|].
  eexists. eexists. split; [vm_compute; reflexivity|].
  split; [reflexivity|]. split; [reflexivity|]. discriminate.
Qed.

(** Project 40 is a candidate whose menu cannot be fetched: the search
    returns the interfaces of projects 10 and 20. *)
Example search_degrades :
  exists page s',
    searchApis Demo.remote (Demo.everything None) (at_rest Demo.service3)
      = (inr page, s') /\
    map project__id (candidates Demo.remote (Demo.everything None)
                       (at_rest Demo.service3)) = [10; 20; 40]%Z /\
    total page = 4%nat /\ ids (results page) = [9; 7; 5; 12]%Z.
Proof.
  eexists. eexists. split; [vm_compute; reflexivity|].
  split; [vm_compute; reflexivity|]. split; reflexivity.
Qed.

Lemma search_menu_no_filter menuData :
  search_menu (mkQueryParams None None None) menuData
  = sort_by_id_desc (flatten_menu menuData).
Proof. reflexivity. Qed.

Lemma sort_by_id_desc_perm items : Permutation (sort_by_id_desc items) items.
Proof. apply sort_desc_perm. Qed.

(** C10 (as amended).  When no name, path or tag keyword is given, the
    plan of the search is one fetch per candidate project, with no
    filter; one [list_menu] request is sent for each candidate project
    that has a token, and no other; every interface of the flattened
    menu of every candidate project is among the deduplicated results,
    which the total counts and of which the list is the cut by
    [slice(0, limit)]: the first [limit] of them, at most [limit], for a
    limit that is not negative, and all of them but the last [-limit]
    for a negative limit. *)
Theorem search_without_keywords remote options s :
  keywords_of (nameKeyword options) = [] ->
  keywords_of (pathKeyword options) = [] ->
  keywords_of (tagKeyword options) = [] ->
  let v := svc (now s) in
  let lim := or_default (limit options) 20%Z in
  let projects := candidates remote options s in
  let no_filter := mkQueryParams None None None in
  let everything :=
    first_occurrences (all_ids remote v (map (fun p => (p, no_filter)) projects)) in
  plan options projects = map (fun p => (p, no_filter)) projects /\
  (forall project menuData item,
     In project projects ->
     menu_of remote v (JS.String_of_number (project__id project)) = Some menuData ->
     In item (flatten_menu menuData) ->
     In (item__id item) everything) /\
  exists page s',
    searchApis remote options s = (inr page, s') /\
    total page = List.length everything /\
    ids (results page) = JS.slice0 everything lim /\
    ((0 <= lim)%Z ->
     ids (results page) = firstn (Z.to_nat lim) everything /\
     (List.length (results page) <= Z.to_nat lim)%nat) /\
    ((lim < 0)%Z ->
     ids (results page)
     = firstn (List.length everything - Z.to_nat (- lim)) everything) /\
    menu_requests (now s')
      = menu_requests (now s)
        ++ List.concat (map (fun p => menu_request_of v (p, no_filter)) projects).
Proof.
  intros Hn Hp Ht v lim projects no_filter everything.
  assert (Hplan : plan options projects = map (fun p => (p, no_filter)) projects).
  { unfold plan, combinations. rewrite Hn, Hp, Ht. simpl.
    induction projects as [|p r IH]; simpl; [reflexivity|]. now rewrite IH. }
  split; [exact Hplan|]. split.
  - intros project menuData item Hin Hmenu Hitem.
    subst everything. apply first_occurrences_In.
    unfold all_ids. apply in_concat.
    exists (ids (fetched remote v (project, no_filter))). split.
    + rewrite map_map. apply in_map_iff. exists project. now split.
    + unfold fetched, fetch_project. simpl fst. simpl snd. rewrite Hmenu.
      rewrite search_menu_no_filter. unfold ids. apply in_map.
      apply (Permutation_in _ (Permutation_sym (sort_by_id_desc_perm _))).
      exact Hitem.
  - destruct (searchApis_run remote options s) as [all [s' [E [Hall [_ Hm]]]]].
    fold projects in Hall, Hm. rewrite Hplan in Hall, Hm. fold v in Hall, Hm.
    apply joined_ids in Hall.
    eexists. exists s'. split; [exact E|]. simpl.
    assert (Hids : ids (JS.slice0 (deduplicateResults all)
                          (or_default (limit options) 20%Z))
                   = JS.slice0 everything lim).
    { rewrite slice0_ids, deduplicateResults_ids, Hall. reflexivity. }
    rewrite Hids.
    split; [|split; [reflexivity|split; [|split]]].
    + subst everything. rewrite <- Hall, <- deduplicateResults_ids.
      unfold ids. now rewrite length_map.
    + intros Hlim. rewrite slice0_nonneg by exact Hlim.
      split; [reflexivity|].
      fold lim. rewrite (slice0_nonneg _ Hlim), length_firstn. lia.
    + intros Hlim. now apply slice0_neg.
    + rewrite Hm. now rewrite map_map.
Qed.

Lemma search_without_keywords_witness :
  let options := Demo.everything (Some 2%Z) in
  let options' := Demo.everything (Some (-3)%Z) in
  let s := at_rest Demo.service in
  plan options (candidates Demo.remote options s)
    = map (fun p => (p, mkQueryParams None None None))
          (candidates Demo.remote options s) /\
  (exists page s',
     searchApis Demo.remote options s = (inr page, s') /\
     total page = 4%nat /\
     ids (results page) = [9; 7]%Z /\
     (List.length (results page) <= 2)%nat /\
     map req_payload (menu_requests (now s')) = [ByProject "10"; ByProject "20"]) /\
  (exists page s',
     searchApis Demo.remote options' s = (inr page, s') /\
     total page = 4%nat /\
     ids (results page) = [9]%Z).
Proof.
  intros options options' s.
  destruct (@search_without_keywords Demo.remote options s
              eq_refl eq_refl eq_refl)
    as [Hplan [_ [page [s' [E [Ht [_ [Hi [_ Hm]]]]]]]]].
  split; [exact Hplan|]. split.
  - exists page, s'. split; [exact E|].
    split; [rewrite Ht; vm_compute; reflexivity|].
    destruct (Hi ltac:(simpl; lia)) as [Hi1 Hi2].
    split; [rewrite Hi1; vm_compute; reflexivity|].
    split; [exact Hi2|].
    rewrite Hm. vm_compute. reflexivity.
  - destruct (@search_without_keywords Demo.remote options' s
                eq_refl eq_refl eq_refl)
      as [_ [_ [page' [s'' [E' [Ht' [_ [_ [Hn _]]]]]]]]].
    exists page', s''. split; [exact E'|].
    split; [rewrite Ht'; vm_compute; reflexivity|].
    rewrite (Hn ltac:(simpl; lia)). vm_compute. reflexivity.
Defined.

(** C10 as stated fails for a negative limit: without keywords and with
    the limit -2 the search returns the first two of the four
    interfaces, a list that is not cut to -2 entries. *)
Lemma search_without_keywords_counterexample :
  exists page s',
    searchApis Demo.remote (Demo.everything (Some (-2)%Z)) (at_rest Demo.service)
      = (inr page, s') /\
    total page = 4%nat /\
    ids (results page) = [9; 7]%Z /\
    ~ (Z.of_nat (List.length (results page)) <= -2)%Z.
Proof.
  eexists. eexists. split; [vm_compute; reflexivity|].
  split; [reflexivity|]. split; [reflexivity|]. simpl. lia.
Qed.

(** ** The [yapi_save_api] tool *)

Lemma parse_field_fails JSON_parse a f msg :
  field_fails JSON_parse a f msg ->
  parse_field JSON_parse (field_text a f) = inl (ErrSyntax msg).
Proof.
  intros [text [-> [Ht Hp]]]. unfold parse_field, parse_json.
  now rewrite Ht, Hp.
Qed.

Lemma parse_field_cases JSON_parse a f :
  (exists msg, field_fails JSON_parse a f msg /\
               parse_field JSON_parse (field_text a f) = inl (ErrSyntax msg)) \/
  (exists v, parse_field JSON_parse (field_text a f) = inr v).
Proof.
  unfold parse_field, parse_json, field_fails.
  destruct (field_text a f) as [text|]; [|right; eexists; reflexivity].
  destruct (JS.truthy text) eqn:Ht; [|right; eexists; reflexivity].
  destruct (JSON_parse text) as [msg|v] eqn:Hp.
  - left. exists msg. split; [|reflexivity]. exists text. now repeat split.
  - right. eexists; reflexivity.
Qed.

(** C3 (as amended).  When the tag list is given as a non-empty text
    that does not decode, the handler sends no request and answers with
    the general save error, carrying the syntax error. *)
Theorem save_tag_decode_failure remote JSON_parse a s text msg :
  a_tag a = Some text ->
  JS.truthy text = true ->
  JSON_parse text = inl msg ->
  yapi_save_api remote JSON_parse a s = (inr (SaveError (ErrSyntax msg)), s).
Proof.
  intros Ha Ht Hp. unfold yapi_save_api, try_catch, bind, parse_json.
  now rewrite Ha, Ht, Hp.
Qed.

Lemma save_tag_decode_failure_witness :
  yapi_save_api Demo.remote JSON.parse
    (Demo.save_args None (Some "oops") None) (at_rest Demo.service)
  = (inr (SaveError
            (ErrSyntax "SyntaxError: Unexpected token or end of JSON input")),
     at_rest Demo.service).
Proof.
  apply (@save_tag_decode_failure Demo.remote JSON.parse
           (Demo.save_args None (Some "oops") None) (at_rest Demo.service)
           "oops" "SyntaxError: Unexpected token or end of JSON input");
    reflexivity.
Defined.

(** C3 as stated fails: with the tag text [oops] the call is rejected and
    nothing is sent, where the same call without a tag saves the
    interface. *)
Lemma save_tag_counterexample :
  let bad := Demo.save_args None (Some "oops") None in
  let s := at_rest Demo.service in
  JSON.parse "oops" = inl "SyntaxError: Unexpected token or end of JSON input" /\
  fst (yapi_save_api Demo.remote JSON.parse bad s)
    = inr (SaveError
             (ErrSyntax "SyntaxError: Unexpected token or end of JSON input")) /\
  requests (now (snd (yapi_save_api Demo.remote JSON.parse bad s))) = [] /\
  fst (yapi_save_api Demo.remote JSON.parse (with_tag bad None) s)
    = inr (Saved false 77 "Ping" "GET" "/ping") /\
  yapi_save_api Demo.remote JSON.parse bad s
    <> yapi_save_api Demo.remote JSON.parse (with_tag bad None) s.
Proof.
  intros bad s.
  split; [vm_compute; reflexivity|]. split; [vm_compute; reflexivity|].
  split; [vm_compute; reflexivity|]. split; [vm_compute; reflexivity|].
  intros H. apply (f_equal fst) in H. vm_compute in H. discriminate H.
Qed.

Ltac earlier_decode :=
  let g := fresh "g" in
  let m := fresh "m" in
  let Hlt := fresh "Hlt" in
  let Hg := fresh "Hg" in
  intros g m Hlt Hg; apply parse_field_fails in Hg;
  destruct g; simpl in Hlt; simpl field_text in Hg; try lia; congruence.

Ltac reject_at F m H :=
  simpl; split; [reflexivity|]; split; [discriminate|];
  intros _; exists F, m; split; [exact H | split; [earlier_decode | reflexivity]].

Ltac try_field JSON_parse a F :=
  let m := fresh "m" in
  let H := fresh "H" in
  let E := fresh "E" in
  let v := fresh "v" in
  destruct (parse_field_cases JSON_parse a F) as [[m [H E]]|[v E]];
  simpl field_text in E; rewrite E; [reject_at F m H|].

Ltac all_fields JSON_parse a f Hf :=
  try_field JSON_parse a F_req_params;
  try_field JSON_parse a F_req_query;
  try_field JSON_parse a F_req_headers;
  try_field JSON_parse a F_req_body_form;
  exfalso; apply parse_field_fails in Hf;
  destruct f; simpl field_text in Hf; congruence.

(** C6 (as amended).  When one of the four JSON-encoded fields is given
    and does not decode, the handler sends no request and leaves the
    state as it is, and it does not answer that the interface was saved.
    When the tag list decodes, the answer is the parse error of a field
    that does not decode - the first one in the order path parameters,
    query parameters, headers, form body.  When the tag list is given
    and does not decode, the answer is the general save error with the
    decode error of the tag list, and names no field. *)
Theorem save_rejects_malformed_field remote JSON_parse a s f msg :
  field_fails JSON_parse a f msg ->
  snd (yapi_save_api remote JSON_parse a s) = s /\
  (forall isUpdate id title method path,
     fst (yapi_save_api remote JSON_parse a s)
     <> inr (Saved isUpdate id title method path)) /\
  (tag_decodes JSON_parse a ->
   exists f' msg',
     field_fails JSON_parse a f' msg' /\
     (forall g m, (field_rank g < field_rank f')%nat ->
        ~ field_fails JSON_parse a g m) /\
     fst (yapi_save_api remote JSON_parse a s)
     = inr (JsonParseError f' (ErrSyntax msg'))) /\
  (forall text m,
     a_tag a = Some text -> JS.truthy text = true -> JSON_parse text = inl m ->
     fst (yapi_save_api remote JSON_parse a s) = inr (SaveError (ErrSyntax m))).
Proof.
  intros Hf.
  assert (Htag : forall text m,
            a_tag a = Some text -> JS.truthy text = true ->
            JSON_parse text = inl m ->
            fst (yapi_save_api remote JSON_parse a s) = inr (SaveError (ErrSyntax m))).
  { intros text m Et Ht Hp. unfold yapi_save_api, try_catch, bind at 1.
    rewrite Et, Ht. unfold parse_json. rewrite Hp. reflexivity. }
  assert (H : snd (yapi_save_api remote JSON_parse a s) = s /\
              (forall isUpdate id title method path,
                 fst (yapi_save_api remote JSON_parse a s)
                 <> inr (Saved isUpdate id title method path)) /\
              (tag_decodes JSON_parse a ->
               exists f' msg',
                 field_fails JSON_parse a f' msg' /\
                 (forall g m, (field_rank g < field_rank f')%nat ->
                    ~ field_fails JSON_parse a g m) /\
                 fst (yapi_save_api remote JSON_parse a s)
                 = inr (JsonParseError f' (ErrSyntax msg')))).
  { unfold yapi_save_api, try_catch, bind at 1, tag_decodes.
    destruct (a_tag a) as [text|].
    - destruct (JS.truthy text) eqn:Ht.
      + unfold parse_json. destruct (JSON_parse text) as [m|v] eqn:Hp; simpl.
        * split; [reflexivity|]. split; [discriminate|].
          intros Hd. destruct (Hd eq_refl) as [v Hv]. discriminate Hv.
        * all_fields JSON_parse a f Hf.
      + simpl. all_fields JSON_parse a f Hf.
    - simpl. all_fields JSON_parse a f Hf. }
  destruct H as [H1 [H2 H3]]. auto.
Qed.

Lemma save_rejects_malformed_field_witness :
  let a := Demo.save_args (Some "42") (Some "[]") (Some "{") in
  let b := Demo.save_args (Some "42") (Some "oops") (Some "{") in
  field_fails JSON.parse a F_req_query
    "SyntaxError: Unexpected token or end of JSON input" /\
  snd (yapi_save_api Demo.remote JSON.parse a (at_rest Demo.service))
    = at_rest Demo.service /\
  (exists f' msg',
     fst (yapi_save_api Demo.remote JSON.parse a (at_rest Demo.service))
     = inr (JsonParseError f' (ErrSyntax msg'))) /\
  fst (yapi_save_api Demo.remote JSON.parse b (at_rest Demo.service))
  = inr (SaveError (ErrSyntax "SyntaxError: Unexpected token or end of JSON input")).
Proof.
  intros a b.
  assert (H : field_fails JSON.parse a F_req_query
                "SyntaxError: Unexpected token or end of JSON input").
  { exists "{". repeat split. }
  assert (H' : field_fails JSON.parse b F_req_query
                 "SyntaxError: Unexpected token or end of JSON input").
  { exists "{". repeat split. }
  split; [exact H|].
  destruct (@save_rejects_malformed_field Demo.remote JSON.parse a
              (at_rest Demo.service) F_req_query _ H) as [H1 [_ [H3 _]]].
  split; [exact H1|]. split.
  - destruct H3 as [f' [msg' [_ [_ E]]]].
    + intros _. exists (JArray []). vm_compute. reflexivity.
    + exists f', msg'. exact E.
  - destruct (@save_rejects_malformed_field Demo.remote JSON.parse b
                (at_rest Demo.service) F_req_query _ H') as [_ [_ [_ H4]]].
    apply (H4 "oops"); reflexivity.
Defined.

(** C6 as stated fails when the tag list does not decode either: with
    the tag text [oops] and the query parameters [{] the call is
    rejected with the general save error, which names no field. *)
Lemma save_bad_tag_first_counterexample :
  let a := Demo.save_args None (Some "oops") (Some "{") in
  field_fails JSON.parse a F_req_query
    "SyntaxError: Unexpected token or end of JSON input" /\
  yapi_save_api Demo.remote JSON.parse a (at_rest Demo.service)
  = (inr (SaveError (ErrSyntax "SyntaxError: Unexpected token or end of JSON input")),
     at_rest Demo.service) /\
  forall f' e,
    fst (yapi_save_api Demo.remote JSON.parse a (at_rest Demo.service))
    <> inr (JsonParseError f' e).
Proof.
  intros a. split; [exists "{"; repeat split|].
  split; [vm_compute; reflexivity|].
  intros f' e H. vm_compute in H. discriminate H.
Qed.

Example save_names_the_field :
  fst (yapi_save_api Demo.remote JSON.parse
         (Demo.save_args (Some "42") (Some "[]") (Some "{"))
         (at_rest Demo.service))
  = inr (JsonParseError F_req_query
           (ErrSyntax "SyntaxError: Unexpected token or end of JSON input")).
Proof. vm_compute. reflexivity. Qed.

Lemma truthy_opt_if_truthy o : JS.truthy_opt (if_truthy o) = JS.truthy_opt o.
Proof. unfold if_truthy. destruct (JS.truthy_opt o) eqn:E; [exact E | reflexivity]. Qed.

Lemma sys_eta s : mkSys (now s) (in_flight s) = s.
Proof. now destruct s. Qed.

Lemma if_truthy_given o : if_truthy o = given o.
Proof. destruct o as [[|c r]|]; reflexivity. Qed.

Lemma or_string_given_or o d : or_string o d = given_or o d.
Proof. destruct o as [[|c r]|]; reflexivity. Qed.

Lemma truthy_opt_given o : JS.truthy_opt o = match given o with Some _ => true | None => false end.
Proof. destruct o as [[|c r]|]; reflexivity. Qed.

Lemma parse_field_decodes JSON_parse o v :
  parse_field JSON_parse o = inr v -> decodes_to JSON_parse o v.
Proof.
  unfold parse_field, parse_json, decodes_to.
  destruct o as [[|c r]|]; simpl; try (intros H; now injection H as <-).
  destruct (JSON_parse (String c r)) as [m|j]; [discriminate|].
  intros H. injection H as <-. eauto.
Qed.

(** [await saveInterface(params)], whatever the remote service answers. *)
Lemma saveInterface_await remote params s :
  let endpoint := if JS.truthy_opt (sp_id params) then InterfaceUp else InterfaceAdd in
  let token := token_for (svc (now s)) (sp_project_id params) in
  await (saveInterface remote params) s
  = if JS.truthy token then
      (match interface_save remote endpoint params token with
       | Responded body =>
           if Z.eqb (errcode body) 0 then inr body
           else inl (ErrRemote endpoint (errmsg body))
       | HttpError status msg => inl (ErrHttp status msg)
       | NoResponse => inl ErrComm
       end,
       mkSys (log_request (mkRequest POST endpoint (Save params) token) (now s))
             (in_flight s))
    else (inl ErrComm, s).
Proof.
  intros endpoint token. unfold await, saveInterface, then_.
  replace (if negb (JS.truthy_opt (sp_id params)) then InterfaceAdd else InterfaceUp)
    with endpoint by (subst endpoint; now destruct (JS.truthy_opt (sp_id params))).
  destruct (request_cases remote (interface_save remote endpoint params) endpoint
              (Save params) (sp_project_id params) POST (now s))
    as [[Hf ->]|[Ht [k [-> Hk]]]]; subst token.
  - rewrite Hf. now rewrite sys_eta.
  - rewrite Ht, Hk.
    destruct (interface_save remote endpoint params
                (token_for (svc (now s)) (sp_project_id params)))
      as [body|st msg|]; try reflexivity.
    now destruct (Z.eqb (errcode body) 0).
Qed.

Ltac save_field JSON_parse a F :=
  let m := fresh "m" in
  let H := fresh "H" in
  let E := fresh "E" in
  let v := fresh "v" in
  destruct (parse_field_cases JSON_parse a F) as [[m [H E]]|[v E]];
  simpl field_text in E; rewrite E;
  [right; left; exists F, m; split; [exact H | reflexivity]|].

Ltac save_fields remote JSON_parse a s :=
  save_field JSON_parse a F_req_params;
  save_field JSON_parse a F_req_query;
  save_field JSON_parse a F_req_headers;
  save_field JSON_parse a F_req_body_form;
  match goal with
  | |- context [await (saveInterface remote ?p)] =>
      right; right; exists p; split;
      [ unfold posted_for; simpl;
        repeat split;
        auto using if_truthy_given, or_string_given_or, parse_field_decodes
      | unfold bind, ret; cbv beta iota;
        destruct (await (saveInterface remote p) s) as [[?e|?response] ?s'];
        reflexivity ]
  end.

(** The three ways a call of the tool goes: the tag list does not
    decode; one of the four fields does not decode; or it calls
    [saveInterface] once, with the parameters made from its arguments,
    and answers from the outcome. *)
Lemma yapi_save_api_outcome remote JSON_parse a s :
  (exists text msg,
     a_tag a = Some text /\ JS.truthy text = true /\ JSON_parse text = inl msg /\
     yapi_save_api remote JSON_parse a s = (inr (SaveError (ErrSyntax msg)), s)) \/
  (exists f msg,
     field_fails JSON_parse a f msg /\
     yapi_save_api remote JSON_parse a s
     = (inr (JsonParseError f (ErrSyntax msg)), s)) \/
  (exists params,
     posted_for JSON_parse a params /\
     yapi_save_api remote JSON_parse a s
     = (match fst (await (saveInterface remote params) s) with
        | inr response =>
            inr (Saved (JS.truthy_opt (a_id a)) (data response)
                   (a_title a) (a_method a) (a_path a))
        | inl e => inr (SaveError e)
        end,
        snd (await (saveInterface remote params) s))).
Proof.
  unfold yapi_save_api, try_catch, bind at 1.
  destruct (a_tag a) as [text|] eqn:Etag.
  - destruct (JS.truthy text) eqn:Ht.
    + unfold parse_json. destruct (JSON_parse text) as [msg|v] eqn:Hp; simpl.
      * left. exists text, msg. auto.
      * assert (Htag : tag_decodes_to JSON_parse (a_tag a) v).
        { unfold tag_decodes_to. rewrite Etag.
          destruct text as [|c r]; [discriminate | exact Hp]. }
        save_fields remote JSON_parse a s.
    + assert (Htag : tag_decodes_to JSON_parse (a_tag a) (JArray [])).
      { unfold tag_decodes_to. rewrite Etag.
        destruct text as [|c r]; [reflexivity | discriminate]. }
      simpl. save_fields remote JSON_parse a s.
  - assert (Htag : tag_decodes_to JSON_parse (a_tag a) (JArray [])).
    { unfold tag_decodes_to. now rewrite Etag. }
    simpl. save_fields remote JSON_parse a s.
Qed.

(** What a call whose texts all decode does, for a project with a
    token. *)
Lemma yapi_save_api_sends remote JSON_parse a s :
  let token := token_for (svc (now s)) (a_projectId a) in
  tag_decodes JSON_parse a ->
  (forall f msg, ~ field_fails JSON_parse a f msg) ->
  exists params,
    posted_for JSON_parse a params /\
    yapi_save_api remote JSON_parse a s
    = if JS.truthy token then
        (inr match interface_save remote (endpoint_for a) params token with
             | Responded body =>
                 if Z.eqb (errcode body) 0
                 then Saved (id_given a) (data body)
                        (a_title a) (a_method a) (a_path a)
                 else SaveError (ErrRemote (endpoint_for a) (errmsg body))
             | HttpError status msg => SaveError (ErrHttp status msg)
             | NoResponse => SaveError ErrComm
             end,
         mkSys (log_request
                  (mkRequest POST (endpoint_for a) (Save params) token) (now s))
               (in_flight s))
      else (inr (SaveError ErrComm), s).
Proof.
  intros token Htag Hno.
  destruct (yapi_save_api_outcome remote JSON_parse a s)
    as [[text [msg [Et [Ht [Hp _]]]]]|[[f [msg [Hf _]]]|[params [Hpost E]]]].
  - exfalso. unfold tag_decodes in Htag. rewrite Et in Htag.
    destruct (Htag Ht) as [v Hv]. congruence.
  - exfalso. exact (Hno f msg Hf).
  - exists params. split; [exact Hpost|]. rewrite E.
    pose proof (saveInterface_await remote params s) as Hw. cbv zeta in Hw.
    destruct Hpost as [Hp [_ [Hi _]]].
    rewrite Hp, Hi in Hw.
    assert (Hid : JS.truthy_opt (given (a_id a)) = id_given a).
    { unfold id_given. now destruct (a_id a) as [[|c r]|]. }
    assert (Hid' : JS.truthy_opt (a_id a) = id_given a).
    { unfold id_given. now destruct (a_id a) as [[|c r]|]. }
    rewrite Hid in Hw. rewrite Hid'. fold (endpoint_for a) in Hw. fold token in Hw.
    rewrite Hw. destruct (JS.truthy token); [|reflexivity]. simpl.
    destruct (interface_save remote (endpoint_for a) params token)
      as [body|st msg|]; try reflexivity.
    now destruct (Z.eqb (errcode body) 0).
Qed.




Example save_without_id_creates :
  let r := yapi_save_api Demo.remote JSON.parse (Demo.save_args None None None)
             (at_rest Demo.service) in
  fst r = inr (Saved false 77 "Ping" "GET" "/ping") /\
  map req_endpoint (requests (now (snd r))) = [InterfaceAdd].
Proof. split; vm_compute; reflexivity. Qed.

(** ** The refresh of the cache *)






Example refresh_with_a_failure :
  let s := snd (asyncUpdateCache Demo.remote
                  (mkSys (mkWorld Demo.service4 [] None) [])) in
  JS.Map.keys (projectInfoCache (svc (now s))) = ["10"; "20"] /\
  option_map (@JS.Map.keys ProjectInfo) (persisted (now s)) = Some ["10"; "20"] /\
  JS.Map.keys (projectInfoCache (svc (quiesce s))) = ["10"; "20"; "40"] /\
  JS.Map.keys (categoryListCache (svc (quiesce s))) = ["10"; "20"].
Proof. repeat split; vm_compute; reflexivity. Qed.

(** ** Scenarios *)

(** The scenario of the specification: a search by the name [login]
    finds "Admin Login" (9) and "User Login" (5), newest first. *)
Example search_by_name_login :
  exists page s',
    searchApisByName Demo.remote "login" None None None None
      (at_rest (Credentials.new "http://yapi" "10:abc")) = (inr page, s') /\
    total page = 2%nat /\ ids (results page) = [9; 5]%Z /\
    map item_project_name (results page) = [Some "Shop"; Some "Shop"] /\
    map item_cat_name (results page) = [Some "admin"; Some "user"].
Proof.
  eexists. eexists. split; [vm_compute; reflexivity|]. repeat split.
Qed.

Example search_by_tag_ops :
  exists page s',
    searchApis Demo.remote (Demo.by_tag "OPS") (at_rest Demo.service)
      = (inr page, s') /\
    total page = 1%nat /\ ids (results page) = [9]%Z.
Proof.
  eexists. eexists. split; [vm_compute; reflexivity|]. repeat split.
Qed.

(** A search by name over two projects: each project's interfaces are in
    descending order of id, the list as a whole is not. *)
Example search_by_name_two_projects :
  exists page s',
    searchApisByName Demo.remote "n" None None None None (at_rest Demo.service)
      = (inr page, s') /\
    total page = 3%nat /\ ids (results page) = [9; 5; 12]%Z /\
    map item_project_name (results page)
      = [Some "Shop"; Some "Shop"; Some "Office"].
Proof.
  eexists. eexists. split; [vm_compute; reflexivity|]. repeat split.
Qed.

(* ===================================================================== *)
(** * Further properties *)
(* ===================================================================== *)

(** ** The credentials *)

Lemma map_set_keys V (m : JS.Map.t V) k v :
  JS.Map.keys (JS.Map.set m k v)
  = if JS.Map.has m k then JS.Map.keys m else JS.Map.keys m ++ [k].
Proof.
  unfold JS.Map.has, JS.Map.keys.
  induction m as [|[k' v'] r IH]; simpl; [reflexivity|].
  destruct (String.eqb k' k) eqn:E; simpl; [reflexivity|].
  rewrite IH. now destruct (JS.Map.get r k).
Qed.

Lemma map_get_keys V (m : JS.Map.t V) k :
  JS.Map.get m k <> None <-> In k (JS.Map.keys m).
Proof.
  unfold JS.Map.keys.
  induction m as [|[k' v'] r IH]; simpl; [tauto|].
  destruct (String.eqb k' k) eqn:E.
  - apply String.eqb_eq in E. split; [now left | congruence].
  - apply String.eqb_neq in E. rewrite IH. split; [now right|].
    intros [H|H]; [congruence | exact H].
Qed.

Lemma map_set_keys_NoDup V (m : JS.Map.t V) k v :
  NoDup (JS.Map.keys m) -> NoDup (JS.Map.keys (JS.Map.set m k v)).
Proof.
  intros H. rewrite map_set_keys. unfold JS.Map.has.
  destruct (JS.Map.get m k) eqn:E; [exact H|].
  apply NoDup_app; repeat split; auto.
  - constructor; [intros []|constructor].
  - intros x Hx [<-|[]]. apply map_get_keys in Hx. congruence.
Qed.

Lemma entry_pair_head e i tok :
  Credentials.entry_pair e = Some (i, tok) -> JS.includes i ":" = false.
Proof.
  unfold Credentials.entry_pair. intros H.
  pose proof (includes_hd_split ":" (JS.trim e)) as Hh.
  destruct (JS.split ":" (JS.trim e)) as [|a [|b r]]; try discriminate.
  destruct (JS.truthy a && JS.truthy b)%bool; [|discriminate].
  injection H as <- <-. exact Hh.
Qed.

Lemma parse_pair_well_keyed acc e :
  well_keyed (fst acc) -> well_keyed (fst (Credentials.parse_pair acc e)).
Proof.
  intros [Hnd Hk]. rewrite parse_pair_entry.
  destruct (Credentials.entry_pair e) as [[i tok]|] eqn:E; simpl; [|now split].
  destruct (entry_pair_truthy _ E) as [Hi Ht].
  pose proof (entry_pair_head _ E) as Hc.
  split; [now apply map_set_keys_NoDup|].
  intros k Hin. destruct (String.eqb i k) eqn:Eik.
  - apply String.eqb_eq in Eik. subst k. repeat split; auto.
    exists tok. now rewrite map_get_set_same.
  - apply String.eqb_neq in Eik.
    rewrite map_get_set_other by exact Eik.
    apply Hk. rewrite map_set_keys in Hin.
    destruct (JS.Map.has (fst acc) i); [exact Hin|].
    apply in_app_or in Hin. destruct Hin as [Hin|[Hin|[]]]; [exact Hin|congruence].
Qed.

Lemma fold_parse_pair_well_keyed es acc :
  well_keyed (fst acc) ->
  well_keyed (fst (fold_left Credentials.parse_pair es acc)).
Proof.
  revert acc. induction es as [|e r IH]; intros acc H; simpl; [exact H|].
  apply IH. now apply parse_pair_well_keyed.
Qed.

(** X1.  The token the service uses for a project, for any credential
    string: that of the last entry whose first two colon-separated
    fields are both non-empty and whose first field is the project id;
    without such an entry, the last entry that is not of this form,
    trimmed and taken whole; without any, the empty token. *)
Theorem credentials_last_entry_wins base raw projectId :
  Credentials.getToken (Credentials.new base raw) projectId
  = Credentials.last_wins raw projectId.
Proof. apply getToken_last_wins. Qed.

(** X2.  Whatever the credential string, the configured project ids are
    distinct, non-empty and free of colons, and each resolves to a
    non-empty token of its own, never to the default one. *)
Theorem configured_ids_resolve base raw :
  let v := Credentials.new base raw in
  NoDup (Credentials.getConfiguredProjectIds v) /\
  forall id, In id (Credentials.getConfiguredProjectIds v) ->
    JS.truthy id = true /\ JS.includes id ":" = false /\
    JS.Map.get (tokenMap v) id = Some (Credentials.getToken v id) /\
    JS.truthy (Credentials.getToken v id) = true.
Proof.
  assert (W : well_keyed (tokenMap (Credentials.new base raw))).
  { unfold Credentials.new, Credentials.parse_tokens.
    assert (W0 : well_keyed (JS.Map.empty string)).
    { split; [constructor | intros k []]. }
    destruct (JS.truthy raw).
    - pose proof (@fold_parse_pair_well_keyed (JS.split "," raw)
                    (JS.Map.empty string, EmptyString) W0) as H.
      destruct (fold_left Credentials.parse_pair (JS.split "," raw)
                  (JS.Map.empty string, EmptyString)). exact H.
    - exact W0. }
  intros v. destruct W as [Hnd Hk]. split; [exact Hnd|].
  intros id Hin. destruct (Hk id Hin) as [H1 [H2 [tok [H3 H4]]]].
  subst v. unfold Credentials.getToken. rewrite H3, H4. now repeat split.
Qed.

Lemma configured_ids_resolve_witness :
  In "20" (Credentials.getConfiguredProjectIds
             (Credentials.new "http://yapi" "10:abc, 20:def ,xyz,20:ghi")) /\
  Credentials.getToken (Credentials.new "http://yapi" "10:abc, 20:def ,xyz,20:ghi") "20"
  = "ghi" /\
  JS.truthy (Credentials.getToken
               (Credentials.new "http://yapi" "10:abc, 20:def ,xyz,20:ghi") "20")
  = true.
Proof.
  assert (Hin : In "20" (Credentials.getConfiguredProjectIds
             (Credentials.new "http://yapi" "10:abc, 20:def ,xyz,20:ghi"))).
  { vm_compute. right. left. reflexivity. }
  split; [exact Hin|]. split; [reflexivity|].
  exact (proj2 (proj2 (proj2
    (proj2 (configured_ids_resolve "http://yapi" "10:abc, 20:def ,xyz,20:ghi")
       "20" Hin)))).
Defined.

(** ** Requests and cached fetches *)

(** X4.  A project fetch that succeeds leaves the project in the
    project map, and the same fetch made again answers the same from the
    map: it sends nothing and changes nothing.  Likewise for the category
    list of a project. *)
Theorem fetch_then_cached remote id s :
  (forall info s',
     await (getProjectInfo remote id) s = (inr info, s') ->
     has_project id info (now s') /\
     await (getProjectInfo remote id) s' = (inr info, s')) /\
  (forall cats s',
     await (getCategoryList remote id) s = (inr cats, s') ->
     has_categories id cats (now s') /\
     await (getCategoryList remote id) s' = (inr cats, s')).
Proof.
  split.
  - intros info s'. unfold await at 1, getProjectInfo at 1, has_project.
    destruct (JS.Map.get (projectInfoCache (svc (now s))) id) as [cached|] eqn:Ec.
    + intros H. injection H as <- <-. simpl.
      split; [exact Ec|]. unfold await, getProjectInfo. simpl. now rewrite Ec.
    + unfold then_.
      destruct (request_cases remote (project_get remote id) ProjectGet (ById id)
                  id GET (now s)) as [[_ ->]|[_ [k [-> Hk]]]]; [discriminate|].
      rewrite Hk.
      destruct (project_get remote id (token_for (svc (now s)) id))
        as [body|st msg|]; try discriminate.
      destruct (Z.eqb (errcode body) 0); simpl; [|discriminate].
      intros H. injection H as <- <-. simpl.
      rewrite map_get_set_same. split; [reflexivity|].
      unfold await, getProjectInfo. simpl. now rewrite map_get_set_same.
  - intros cats s'. unfold await at 1, getCategoryList at 1, has_categories.
    destruct (JS.Map.get (categoryListCache (svc (now s))) id) as [cached|] eqn:Ec.
    + intros H. injection H as <- <-. simpl.
      split; [exact Ec|]. unfold await, getCategoryList. simpl. now rewrite Ec.
    + unfold then_.
      destruct (request_cases remote (cat_menu remote id) GetCatMenu (ByProject id)
                  id GET (now s)) as [[_ ->]|[_ [k [-> Hk]]]]; [discriminate|].
      rewrite Hk.
      destruct (cat_menu remote id (token_for (svc (now s)) id))
        as [body|st msg|]; try discriminate.
      destruct (Z.eqb (errcode body) 0); simpl; [|discriminate].
      intros H. injection H as <- <-. simpl.
      rewrite map_get_set_same. split; [reflexivity|].
      unfold await, getCategoryList. simpl. now rewrite map_get_set_same.
Qed.

Lemma fetch_then_cached_witness :
  exists info s',
    await (getProjectInfo Demo.remote "10") (at_rest Demo.service) = (inr info, s') /\
    requests (now s') = [mkRequest GET ProjectGet (ById "10") "abc"] /\
    has_project "10" info (now s') /\
    await (getProjectInfo Demo.remote "10") s' = (inr info, s').
Proof.
  eexists. eexists.
  assert (E : await (getProjectInfo Demo.remote "10") (at_rest Demo.service)
              = (inr (mkProjectInfo 10 "Shop" "web shop" "/" 1),
                 snd (await (getProjectInfo Demo.remote "10") (at_rest Demo.service))))
    by reflexivity.
  split; [exact E|]. split; [reflexivity|].
  exact (proj1 (fetch_then_cached Demo.remote "10" (at_rest Demo.service)) _ _ E).
Defined.

(** X5.  A project fetch or a category fetch that fails stores nothing:
    the service object is as before, so that the failure is not
    remembered and the next call asks again.  The error is the
    communication error, an HTTP error, or the error of the endpoint with
    the message of the remote service. *)
Theorem failed_fetch_stores_nothing remote id s :
  (forall e s',
     await (getProjectInfo remote id) s = (inl e, s') ->
     svc (now s') = svc (now s) /\ in_flight s' = in_flight s /\
     (e = ErrComm \/ (exists status msg, e = ErrHttp status msg) \/
      exists body, project_get remote id (token_for (svc (now s)) id)
                   = Responded body /\
                   errcode body <> 0%Z /\ e = ErrRemote ProjectGet (errmsg body))) /\
  (forall e s',
     await (getCategoryList remote id) s = (inl e, s') ->
     svc (now s') = svc (now s) /\ in_flight s' = in_flight s /\
     (e = ErrComm \/ (exists status msg, e = ErrHttp status msg) \/
      exists body, cat_menu remote id (token_for (svc (now s)) id)
                   = Responded body /\
                   errcode body <> 0%Z /\ e = ErrRemote GetCatMenu (errmsg body))).
Proof.
  split.
  - intros e s'. unfold await, getProjectInfo.
    destruct (JS.Map.get (projectInfoCache (svc (now s))) id) as [cached|] eqn:Ec;
      [discriminate|].
    unfold then_.
    destruct (request_cases remote (project_get remote id) ProjectGet (ById id)
                id GET (now s)) as [[_ ->]|[_ [k [-> Hk]]]].
    + intros H. injection H as <- <-. simpl. auto.
    + rewrite Hk.
      destruct (project_get remote id (token_for (svc (now s)) id))
        as [body|st msg|] eqn:Ea.
      * destruct (Z.eqb (errcode body) 0) eqn:Ez; simpl; [discriminate|].
        intros H. injection H as <- <-. simpl. repeat split.
        right. right. exists body. repeat split.
        now apply Z.eqb_neq.
      * intros H. injection H as <- <-. simpl. repeat split. right. left. eauto.
      * intros H. injection H as <- <-. simpl. auto.
  - intros e s'. unfold await, getCategoryList.
    destruct (JS.Map.get (categoryListCache (svc (now s))) id) as [cached|] eqn:Ec;
      [discriminate|].
    unfold then_.
    destruct (request_cases remote (cat_menu remote id) GetCatMenu (ByProject id)
                id GET (now s)) as [[_ ->]|[_ [k [-> Hk]]]].
    + intros H. injection H as <- <-. simpl. auto.
    + rewrite Hk.
      destruct (cat_menu remote id (token_for (svc (now s)) id))
        as [body|st msg|] eqn:Ea.
      * destruct (Z.eqb (errcode body) 0) eqn:Ez; simpl; [discriminate|].
        intros H. injection H as <- <-. simpl. repeat split.
        right. right. exists body. repeat split.
        now apply Z.eqb_neq.
      * intros H. injection H as <- <-. simpl. repeat split. right. left. eauto.
      * intros H. injection H as <- <-. simpl. auto.
Qed.

Lemma failed_fetch_stores_nothing_witness :
  exists s',
    await (getProjectInfo Demo.remote "30") (at_rest Demo.service4) = (inl ErrComm, s') /\
    requests (now s') = [mkRequest GET ProjectGet (ById "30") "zzz"] /\
    svc (now s') = svc (now (at_rest Demo.service4)).
Proof.
  eexists.
  assert (E : await (getProjectInfo Demo.remote "30") (at_rest Demo.service4)
              = (inl ErrComm,
                 snd (await (getProjectInfo Demo.remote "30") (at_rest Demo.service4))))
    by reflexivity.
  split; [exact E|]. split; [reflexivity|].
  exact (proj1 (proj1 (failed_fetch_stores_nothing Demo.remote "30"
                         (at_rest Demo.service4)) _ _ E)).
Defined.

(** ** The requests of a refresh *)

Lemma same_log_refl w : same_log w w.
Proof. reflexivity. Qed.

Lemma same_log_trans w1 w2 w3 : same_log w1 w2 -> same_log w2 w3 -> same_log w1 w3.
Proof. unfold same_log. congruence. Qed.

Lemma getProjectInfo_start remote id w :
  svc (snd (getProjectInfo remote id w)) = svc w /\
  requests (snd (getProjectInfo remote id w))
  = requests w ++ project_request_of (svc w) id /\
  tame_started same_log (fst (getProjectInfo remote id w)).
Proof.
  unfold getProjectInfo, project_request_of.
  destruct (JS.Map.get (projectInfoCache (svc w)) id) as [cached|]; simpl.
  { now rewrite List.app_nil_r. }
  unfold then_.
  destruct (request_cases remote (project_get remote id) ProjectGet (ById id)
              id GET w) as [[Hf ->]|[Ht [k [-> Hk]]]].
  - rewrite Hf. simpl. now rewrite List.app_nil_r.
  - rewrite Ht. simpl. repeat split. intros w1. rewrite Hk.
    destruct (project_get remote id (token_for (svc w) id)) as [body|st msg|];
      try reflexivity.
    now destruct (Z.eqb (errcode body) 0).
Qed.

Lemma getCategoryList_start remote id w :
  svc (snd (getCategoryList remote id w)) = svc w /\
  requests (snd (getCategoryList remote id w))
  = requests w ++ category_request_of (svc w) id /\
  tame_started same_log (fst (getCategoryList remote id w)).
Proof.
  unfold getCategoryList, category_request_of.
  destruct (JS.Map.get (categoryListCache (svc w)) id) as [cached|]; simpl.
  { now rewrite List.app_nil_r. }
  unfold then_.
  destruct (request_cases remote (cat_menu remote id) GetCatMenu (ByProject id)
              id GET w) as [[Hf ->]|[Ht [k [-> Hk]]]].
  - rewrite Hf. simpl. now rewrite List.app_nil_r.
  - rewrite Ht. simpl. repeat split. intros w1. rewrite Hk.
    destruct (cat_menu remote id (token_for (svc w) id)) as [body|st msg|];
      try reflexivity.
    now destruct (Z.eqb (errcode body) 0).
Qed.

(** [Promise.all] over calls that send their requests at once and log
    nothing afterwards. *)
Lemma promise_all__requests T (f : string -> Task T)
  (G : YApiService -> string -> list Request) :
  (forall id w,
     svc (snd (f id w)) = svc w /\
     requests (snd (f id w)) = requests w ++ G (svc w) id /\
     tame_started same_log (fst (f id w))) ->
  forall l s,
    requests (now (snd (promise_all_ (map f l) s)))
    = requests (now s) ++ flat_map (G (svc (now s))) l.
Proof.
  intros Hf l s.
  assert (Hs : forall l w,
             svc (snd (start_all (map f l) w)) = svc w /\
             requests (snd (start_all (map f l) w))
             = requests w ++ flat_map (G (svc w)) l /\
             Forall (tame_started same_log (T:=T)) (fst (start_all (map f l) w))).
  { clear l s. induction l as [|id r IH]; intros w; simpl.
    - rewrite List.app_nil_r. repeat split. constructor.
    - destruct (Hf id w) as [H1 [H2 H3]].
      destruct (f id w) as [st w1]. simpl in *.
      destruct (IH w1) as [H4 [H5 H6]].
      destruct (start_all (map f r) w1) as [sts w2]. simpl in *.
      rewrite H4, H1. rewrite H5, H2, H1. rewrite <- List.app_assoc.
      repeat split. now constructor. }
  unfold promise_all_.
  destruct (Hs l (now s)) as [_ [H2 H3]].
  destruct (start_all (map f l) (now s)) as [sts w1]. simpl in *.
  destruct (first_rejected sts); simpl; [exact H2|].
  destruct (deliver_frame same_log_refl same_log_trans w1 (arrivals_frame H3))
    as [H4 _].
  destruct (deliver (arrivals sts) w1) as [[r w2] rest]. simpl in *.
  unfold same_log in H4. now rewrite H4.
Qed.

(** X6.  A pass over the credentialed projects sends one project
    request for each of them that is not in the project map and has a
    token, in the order of the credentials, and no request for a
    project that is in the map.  Likewise the pass over the projects of
    the map sends one category request for each project without a
    category list. *)
Theorem refresh_requests remote s :
  requests (now (snd (loadAllProjectInfo remote s)))
  = requests (now s)
    ++ flat_map (project_request_of (svc (now s)))
         (Credentials.getConfiguredProjectIds (svc (now s))) /\
  requests (now (snd (loadAllCategoryLists remote s)))
  = requests (now s)
    ++ flat_map (category_request_of (svc (now s)))
         (JS.Map.keys (projectInfoCache (svc (now s)))).
Proof.
  split.
  - unfold loadAllProjectInfo, bind, get_svc.
    destruct (Credentials.getConfiguredProjectIds (svc (now s))) as [|id r] eqn:E.
    + simpl. now rewrite List.app_nil_r.
    + pose proof (promise_all__requests (getProjectInfo remote)
                    project_request_of (getProjectInfo_start remote) (id :: r) s) as H.
      unfold try_catch.
      destruct (promise_all_ (map (getProjectInfo remote) (id :: r)) s) as [[e|[]] s'];
        exact H.
  - unfold loadAllCategoryLists, bind, get_svc.
    destruct (JS.Map.keys (projectInfoCache (svc (now s)))) as [|id r] eqn:E.
    + simpl. now rewrite List.app_nil_r.
    + pose proof (promise_all__requests (getCategoryList remote)
                    category_request_of (getCategoryList_start remote) (id :: r) s) as H.
      unfold try_catch.
      destruct (promise_all_ (map (getCategoryList remote) (id :: r)) s) as [[e|[]] s'];
        exact H.
Qed.

(** ** What a refresh keeps *)

Section Keeps.

Variable pc0 : JS.Map.t ProjectInfo.
Variable cc0 : JS.Map.t (list CategoryInfo).

Lemma keeps_refl w : keeps_entries pc0 cc0 w w.
Proof. split; reflexivity. Qed.

Lemma keeps_trans w1 w2 w3 :
  keeps_entries pc0 cc0 w1 w2 -> keeps_entries pc0 cc0 w2 w3 ->
  keeps_entries pc0 cc0 w1 w3.
Proof.
  intros [A1 B1] [A2 B2]. split; intros id H.
  - now rewrite A2, A1.
  - now rewrite B2, B1.
Qed.

Lemma holds_stable w w' :
  keeps_entries pc0 cc0 w w' -> holds_entries pc0 cc0 w -> holds_entries pc0 cc0 w'.
Proof.
  intros [A B] [P Q]. split; intros id H.
  - rewrite A by exact H. now apply P.
  - rewrite B by exact H. now apply Q.
Qed.

Lemma keeps_same_svc w w' : svc w' = svc w -> keeps_entries pc0 cc0 w w'.
Proof. intros E. split; intros id _; now rewrite E. Qed.

Lemma getProjectInfo_keeps remote id :
  tame (keeps_entries pc0 cc0) (holds_entries pc0 cc0) (getProjectInfo remote id).
Proof.
  intros w [P Q].
  destruct (getProjectInfo_cases remote id w) as [[r [-> _]]|[Hn [k [-> Hk]]]].
  - split; [reflexivity | apply keeps_refl].
  - split; [reflexivity|]. split; [now apply keeps_same_svc|].
    intros w1. rewrite Hk.
    destruct (project_answer remote (svc w) id) as [info|]; [|apply keeps_refl].
    split; intros id' H; simpl; [|reflexivity].
    apply map_get_set_other. intros ->. now apply (P id').
Qed.

Lemma getCategoryList_keeps remote id :
  tame (keeps_entries pc0 cc0) (holds_entries pc0 cc0) (getCategoryList remote id).
Proof.
  intros w [P Q].
  destruct (getCategoryList_cases remote id w) as [[r [-> _]]|[Hn [k [-> Hk]]]].
  - split; [reflexivity | apply keeps_refl].
  - split; [reflexivity|]. split; [now apply keeps_same_svc|].
    intros w1. rewrite Hk.
    destruct (category_answer remote (svc w) id) as [cats|]; [|apply keeps_refl].
    split; intros id' H; simpl; [reflexivity|].
    apply map_get_set_other. intros ->. now apply (Q id').
Qed.

Lemma promise_all__keeps T (f : string -> Task T) l s :
  (forall id, tame (keeps_entries pc0 cc0) (holds_entries pc0 cc0) (f id)) ->
  holds_entries pc0 cc0 (now s) ->
  exists extra,
    in_flight (snd (promise_all_ (map f l) s)) = in_flight s ++ extra /\
    keeps_entries pc0 cc0 (now s) (now (snd (promise_all_ (map f l) s))) /\
    Forall (fun k : World -> World => forall w, keeps_entries pc0 cc0 w (k w)) extra.
Proof.
  intros Hf Hp.
  assert (Ht : Forall (tame (keeps_entries pc0 cc0) (holds_entries pc0 cc0) (T:=T))
                 (map f l)).
  { apply Forall_forall. intros t Hin. apply in_map_iff in Hin.
    destruct Hin as [id [<- _]]. apply Hf. }
  destruct (promise_all__frame keeps_refl keeps_trans holds_stable s Ht Hp)
    as [extra [H1 [H2 [H3 _]]]].
  exists extra. auto.
Qed.

Lemma loadAllProjectInfo_keeps remote s :
  holds_entries pc0 cc0 (now s) ->
  exists extra,
    in_flight (snd (loadAllProjectInfo remote s)) = in_flight s ++ extra /\
    keeps_entries pc0 cc0 (now s) (now (snd (loadAllProjectInfo remote s))) /\
    Forall (fun k : World -> World => forall w, keeps_entries pc0 cc0 w (k w)) extra.
Proof.
  intros Hp. unfold loadAllProjectInfo, bind, get_svc.
  destruct (Credentials.getConfiguredProjectIds (svc (now s))) as [|id r].
  - exists []. simpl. rewrite List.app_nil_r. repeat split; try constructor; reflexivity.
  - destruct (promise_all__keeps (getProjectInfo remote) (id :: r) s
                (getProjectInfo_keeps remote) Hp) as [extra H].
    exists extra. unfold try_catch.
    destruct (promise_all_ (map (getProjectInfo remote) (id :: r)) s) as [[e|[]] s'];
      exact H.
Qed.

Lemma loadAllCategoryLists_keeps remote s :
  holds_entries pc0 cc0 (now s) ->
  exists extra,
    in_flight (snd (loadAllCategoryLists remote s)) = in_flight s ++ extra /\
    keeps_entries pc0 cc0 (now s) (now (snd (loadAllCategoryLists remote s))) /\
    Forall (fun k : World -> World => forall w, keeps_entries pc0 cc0 w (k w)) extra.
Proof.
  intros Hp. unfold loadAllCategoryLists, bind, get_svc.
  destruct (JS.Map.keys (projectInfoCache (svc (now s)))) as [|id r].
  - exists []. simpl. rewrite List.app_nil_r. repeat split; try constructor; reflexivity.
  - destruct (promise_all__keeps (getCategoryList remote) (id :: r) s
                (getCategoryList_keeps remote) Hp) as [extra H].
    exists extra. unfold try_catch.
    destruct (promise_all_ (map (getCategoryList remote) (id :: r)) s) as [[e|[]] s'];
      exact H.
Qed.

Lemma quiesce_keeps l w :
  Forall (fun k : World -> World => forall w, keeps_entries pc0 cc0 w (k w)) l ->
  keeps_entries pc0 cc0 w (fold_left (fun w k => k w) l w).
Proof.
  intros H. revert w. induction H as [|k r Hk Hr IH]; intros w; simpl.
  - apply keeps_refl.
  - eapply keeps_trans; [apply Hk | apply IH].
Qed.

End Keeps.

Lemma asyncUpdateCache_keeps remote w :
  let pc0 := projectInfoCache (svc w) in
  let cc0 := categoryListCache (svc w) in
  let s' := snd (asyncUpdateCache remote (mkSys w [])) in
  keeps_entries pc0 cc0 w (now s') /\ keeps_entries pc0 cc0 w (quiesce s').
Proof.
  intros pc0 cc0.
  assert (Hp : holds_entries pc0 cc0 w) by (split; intros id H; exact H).
  destruct (@loadAllProjectInfo_keeps pc0 cc0 remote (mkSys w []) Hp)
    as [ex1 [F1 [K1 E1]]].
  destruct (loadAllProjectInfo_run remote (mkSys w [])) as [s1 [R1 _]].
  rewrite R1 in F1, K1. simpl in F1, K1.
  set (s2 := mkSys (mkWorld (svc (now s1)) (requests (now s1))
                      (Some (projectInfoCache (svc (now s1))))) (in_flight s1)).
  assert (K2 : keeps_entries pc0 cc0 w (now s2)).
  { eapply keeps_trans; [exact K1|]. now apply keeps_same_svc. }
  assert (Hp2 : holds_entries pc0 cc0 (now s2)) by (eapply holds_stable; eauto).
  destruct (@loadAllCategoryLists_keeps pc0 cc0 remote s2 Hp2)
    as [ex2 [F2 [K3 E2]]].
  assert (Run : snd (asyncUpdateCache remote (mkSys w []))
                = snd (loadAllCategoryLists remote s2)).
  { unfold asyncUpdateCache, try_catch, bind at 1. rewrite R1.
    unfold bind, get_svc, saveToCache, on_world. fold s2.
    now destruct (loadAllCategoryLists remote s2) as [[e|[]] s3]. }
  cbv zeta. rewrite Run. split.
  - eapply keeps_trans; eauto.
  - unfold quiesce. eapply keeps_trans; [eapply keeps_trans; [exact K2 | exact K3]|].
    apply quiesce_keeps. rewrite F2. simpl. rewrite F1.
    apply Forall_app. split; assumption.
Qed.

(** X7.  A refresh never replaces or removes what the maps hold: a
    project that is in the project map when the refresh starts on a
    system at rest is there with the same information when the refresh
    returns and when the last answer has arrived, whatever the remote
    service answers; likewise for the category lists. *)
Theorem refresh_keeps_cached_entries remote w id :
  let s' := snd (asyncUpdateCache remote (mkSys w [])) in
  (forall info, has_project id info w ->
     has_project id info (now s') /\ has_project id info (quiesce s')) /\
  (forall cats, has_categories id cats w ->
     has_categories id cats (now s') /\ has_categories id cats (quiesce s')).
Proof.
  destruct (asyncUpdateCache_keeps remote w) as [[A1 B1] [A2 B2]].
  cbv zeta. unfold has_project, has_categories. split.
  - intros info H. rewrite A1, A2 by congruence. auto.
  - intros cats H. rewrite B1, B2 by congruence. auto.
Qed.

Lemma refresh_keeps_cached_entries_witness :
  let stale := mkProjectInfo 10 "Old shop" EmptyString "/" 1 in
  let w := set_projectInfoCache [("10", stale)] (mkWorld Demo.service [] None) in
  let s' := snd (asyncUpdateCache Demo.remote (mkSys w [])) in
  has_project "10" stale w /\
  has_project "10" stale (quiesce s') /\
  JS.Map.keys (projectInfoCache (svc (quiesce s'))) = ["10"; "20"].
Proof.
  intros stale w s'.
  assert (H : has_project "10" stale w) by reflexivity.
  split; [exact H|]. split; [|reflexivity].
  exact (proj2 (proj1 (refresh_keeps_cached_entries Demo.remote w "10") stale H)).
Defined.

(** ** Deduplication, item by item *)

Lemma seen_mem x seen :
  existsb (String.eqb (JS.String_of_number x)) (map JS.String_of_number seen)
  = existsb (Z.eqb x) seen.
Proof.
  induction seen as [|z zs IH]; simpl; [reflexivity|]. rewrite IH. f_equal.
  destruct (Z.eqb_spec x z) as [->|Hne].
  - apply String.eqb_refl.
  - apply String.eqb_neq. intros H. now apply String_of_number_inj in H.
Qed.

Lemma existsb_eqb_In x seen : existsb (Z.eqb x) seen = true <-> In x seen.
Proof.
  rewrite existsb_exists. split.
  - intros [y [Hy E]]. apply Z.eqb_eq in E. now subst.
  - intros H. exists x. split; [exact H | apply Z.eqb_refl].
Qed.

Lemma dedup_from_first seen l x :
  In x (dedup_from (map JS.String_of_number seen) l) ->
  ~ In (item__id x) seen /\
  find (fun y => Z.eqb (item__id y) (item__id x)) l = Some x.
Proof.
  revert seen. induction l as [|item r IH]; intros seen; simpl; [tauto|].
  rewrite seen_mem.
  destruct (existsb (Z.eqb (item__id item)) seen) eqn:E.
  - intros H. destruct (IH _ H) as [Hn Hf]. split; [exact Hn|].
    destruct (Z.eqb_spec (item__id item) (item__id x)) as [Heq|_]; [|exact Hf].
    exfalso. apply Hn. rewrite <- Heq. now apply existsb_eqb_In.
  - change (JS.String_of_number (item__id item) :: map JS.String_of_number seen)
      with (map JS.String_of_number (item__id item :: seen)).
    intros [<-|H].
    + rewrite Z.eqb_refl. split; [|reflexivity].
      intros Hin. apply existsb_eqb_In in Hin. congruence.
    + destruct (IH _ H) as [Hn Hf]. split.
      * intros Hin. apply Hn. now right.
      * destruct (Z.eqb_spec (item__id item) (item__id x)) as [Heq|_]; [|exact Hf].
        exfalso. apply Hn. now left.
Qed.

Lemma dedup_from_covers seen l x :
  In x l -> ~ In (item__id x) seen ->
  exists y, In y (dedup_from (map JS.String_of_number seen) l) /\
            item__id y = item__id x.
Proof.
  revert seen. induction l as [|item r IH]; intros seen; simpl; [tauto|].
  rewrite seen_mem. intros Hin Hn.
  destruct (existsb (Z.eqb (item__id item)) seen) eqn:E.
  - destruct Hin as [->|Hin]; [|now apply IH].
    exfalso. apply Hn. now apply existsb_eqb_In.
  - change (JS.String_of_number (item__id item) :: map JS.String_of_number seen)
      with (map JS.String_of_number (item__id item :: seen)).
    destruct (Z.eq_dec (item__id item) (item__id x)) as [Heq|Hne].
    + exists item. split; [now left | exact Heq].
    + destruct Hin as [->|Hin]; [congruence|].
      destruct (IH (item__id item :: seen) Hin) as [y [Hy Hid]].
      { intros [H|H]; [congruence | now apply Hn]. }
      exists y. split; [now right | exact Hid].
Qed.

Lemma dedup_from_distinct seen l :
  NoDup (ids l) -> (forall x, In x l -> ~ In (item__id x) seen) ->
  dedup_from (map JS.String_of_number seen) l = l.
Proof.
  revert seen. induction l as [|item r IH]; intros seen Hnd Hs; simpl; [reflexivity|].
  rewrite seen_mem.
  destruct (existsb (Z.eqb (item__id item)) seen) eqn:E.
  - exfalso. apply (Hs item); [now left | now apply existsb_eqb_In].
  - f_equal.
    change (JS.String_of_number (item__id item) :: map JS.String_of_number seen)
      with (map JS.String_of_number (item__id item :: seen)).
    simpl in Hnd. inversion Hnd as [|? ? Hnotin Hnd']. subst.
    apply IH; [exact Hnd'|].
    intros x Hx [Heq|Hin].
    + apply Hnotin. rewrite Heq. unfold ids. now apply in_map.
    + apply (Hs x); [now right | exact Hin].
Qed.

(** X8.  Deduplication keeps, for every id, the first result of the list
    that has it, as it stands: no id is left twice, every id of the list
    is still there, and a result that is kept is the first one of the
    list with its id.  A list without a repeated id is returned as it
    is, so that deduplicating twice changes nothing. *)
Theorem deduplicate_keeps_first l :
  NoDup (ids (deduplicateResults l)) /\
  (forall x, In x (deduplicateResults l) ->
     find (fun y => Z.eqb (item__id y) (item__id x)) l = Some x) /\
  (forall x, In x l ->
     exists y, In y (deduplicateResults l) /\ item__id y = item__id x) /\
  (NoDup (ids l) -> deduplicateResults l = l) /\
  deduplicateResults (deduplicateResults l) = deduplicateResults l.
Proof.
  assert (Hnd : NoDup (ids (deduplicateResults l))).
  { rewrite deduplicateResults_ids. apply first_occurrences_NoDup. }
  assert (Hid : forall l', NoDup (ids l') -> deduplicateResults l' = l').
  { intros l' H. apply (@dedup_from_distinct [] l' H). intros x _ []. }
  split; [exact Hnd|]. split; [|split; [|split]].
  - intros x Hx. now apply (@dedup_from_first [] l x).
  - intros x Hx. apply (@dedup_from_covers [] l x Hx). intros [].
  - apply Hid.
  - apply Hid, Hnd.
Qed.

Lemma deduplicate_keeps_first_witness :
  let a := Demo.interface 5 "first" "/a" [] in
  let b := Demo.interface 7 "other" "/b" [] in
  let c := Demo.interface 5 "second" "/c" [] in
  deduplicateResults [a; b; c] = [a; b] /\
  find (fun y => Z.eqb (item__id y) 5) [a; b; c] = Some a /\
  deduplicateResults [a; b] = [a; b].
Proof.
  intros a b c.
  assert (E : deduplicateResults [a; b; c] = [a; b]) by reflexivity.
  split; [exact E|]. split.
  - apply (proj1 (proj2 (deduplicate_keeps_first [a; b; c])) a).
    rewrite E. now left.
  - apply (proj1 (proj2 (proj2 (proj2 (deduplicate_keeps_first [a; b]))))).
    vm_compute. repeat constructor; simpl; intuition discriminate.
Defined.

(** ** The projects of a search *)

Lemma length_firstn_le A n (l : list A) : (List.length (firstn n l) <= n)%nat.
Proof. rewrite length_firstn. lia. Qed.

(** X9.  The projects a search looks into are projects of the map, in
    the order of the map: a prefix of a filtered part of them.  For a
    bound [maxProjects] that is not negative (5 when it
    is left out) there are at most that many; and when there is no
    project keyword, or a blank one, and the map holds no more projects
    than the bound, they are all the projects of the map. *)
Theorem select_projects_bounded options cached :
  let bound := or_default (maxProjects options) 5%Z in
  (exists test n, select_projects options cached = firstn n (filter test cached)) /\
  ((0 <= bound)%Z ->
   (List.length (select_projects options cached) <= Z.to_nat bound)%nat) /\
  ((Z.of_nat (List.length cached) <= bound)%Z ->
   or_default (option_map JS.trim (projectKeyword options)) EmptyString = EmptyString ->
   select_projects options cached = cached).
Proof.
  intros bound. unfold select_projects. fold bound.
  set (projects := match projectKeyword options with
                   | Some pk =>
                       if (JS.truthy pk && JS.truthy (JS.trim pk))%bool
                       then filter (project_matches (JS.toLowerCase (JS.trim pk))) cached
                       else cached
                   | None => cached
                   end).
  assert (Hf : exists test, projects = filter test cached).
  { assert (Hall : cached = filter (fun _ => true) cached).
    { clear. induction cached as [|x r IH]; simpl; [reflexivity | now f_equal]. }
    subst projects. destruct (projectKeyword options) as [pk|];
      [|now exists (fun _ => true)].
    destruct (JS.truthy pk && JS.truthy (JS.trim pk))%bool;
      [eexists; reflexivity | now exists (fun _ => true)]. }
  split; [|split].
  - destruct Hf as [test Hf]. exists test. rewrite <- Hf.
    destruct (Z.of_nat (List.length projects) >? bound)%Z.
    + apply slice0_firstn.
    + exists (List.length projects). now rewrite firstn_all.
  - intros Hb. destruct (Z.of_nat (List.length projects) >? bound)%Z eqn:E.
    + rewrite slice0_nonneg by exact Hb. apply length_firstn_le.
    + rewrite Z.gtb_ltb in E. apply Z.ltb_ge in E. lia.
  - intros Hlen Hblank.
    assert (Hp : projects = cached).
    { subst projects. destruct (projectKeyword options) as [pk|]; [|reflexivity].
      simpl in Hblank. rewrite Hblank. simpl. now rewrite andb_false_r. }
    rewrite Hp.
    destruct (Z.of_nat (List.length cached) >? bound)%Z eqn:E; [|reflexivity].
    apply Z.gtb_lt in E. lia.
Qed.

Lemma select_projects_bounded_witness :
  let a := mkProjectInfo 10 "Shop" "web shop" "/" 1 in
  let b := mkProjectInfo 20 "Office" "back office" "/" 1 in
  let c := mkProjectInfo 30 "Shop admin" EmptyString "/" 1 in
  let options := mkSearchOptions (Some " SHOP ") KwUndefined KwUndefined KwUndefined
                   None None (Some 1%Z) in
  select_projects options [a; b; c] = [a] /\
  (List.length (select_projects options [a; b; c]) <= 1)%nat /\
  select_projects (Demo.everything None) [a; b; c] = [a; b; c].
Proof.
  intros a b c options. split; [reflexivity|]. split.
  - apply (proj1 (proj2 (select_projects_bounded options [a; b; c]))).
    simpl. lia.
  - apply (proj2 (proj2 (select_projects_bounded (Demo.everything None) [a; b; c]))).
    + simpl. lia.
    + reflexivity.
Defined.

(** ** Where the results of a search come from *)

Lemma Forall2_In_right A B (P : A -> B -> Prop) l l' y :
  Forall2 P l l' -> In y l' -> exists x, In x l /\ P x y.
Proof.
  induction 1 as [|a b l l' Hab _ IH]; simpl; [tauto|].
  intros [<-|H].
  - exists a. auto.
  - destruct (IH H) as [x [Hx Hp]]. exists x. auto.
Qed.

Lemma dedup_from_In seen l x : In x (dedup_from seen l) -> In x l.
Proof.
  revert seen. induction l as [|item r IH]; intros seen; simpl; [tauto|].
  destruct (existsb (String.eqb (JS.String_of_number (item__id item))) seen).
  - intros H. right. eapply IH, H.
  - intros [H|H]; [now left | right; eapply IH, H].
Qed.

Lemma plan_In options projects f :
  In f (plan options projects) <->
  In (fst f) projects /\ In (snd f) (combinations options).
Proof.
  unfold plan. rewrite in_flat_map. split.
  - intros [p [Hp Hf]]. apply in_map_iff in Hf. destruct Hf as [q [<- Hq]]. auto.
  - intros [Hp Hq]. exists (fst f). split; [exact Hp|].
    apply in_map_iff. exists (snd f). now destruct f.
Qed.

Lemma flatten_menu_flat_map menuData :
  flatten_menu menuData
  = flat_map (fun category =>
                match menu_list category with
                | Some l => map (with_cat_info category) l
                | None => []
                end) menuData.
Proof.
  unfold flatten_menu.
  assert (H : forall acc,
             fold_left
               (fun allInterfaces category =>
                  match menu_list category with
                  | Some l => allInterfaces ++ map (with_cat_info category) l
                  | None => allInterfaces
                  end) menuData acc
             = acc ++ flat_map (fun category =>
                                  match menu_list category with
                                  | Some l => map (with_cat_info category) l
                                  | None => []
                                  end) menuData).
  { induction menuData as [|c r IH]; intros acc; simpl.
    - now rewrite List.app_nil_r.
    - rewrite IH. destruct (menu_list c); [now rewrite <- List.app_assoc | reflexivity]. }
  apply (H []).
Qed.

Lemma filter_by_name_In q items x : In x (filter_by_name q items) -> In x items.
Proof.
  unfold filter_by_name. destruct (q_keyword q) as [k|]; [|auto].
  destruct (JS.truthy k); [|auto]. intros H. now apply filter_In in H.
Qed.

Lemma filter_by_path_In q items x : In x (filter_by_path q items) -> In x items.
Proof.
  unfold filter_by_path. destruct (q_path q) as [k|]; [|auto].
  destruct (JS.truthy k); [|auto]. intros H. now apply filter_In in H.
Qed.

Lemma filter__In A (test : A -> option bool) xs l x :
  filter_ test xs = Some l -> In x l -> In x xs.
Proof.
  revert l. induction xs as [|a r IH]; intros l; simpl.
  - intros H. injection H as <-. tauto.
  - destruct (test a) as [b|]; [|discriminate].
    destruct (filter_ test r) as [l'|]; [|discriminate].
    intros H. injection H as <-. destruct b; simpl.
    + intros [H|H]; [now left | right; now apply (IH l')].
    + intros H. right. now apply (IH l').
Qed.

Lemma filter_by_tag_In q items x : In x (filter_by_tag q items) -> In x items.
Proof.
  unfold filter_by_tag. destruct (q_tag q) as [[|t ts]|]; auto.
  destruct (try_filter_by_tag (t :: ts) items) as [l|] eqn:E; [|auto].
  unfold try_filter_by_tag in E. intros H. eapply filter__In; eauto.
Qed.

Lemma search_menu_In q menuData x :
  In x (search_menu q menuData) ->
  exists category l api,
    In category menuData /\ menu_list category = Some l /\ In api l /\
    x = with_cat_info category api.
Proof.
  unfold search_menu. intros H.
  apply (Permutation_in _ (sort_by_id_desc_perm _)) in H.
  apply filter_by_tag_In, filter_by_path_In, filter_by_name_In in H.
  rewrite flatten_menu_flat_map in H. apply in_flat_map in H.
  destruct H as [category [Hc Hx]].
  destruct (menu_list category) as [l|] eqn:E; [|contradiction].
  apply in_map_iff in Hx. destruct Hx as [api [<- Hapi]].
  exists category, l, api. auto.
Qed.

(** X10.  Every result a search returns comes from the menu of one of
    the projects it looked into: it is an interface of a category of
    that menu, with its id, title, path, method and tags as in the menu,
    the id of that category as its category id, and the name of the
    project joined in. *)
Theorem search_results_come_from_menus remote options s :
  exists page s',
    searchApis remote options s = (inr page, s') /\
    forall r, In r (results page) ->
      exists project menuData category l api,
        In project (candidates remote options s) /\
        menu_of remote (svc (now s)) (JS.String_of_number (project__id project))
        = Some menuData /\
        In category menuData /\ menu_list category = Some l /\ In api l /\
        item__id r = item__id api /\ item_title r = item_title api /\
        item_path r = item_path api /\ item_method r = item_method api /\
        item_tag r = item_tag api /\
        item_catid r = Some (menu__id category) /\
        item_project_name r = Some (project_name project).
Proof.
  destruct (searchApis_run remote options s) as [all [s' [E [Hall _]]]].
  eexists. exists s'. split; [exact E|]. simpl. intros r Hr.
  destruct (slice0_firstn (deduplicateResults all)
              (or_default (limit options) 20%Z)) as [n En].
  rewrite En in Hr. apply In_firstn in Hr. apply dedup_from_In in Hr.
  destruct (@Forall2_In_right _ _ _ _ _ _ Hall Hr) as [[project item] [Hx Hj]].
  apply in_concat in Hx. destruct Hx as [xs [Hxs Hx]].
  apply in_map_iff in Hxs. destruct Hxs as [f [<- Hf]].
  apply plan_In in Hf. destruct Hf as [Hp _].
  unfold fetched_by in Hx. apply in_map_iff in Hx.
  destruct Hx as [item' [Heq Hitem]]. injection Heq as Hpf <-.
  unfold fetched, fetch_project in Hitem. rewrite Hpf in *.
  destruct (menu_of remote (svc (now s)) (JS.String_of_number (project__id project)))
    as [menuData|] eqn:Em; [|contradiction].
  destruct (search_menu_In _ _ _ Hitem) as [category [l [api [Hc [Hl [Ha ->]]]]]].
  simpl in Hj. destruct Hj as [J1 [J2 [J3 [J4 [J5 [J6 [J7 J8]]]]]]]. simpl in *.
  exists project, menuData, category, l, api. repeat split; assumption.
Qed.

Lemma search_results_come_from_menus_witness :
  exists page s' r project,
    searchApis Demo.remote (Demo.by_name ["login"] None) (at_rest Demo.service)
    = (inr page, s') /\
    In r (results page) /\
    In project (candidates Demo.remote (Demo.by_name ["login"] None)
                  (at_rest Demo.service)) /\
    item_project_name r = Some (project_name project).
Proof.
  destruct (search_results_come_from_menus Demo.remote (Demo.by_name ["login"] None)
              (at_rest Demo.service)) as [page [s' [E H]]].
  assert (Hr : exists r, In r (results page)).
  { pose proof E as E'. vm_compute in E'. injection E' as <- _.
    eexists. left. reflexivity. }
  destruct Hr as [r Hr].
  destruct (H r Hr) as [project [menuData [category [l [api [Hp H']]]]]].
  exists page, s', r, project. split; [exact E|]. split; [exact Hr|].
  split; [exact Hp|]. apply H'.
Defined.

(** ** The requests of a search *)

Lemma or_blank_length ks :
  List.length (or_blank ks) = Nat.max 1 (List.length ks).
Proof. destruct ks as [|k [|k' r]]; reflexivity. Qed.

Lemma flat_map_length_const A B (f : A -> list B) n l :
  (forall x, List.length (f x) = n) ->
  List.length (flat_map f l) = (List.length l * n)%nat.
Proof.
  intros H. induction l as [|x r IH]; simpl; [reflexivity|].
  now rewrite length_app, H, IH.
Qed.

Lemma combinations_length options :
  List.length (combinations options)
  = (Nat.max 1 (List.length (keywords_of (nameKeyword options)))
     * (Nat.max 1 (List.length (keywords_of (pathKeyword options)))
        * Nat.max 1 (List.length (keywords_of (tagKeyword options)))))%nat.
Proof.
  unfold combinations.
  rewrite (@flat_map_length_const _ _ _
             (Nat.max 1 (List.length (keywords_of (pathKeyword options)))
              * Nat.max 1 (List.length (keywords_of (tagKeyword options))))%nat).
  - now rewrite or_blank_length.
  - intros n.
    rewrite (@flat_map_length_const _ _ _
               (Nat.max 1 (List.length (keywords_of (tagKeyword options))))).
    + now rewrite or_blank_length.
    + intros p. now rewrite length_map, or_blank_length.
Qed.

Lemma plan_length options projects :
  List.length (plan options projects)
  = (List.length projects * List.length (combinations options))%nat.
Proof.
  unfold plan. apply flat_map_length_const. intros p. apply length_map.
Qed.

Lemma concat_length_le A B (g : A -> list B) l :
  (forall x, (List.length (g x) <= 1)%nat) ->
  (List.length (List.concat (map g l)) <= List.length l)%nat.
Proof.
  intros H. induction l as [|x r IH]; simpl; [lia|].
  rewrite length_app. specialize (H x). lia.
Qed.

Lemma concat_length_eq A B (g : A -> list B) l :
  (forall x, In x l -> List.length (g x) = 1%nat) ->
  List.length (List.concat (map g l)) = List.length l.
Proof.
  intros H. induction l as [|x r IH]; simpl; [reflexivity|].
  rewrite length_app, (H x) by now left. rewrite IH; [reflexivity|].
  intros y Hy. apply H. now right.
Qed.

Lemma menu_request_of_length v f : (List.length (menu_request_of v f) <= 1)%nat.
Proof. unfold menu_request_of. destruct (JS.truthy _); simpl; lia. Qed.

(** What a search returns and sends, in numbers. *)
Lemma searchApis_bounds remote options s :
  let projects := candidates remote options s in
  let shown := or_default (limit options) 20%Z in
  exists page s' sent,
    searchApis remote options s = (inr page, s') /\
    same_tokens (svc (now s)) (svc (now s')) /\
    (List.length (results page) <= total page)%nat /\
    ((0 <= shown)%Z -> (List.length (results page) <= Z.to_nat shown)%nat) /\
    menu_requests (now s') = menu_requests (now s) ++ sent /\
    sent = List.concat (map (menu_request_of (svc (now s))) (plan options projects)) /\
    (List.length sent
     <= List.length projects * List.length (combinations options))%nat.
Proof.
  intros projects shown.
  destruct (searchApis_run remote options s) as [all [s' [E [_ [Ht Hm]]]]].
  eexists. exists s'. eexists. split; [exact E|]. simpl.
  split; [exact Ht|]. split; [|split; [|split; [exact Hm|split; [reflexivity|]]]].
  - destruct (slice0_firstn (deduplicateResults all)
                (or_default (limit options) 20%Z)) as [n ->].
    rewrite length_firstn. lia.
  - intros H. fold shown. rewrite slice0_nonneg by exact H.
    rewrite length_firstn. lia.
  - rewrite <- plan_length. apply concat_length_le. apply menu_request_of_length.
Qed.

(** X11.  A search does not change the credentials.  Whatever its
    outcome, the menu requests it has sent are GET requests for the
    menu of a project it looks into, with the token of that project, at
    most one for each project and each combination of a name keyword, a
    path keyword and a tag keyword (a missing kind counts as one).
    When the search returns a page and every project has a token, there
    is exactly one request for each project and combination: the menu is
    fetched again for each combination. *)
Theorem search_fetches_menu_per_combination remote options s r s' :
  let v := svc (now s) in
  let projects := candidates remote options s in
  let combos :=
    (Nat.max 1 (List.length (keywords_of (nameKeyword options)))
     * (Nat.max 1 (List.length (keywords_of (pathKeyword options)))
        * Nat.max 1 (List.length (keywords_of (tagKeyword options)))))%nat in
  searchApis remote options s = (r, s') ->
  same_tokens v (svc (now s')) /\
  exists sent,
    menu_requests (now s') = menu_requests (now s) ++ sent /\
    (List.length sent <= List.length projects * combos)%nat /\
    (forall req, In req sent ->
       exists project,
         In project projects /\
         req = mkRequest GET ListMenu
                 (ByProject (JS.String_of_number (project__id project)))
                 (token_for v (JS.String_of_number (project__id project)))) /\
    ((exists page, r = inr page) ->
     (forall project, In project projects ->
        JS.truthy (token_for v (JS.String_of_number (project__id project))) = true) ->
     List.length sent = (List.length projects * combos)%nat).
Proof.
  intros v projects combos Hrun.
  destruct (searchApis_bounds remote options s)
    as [page [s2 [sent [E [Ht [_ [_ [Hm [Hs Hl]]]]]]]]].
  rewrite E in Hrun. injection Hrun as <- <-.
  fold projects in Hs, Hl. fold v in Hs, Ht.
  split; [exact Ht|]. exists sent.
  split; [exact Hm|]. rewrite combinations_length in Hl. fold combos in Hl.
  split; [exact Hl|]. split.
  - intros req Hr. rewrite Hs in Hr. apply in_concat in Hr.
    destruct Hr as [rs [Hrs Hr]]. apply in_map_iff in Hrs.
    destruct Hrs as [f [<- Hf]]. apply plan_In in Hf. destruct Hf as [Hp _].
    exists (fst f). split; [exact Hp|].
    unfold menu_request_of, fetch_project in Hr.
    destruct (JS.truthy _); [|contradiction].
    destruct Hr as [<-|[]]. reflexivity.
  - intros _ Hall. rewrite Hs. rewrite concat_length_eq.
    + rewrite plan_length, combinations_length. reflexivity.
    + intros f Hf. apply plan_In in Hf. destruct Hf as [Hp _].
      unfold menu_request_of, fetch_project. now rewrite (Hall _ Hp).
Qed.

Lemma search_fetches_menu_per_combination_witness :
  let options :=
    mkSearchOptions None (KwArray ["login"; "logout"]) (KwString "/user")
      KwUndefined None None None in
  exists sent,
    menu_requests (now (snd (searchApis Demo.remote options (at_rest Demo.service))))
    = sent /\
    List.length sent = 4%nat.
Proof.
  intros options.
  destruct (searchApis Demo.remote options (at_rest Demo.service)) as [r s'] eqn:E.
  destruct (@search_fetches_menu_per_combination Demo.remote options
              (at_rest Demo.service) r s' E) as [_ [sent [Hm [_ [_ Hall]]]]].
  exists sent. split; [exact Hm|].
  rewrite Hall; [reflexivity| |].
  - pose proof E as E'. vm_compute in E'. injection E' as <- _. eexists. reflexivity.
  - intros project Hin. vm_compute in Hin.
    destruct Hin as [<-|[<-|[]]]; reflexivity.
Defined.

(** ** The search tools *)

Lemma select_projects_length options cached :
  (0 <= or_default (maxProjects options) 5%Z)%Z ->
  (List.length (select_projects options cached)
   <= Z.to_nat (or_default (maxProjects options) 5%Z))%nat.
Proof.
  intros Hb. unfold select_projects.
  match goal with
  | |- context [if ?c then _ else _] => destruct c eqn:E
  end.
  - rewrite slice0_nonneg by exact Hb. rewrite length_firstn. lia.
  - rewrite Z.gtb_ltb in E. apply Z.ltb_ge in E. lia.
Qed.

Lemma or_number_nonzero o d : d <> 0%Z -> or_number o d <> 0%Z.
Proof.
  intros Hd. unfold or_number. destruct o as [n|]; [|exact Hd].
  destruct (Z.eqb_spec n 0); congruence.
Qed.

Lemma search_tool_bounds remote options s :
  maxProjects options = Some 5%Z ->
  List.length (combinations options) = 1%nat ->
  exists page s',
    searchApis remote options s = (inr page, s') /\
    (List.length (results page) <= total page)%nat /\
    ((0 <= or_default (limit options) 20%Z)%Z ->
     (List.length (results page)
      <= Z.to_nat (or_default (limit options) 20%Z))%nat) /\
    (List.length (menu_requests (now s'))
     <= List.length (menu_requests (now s)) + 5)%nat.
Proof.
  intros Hmax Hc.
  destruct (searchApis_bounds remote options s)
    as [page [s' [sent [E [_ [H1 [H2 [Hm [_ Hl]]]]]]]]].
  exists page, s'. split; [exact E|]. split; [exact H1|]. split; [exact H2|].
  rewrite Hm, length_app. rewrite Hc in Hl.
  pose proof (@select_projects_length options
                (JS.Map.values (projectInfoCache
                   (svc (now (snd (loadAllProjectInfo remote s))))))) as Hp.
  rewrite Hmax in Hp. simpl in Hp. unfold candidates in Hl.
  specialize (Hp ltac:(lia)). lia.
Qed.

(** X12.  The two search tools never throw.  Each makes one search, with
    a limit that is never 0 - a limit that is left out or is 0 becomes
    20 - and answers from its outcome: with the text formatted from the
    page the search returns, with the error text when the formatting
    throws, and with the error text when the search throws.  One call
    looks into 5 projects at most: it sends at most 5 menu requests.
    The list of a page the search returns is no longer than its total,
    and no longer than the limit when the limit is positive. *)
Theorem search_tools_answer remote format keyword projectKeyword limit s :
  let shown := or_number limit 20%Z in
  shown <> 0%Z /\
  (forall r s',
     searchApisByName remote keyword projectKeyword None (Some shown) None s
     = (r, s') ->
     yapi_search_by_name remote format keyword projectKeyword limit s
     = (inr match r with
            | inr page =>
                match format page (NameCondition keyword) projectKeyword with
                | inr text => SearchResults text
                | inl e => SearchFailed e
                end
            | inl e => SearchFailed e
            end, s') /\
     (List.length (menu_requests (now s'))
      <= List.length (menu_requests (now s)) + 5)%nat /\
     forall page, r = inr page ->
       (List.length (results page) <= total page)%nat /\
       ((0 <= shown)%Z -> (List.length (results page) <= Z.to_nat shown)%nat)) /\
  (forall r s',
     searchApisByPath remote keyword projectKeyword None (Some shown) None s
     = (r, s') ->
     yapi_search_by_path remote format keyword projectKeyword limit s
     = (inr match r with
            | inr page =>
                match format page (PathCondition keyword) projectKeyword with
                | inr text => SearchResults text
                | inl e => SearchFailed e
                end
            | inl e => SearchFailed e
            end, s') /\
     (List.length (menu_requests (now s'))
      <= List.length (menu_requests (now s)) + 5)%nat /\
     forall page, r = inr page ->
       (List.length (results page) <= total page)%nat /\
       ((0 <= shown)%Z -> (List.length (results page) <= Z.to_nat shown)%nat)).
Proof.
  intros shown. split; [now apply or_number_nonzero|]. split.
  - intros r s' Hrun. split; [|split].
    + unfold yapi_search_by_name, try_catch, bind. fold shown. rewrite Hrun.
      destruct r as [e|page]; [reflexivity|].
      now destruct (format page (NameCondition keyword) projectKeyword).
    + unfold searchApisByName in Hrun.
      match type of Hrun with
      | searchApis remote ?o s = _ =>
          destruct (@search_tool_bounds remote o s eq_refl eq_refl)
            as [page [s2 [E [_ [_ H]]]]]
      end.
      rewrite E in Hrun. now injection Hrun as _ <-.
    + intros page ->. unfold searchApisByName in Hrun.
      match type of Hrun with
      | searchApis remote ?o s = _ =>
          destruct (@search_tool_bounds remote o s eq_refl eq_refl)
            as [page' [s2 [E [H1 [H2 _]]]]]
      end.
      rewrite E in Hrun. injection Hrun as <- _. split; [exact H1 | exact H2].
  - intros r s' Hrun. split; [|split].
    + unfold yapi_search_by_path, try_catch, bind. fold shown. rewrite Hrun.
      destruct r as [e|page]; [reflexivity|].
      now destruct (format page (PathCondition keyword) projectKeyword).
    + unfold searchApisByPath in Hrun.
      match type of Hrun with
      | searchApis remote ?o s = _ =>
          destruct (@search_tool_bounds remote o s eq_refl eq_refl)
            as [page [s2 [E [_ [_ H]]]]]
      end.
      rewrite E in Hrun. now injection Hrun as _ <-.
    + intros page ->. unfold searchApisByPath in Hrun.
      match type of Hrun with
      | searchApis remote ?o s = _ =>
          destruct (@search_tool_bounds remote o s eq_refl eq_refl)
            as [page' [s2 [E [H1 [H2 _]]]]]
      end.
      rewrite E in Hrun. injection Hrun as <- _. split; [exact H1 | exact H2].
Qed.

Lemma search_tools_answer_witness :
  let format := fun (page : SearchPage) (_ : SearchCondition) (_ : option string) =>
                  if Nat.eqb (total page) 0
                  then inl (ErrSyntax "nothing") else @inr Err string "found" in
  fst (yapi_search_by_name Demo.remote format "log" None (Some 0%Z)
         (at_rest Demo.service))
  = inr (SearchResults "found") /\
  exists page s',
    searchApisByName Demo.remote "log" None None (Some 20%Z) None
      (at_rest Demo.service)
    = (inr page, s') /\
    (List.length (results page) <= 20)%nat.
Proof.
  intros format.
  destruct (searchApisByName Demo.remote "log" None None (Some 20%Z) None
              (at_rest Demo.service)) as [r s'] eqn:E.
  destruct (search_tools_answer Demo.remote format "log" None (Some 0%Z)
              (at_rest Demo.service)) as [_ [H _]].
  destruct (H r s' E) as [Et [_ Hb]].
  assert (Er : exists page, r = inr page /\ total page = 3%nat).
  { pose proof E as E'. vm_compute in E'. injection E' as <- _.
    eexists. split; reflexivity. }
  destruct Er as [page [-> Hp]].
  split.
  - rewrite Et. simpl. unfold format. now rewrite Hp.
  - exists page, s'. split; [reflexivity|].
    apply (proj2 (Hb page eq_refl)). simpl. lia.
Defined.

(** ** The answers of the save tool *)

Lemma app_one_neq A (l : list A) x : l ++ [x] <> l.
Proof.
  intros H. apply (f_equal (@List.length A)) in H.
  rewrite length_app in H. simpl in H. lia.
Qed.

Lemma endpoint_for_id a :
  endpoint_for a = match a_id a with
                   | Some (String _ _) => InterfaceUp
                   | _ => InterfaceAdd
                   end.
Proof. unfold endpoint_for, id_given. now destruct (a_id a) as [[|c r]|]. Qed.

Lemma id_given_id a :
  id_given a = match a_id a with
               | Some (String _ _) => true
               | _ => false
               end.
Proof. unfold id_given. now destruct (a_id a) as [[|c r]|]. Qed.

(** X13.  The save tool never throws: every call answers with a text.
    It leaves the service object, its maps included, and the persisted
    snapshot as they are.  It sends nothing, or exactly one request: a
    POST to the create endpoint (no id, or an empty one) or to the
    update endpoint (a non-empty id), with the non-empty token of the
    project of its arguments and with the parameters made from its
    arguments field by field: the status [undone] and an empty
    description when these are not given, the tag list and the four
    JSON-encoded fields decoded, the other texts left out when empty.
    An answer that the interface was saved is only given after such a
    request. *)
Theorem save_tool_always_answers remote JSON_parse a s :
  let token := token_for (svc (now s)) (a_projectId a) in
  exists reply s',
    yapi_save_api remote JSON_parse a s = (inr reply, s') /\
    svc (now s') = svc (now s) /\
    persisted (now s') = persisted (now s) /\
    in_flight s' = in_flight s /\
    (requests (now s') = requests (now s) \/
     exists params,
       posted_for JSON_parse a params /\
       JS.truthy token = true /\
       requests (now s')
       = requests (now s)
         ++ [mkRequest POST
               match a_id a with
               | Some (String _ _) => InterfaceUp
               | _ => InterfaceAdd
               end
               (Save params) token]) /\
    (forall isUpdate id title method path,
       reply = Saved isUpdate id title method path ->
       requests (now s') <> requests (now s)).
Proof.
  intros token.
  destruct (yapi_save_api_outcome remote JSON_parse a s)
    as [[text [msg [_ [_ [_ E]]]]]|[[f [msg [_ E]]]|[params [Hpost E]]]].
  - eexists. exists s. split; [exact E|]. repeat split; auto. discriminate.
  - eexists. exists s. split; [exact E|]. repeat split; auto. discriminate.
  - rewrite E. pose proof (saveInterface_await remote params s) as Hw.
    cbv zeta in Hw. pose proof Hpost as [Hp [_ [Hi _]]].
    rewrite Hp, Hi in Hw.
    replace (if JS.truthy_opt (given (a_id a)) then InterfaceUp else InterfaceAdd)
      with (match a_id a with
            | Some (String _ _) => InterfaceUp
            | _ => InterfaceAdd
            end) in Hw by (now destruct (a_id a) as [[|c r]|]).
    fold token in Hw.
    destruct (JS.truthy token) eqn:Ht; rewrite Hw.
    + simpl fst. simpl snd.
      match goal with
      | |- context [match ?x with inl _ => _ | inr _ => _ end] =>
          destruct x as [e|response]
      end;
        (eexists; eexists; split; [reflexivity|]; simpl;
         repeat split; [|intros; apply app_one_neq];
         right; exists params; auto).
    + exists (SaveError ErrComm), s. split; [reflexivity|]. repeat split; auto.
      discriminate.
Qed.

Lemma save_tool_always_answers_witness :
  exists s',
    yapi_save_api Demo.remote JSON.parse (Demo.save_args None None None)
      (at_rest Demo.service)
    = (inr (Saved false 77 "Ping" "GET" "/ping"), s') /\
    requests (now s') <> requests (now (at_rest Demo.service)).
Proof.
  destruct (save_tool_always_answers Demo.remote JSON.parse
              (Demo.save_args None None None) (at_rest Demo.service))
    as [reply [s' [E [_ [_ [_ [_ H]]]]]]].
  assert (Er : reply = Saved false 77 "Ping" "GET" "/ping").
  { pose proof E as E'. vm_compute in E'. now injection E' as <- _. }
  exists s'. split; [now rewrite <- Er|]. eapply H. exact Er.
Defined.

(** X14.  A save call whose texts all decode reports how the request
    went.  Without a token for the project nothing is sent and the
    answer is the save error with the communication error.  With a
    token one request is sent, once, with the parameters made from the
    arguments.  The text of the answer is then: the success with the id
    of the response when its error code is 0; the save error with the
    message of the remote service when the error code is not 0; the
    save error with the communication error when there is no response;
    and on an HTTP error the save error with "[object Object]", which
    shows neither the status nor the message. *)
Theorem save_refusal_is_reported remote JSON_parse a s :
  let endpoint := match a_id a with
                  | Some (String _ _) => InterfaceUp
                  | _ => InterfaceAdd
                  end in
  let token := token_for (svc (now s)) (a_projectId a) in
  tag_decodes JSON_parse a ->
  (forall f msg, ~ field_fails JSON_parse a f msg) ->
  (JS.truthy token = false ->
   yapi_save_api remote JSON_parse a s = (inr (SaveError ErrComm), s)) /\
  (JS.truthy token = true ->
   exists params reply,
     posted_for JSON_parse a params /\
     requests (now (snd (yapi_save_api remote JSON_parse a s)))
     = requests (now s) ++ [mkRequest POST endpoint (Save params) token] /\
     fst (yapi_save_api remote JSON_parse a s) = inr reply /\
     reply_text reply
     = match interface_save remote endpoint params token with
       | Responded body =>
           if Z.eqb (errcode body) 0
           then TextSaved match a_id a with
                          | Some (String _ _) => true
                          | _ => false
                          end (data body) (a_title a) (a_method a) (a_path a)
           else TextSaveError (RenderedError (ErrRemote endpoint (errmsg body)))
       | HttpError _ _ => TextSaveError RenderedObject
       | NoResponse => TextSaveError (RenderedError ErrComm)
       end).
Proof.
  intros endpoint token Htag Hno.
  destruct (@yapi_save_api_sends remote JSON_parse a s Htag Hno)
    as [params [Hpost E]].
  fold token in E. rewrite endpoint_for_id, id_given_id in E. fold endpoint in E.
  split; intros Ht; rewrite Ht in E.
  - exact E.
  - exists params. eexists. split; [exact Hpost|]. rewrite E. simpl.
    split; [reflexivity|]. split; [reflexivity|].
    destruct (interface_save remote endpoint params token) as [body|st msg|];
      try reflexivity.
    now destruct (Z.eqb (errcode body) 0).
Qed.

Lemma save_refusal_is_reported_witness :
  let a := Demo.save_args None (Some "[1]") None in
  tag_decodes JSON.parse a /\
  yapi_save_api Demo.remote JSON.parse (with_tag a (Some "[2]"))
    (at_rest (Credentials.new "http://yapi" "20:def"))
  = (inr (SaveError ErrComm), at_rest (Credentials.new "http://yapi" "20:def")) /\
  exists params,
    requests (now (snd (yapi_save_api Demo.remote JSON.parse a (at_rest Demo.service))))
    = [mkRequest POST InterfaceAdd (Save params) "abc"].
Proof.
  intros a.
  assert (Htag : forall t, tag_decodes JSON.parse (Demo.save_args None (Some t) None) ->
                 forall f msg,
                   ~ field_fails JSON.parse (Demo.save_args None (Some t) None) f msg).
  { intros t _ f msg [text [Hf _]]. destruct f; discriminate Hf. }
  assert (H1 : tag_decodes JSON.parse a) by (intros _; eexists; vm_compute; reflexivity).
  assert (H2 : tag_decodes JSON.parse (with_tag a (Some "[2]")))
    by (intros _; eexists; vm_compute; reflexivity).
  split; [exact H1|]. split.
  - apply (proj1 (@save_refusal_is_reported Demo.remote JSON.parse
                    (with_tag a (Some "[2]"))
                    (at_rest (Credentials.new "http://yapi" "20:def"))
                    H2 (Htag "[2]" H2))).
    reflexivity.
  - destruct (proj2 (@save_refusal_is_reported Demo.remote JSON.parse a
                       (at_rest Demo.service) H1 (Htag "[1]" H1)) eq_refl)
      as [params [reply [_ [Hr _]]]].
    exists params. exact Hr.
Defined.

(** ** The logger *)

Lemma lowerChar_idem c : JS.lowerChar (JS.lowerChar c) = JS.lowerChar c.
Proof. destruct c as [[] [] [] [] [] [] [] []]; reflexivity. Qed.

Lemma toLowerCase_idem s : JS.toLowerCase (JS.toLowerCase s) = JS.toLowerCase s.
Proof.
  induction s as [|c r IH]; simpl; [reflexivity|]. now rewrite lowerChar_idem, IH.
Qed.

Lemma toLowerCase_truthy s : JS.truthy (JS.toLowerCase s) = JS.truthy s.
Proof. now destruct s. Qed.

(** X15.  A logger prints by severity: if it prints debug messages it
    prints information messages, if it prints those it prints warnings,
    and if it prints warnings it prints errors.  Errors are printed at
    every level but [NONE], at which nothing is printed at all. *)
Theorem logger_prints_by_severity (Any : Type) lg (m1 m2 : string)
  (a1 a2 : list Any) :
  (Logger.debug lg m1 a1 <> [] -> Logger.info lg m2 a2 <> []) /\
  (Logger.info lg m1 a1 <> [] -> Logger.warn lg m2 a2 <> []) /\
  (Logger.warn lg m1 a1 <> [] -> Logger.error lg m2 a2 <> []) /\
  (Logger.error lg m1 a1 = [] <-> Logger.logLevel lg = Logger.NONE) /\
  (Logger.logLevel lg = Logger.NONE ->
   Logger.debug lg m1 a1 = [] /\ Logger.info lg m1 a1 = [] /\
   Logger.warn lg m1 a1 = []).
Proof.
  destruct lg as [p l].
  unfold Logger.debug, Logger.info, Logger.warn, Logger.error. simpl.
  destruct l; simpl; repeat split; try congruence; try discriminate.
Qed.

Lemma logger_prints_by_severity_witness :
  let lg := Logger.new "YApiService" (Some (inr "WARN")) in
  Logger.warn lg "w" ([] : list string)
  = [Logger.mkLine Logger.console_warn "[WARN][YApiService] w" []] /\
  Logger.error lg "e" ([] : list string) <> [] /\
  Logger.info lg "i" ([] : list string) = [].
Proof.
  intros lg. split; [reflexivity|]. split; [|reflexivity].
  apply (proj1 (proj2 (proj2
           (logger_prints_by_severity lg "w" "e" ([] : list string) [])))).
  discriminate.
Defined.

(** X16.  The name of a log level is read without regard to case.  A
    name that is none of debug, warn, error and none - the empty name, a
    name with spaces around it, an unknown one - gives the level
    [INFO], as does a level that is not a string. *)
Theorem log_level_names s :
  Logger.getLogLevel (Some (JS.toLowerCase s)) = Logger.getLogLevel (Some s) /\
  (~ In (JS.toLowerCase s) ["debug"; "warn"; "error"; "none"] ->
   Logger.getLogLevel (Some s) = Logger.INFO) /\
  Logger.getLogLevel None = Logger.INFO.
Proof.
  split; [|split; [|reflexivity]].
  - unfold Logger.getLogLevel. now rewrite toLowerCase_truthy, toLowerCase_idem.
  - intros H. unfold Logger.getLogLevel.
    destruct (JS.truthy s); [|reflexivity]. simpl.
    destruct (String.eqb_spec (JS.toLowerCase s) "debug") as [E|_];
      [exfalso; apply H; rewrite E; simpl; tauto|].
    destruct (String.eqb_spec (JS.toLowerCase s) "info") as [_|_]; [reflexivity|].
    destruct (String.eqb_spec (JS.toLowerCase s) "warn") as [E|_];
      [exfalso; apply H; rewrite E; simpl; tauto|].
    destruct (String.eqb_spec (JS.toLowerCase s) "error") as [E|_];
      [exfalso; apply H; rewrite E; simpl; tauto|].
    destruct (String.eqb_spec (JS.toLowerCase s) "none") as [E|_];
      [exfalso; apply H; rewrite E; simpl; tauto|].
    reflexivity.
Qed.

Lemma log_level_names_witness :
  Logger.getLogLevel (Some "Debug") = Logger.DEBUG /\
  Logger.getLogLevel (Some " debug") = Logger.INFO.
Proof.
  split; [reflexivity|].
  apply (proj1 (proj2 (log_level_names " debug"))).
  vm_compute. intuition discriminate.
Defined.

(** ** The configuration *)

Lemma drop_split n s :
  exists head,
    s = String.append head (Config.drop n s) /\
    String.length head = Nat.min n (String.length s).
Proof.
  revert s. induction n as [|n IH]; intros s; simpl.
  - exists EmptyString. split; [reflexivity|]. reflexivity.
  - destruct s as [|c r]; simpl.
    + exists EmptyString. split; reflexivity.
    + destruct (IH r) as [head [H1 H2]]. exists (String c head). simpl.
      split; [now rewrite <- H1 | now rewrite H2].
Qed.

Lemma string_append_length a b :
  String.length (String.append a b) = (String.length a + String.length b)%nat.
Proof. induction a as [|c r IH]; simpl; [reflexivity | now rewrite IH]. Qed.

(** X17.  A masked key is four stars followed by at most four
    characters of the key: nothing of a key of four characters or
    fewer, and exactly the last four characters of a longer one. *)
Theorem maskApiKey_shows_last_four key :
  exists tail,
    Config.maskApiKey key = String.append "****" tail /\
    ((String.length key <= 4)%nat -> tail = EmptyString) /\
    ((4 < String.length key)%nat ->
     String.length tail = 4%nat /\ exists head, key = String.append head tail).
Proof.
  unfold Config.maskApiKey.
  destruct (Nat.leb (String.length key) 4) eqn:E.
  - apply Nat.leb_le in E. exists EmptyString. split; [reflexivity|].
    split; [reflexivity | lia].
  - apply Nat.leb_gt in E. exists (Config.slice_last 4 key).
    split; [reflexivity|]. split; [lia|]. intros _.
    unfold Config.slice_last.
    destruct (drop_split (String.length key - 4) key) as [head [H1 H2]].
    split; [|now exists head].
    apply (f_equal String.length) in H1. rewrite string_append_length in H1. lia.
Qed.

Lemma maskApiKey_shows_last_four_witness :
  Config.maskApiKey "abcdefgh" = "****efgh" /\
  Config.maskApiKey "abcd" = "****" /\
  exists tail,
    Config.maskApiKey "abcdefgh" = String.append "****" tail /\
    String.length tail = 4%nat.
Proof.
  split; [reflexivity|]. split; [reflexivity|].
  destruct (maskApiKey_shows_last_four "abcdefgh") as [tail [E [_ H]]].
  exists tail. split; [exact E|]. apply H. simpl. lia.
Defined.

Ltac config_cases :=
  match goal with
  | |- context [let '(_, _) := ?x in _] =>
      let E1 := fresh "E1" in
      destruct x as [baseUrl baseUrlSource] eqn:E1; cbv iota beta
  end;
  match goal with
  | |- context [let '(_, _) := ?x in _] =>
      let E2 := fresh "E2" in
      destruct x as [token tokenSource] eqn:E2; cbv iota beta
  end;
  match goal with
  | |- context [let '(_, _) := ?x in _] =>
      let E3 := fresh "E3" in
      destruct x as [port portSource] eqn:E3; cbv iota beta
  end;
  match goal with
  | |- context [let '(_, _) := ?x in _] =>
      let E4 := fresh "E4" in
      destruct x as [cacheTTL cacheTTLSource] eqn:E4; cbv iota beta
  end;
  match goal with
  | |- context [let '(_, _) := ?x in _] =>
      let E5 := fresh "E5" in
      destruct x as [logLevel logLevelSource] eqn:E5; cbv iota beta
  end.

(** X18.  The recorded source of every setting tells where its value
    comes from: "cli" is the value of the command line, which then is
    not empty and not zero; "env" is the value of the environment
    variable - as a number for the port and the cache lifetime, trimmed
    and in lower case for the log level - and is only recorded when the
    command line gives no value; "default" is the built-in value. *)
Theorem config_sources_are_honest argv env :
  let c := Config.getServerConfig argv env in
  let src := Config.configSources c in
  match Config.src_yapiBaseUrl src with
  | Config.src_cli =>
      Config.arg_yapi_base_url argv = Some (Config.yapiBaseUrl c) /\
      JS.truthy (Config.yapiBaseUrl c) = true
  | Config.src_env =>
      JS.truthy_opt (Config.arg_yapi_base_url argv) = false /\
      Config.YAPI_BASE_URL env = Some (Config.yapiBaseUrl c)
  | Config.src_default => Config.yapiBaseUrl c = "http://localhost:3000"
  end /\
  match Config.src_yapiToken src with
  | Config.src_cli =>
      Config.arg_yapi_token argv = Some (Config.yapiToken c) /\
      JS.truthy (Config.yapiToken c) = true
  | Config.src_env =>
      JS.truthy_opt (Config.arg_yapi_token argv) = false /\
      Config.YAPI_TOKEN env = Some (Config.yapiToken c)
  | Config.src_default => Config.yapiToken c = EmptyString
  end /\
  match Config.src_port src with
  | Config.src_cli =>
      Config.arg_port argv = Config.port c /\
      Config.port c <> None /\ Config.port c <> Some 0%Z
  | Config.src_env =>
      Config.truthy_number (Config.arg_port argv) = false /\
      exists text, Config.PORT env = Some text /\
                   Config.port c = Config.parseInt text
  | Config.src_default => Config.port c = Some 3388%Z
  end /\
  match Config.src_yapiCacheTTL src with
  | Config.src_cli =>
      Config.arg_yapi_cache_ttl argv = Config.yapiCacheTTL c /\
      Config.yapiCacheTTL c <> None /\ Config.yapiCacheTTL c <> Some 0%Z
  | Config.src_env =>
      Config.truthy_number (Config.arg_yapi_cache_ttl argv) = false /\
      exists text, Config.YAPI_CACHE_TTL env = Some text /\
                   Config.yapiCacheTTL c = Config.parseInt text
  | Config.src_default => Config.yapiCacheTTL c = Some 10%Z
  end /\
  match Config.src_yapiLogLevel src with
  | Config.src_cli =>
      Config.arg_yapi_log_level argv = Some (Config.yapiLogLevel c) /\
      JS.truthy (Config.yapiLogLevel c) = true
  | Config.src_env =>
      JS.truthy_opt (Config.arg_yapi_log_level argv) = false /\
      exists text, Config.YAPI_LOG_LEVEL env = Some text /\
                   Config.yapiLogLevel c = JS.toLowerCase (JS.trim text)
  | Config.src_default => Config.yapiLogLevel c = "info"
  end.
Proof.
  unfold Config.getServerConfig.
  destruct argv as [a1 a2 a3 a4 a5]. destruct env as [e1 e2 e3 e4 e5].
  cbn [Config.arg_yapi_base_url Config.arg_yapi_token Config.arg_port
       Config.arg_yapi_cache_ttl Config.arg_yapi_log_level
       Config.YAPI_BASE_URL Config.YAPI_TOKEN Config.PORT Config.YAPI_CACHE_TTL
       Config.YAPI_LOG_LEVEL].
  config_cases.
  cbn [Config.configSources Config.src_yapiBaseUrl Config.src_yapiToken
       Config.src_port Config.src_yapiCacheTTL Config.src_yapiLogLevel
       Config.yapiBaseUrl Config.yapiToken Config.port Config.yapiCacheTTL
       Config.yapiLogLevel].
  split; [|split; [|split; [|split]]].
  - destruct (JS.truthy_opt a1) eqn:T.
    + injection E1 as <- <-. destruct a1 as [x|]; [auto | discriminate].
    + destruct (JS.truthy_opt e1) eqn:Te; injection E1 as <- <-; [|reflexivity].
      split; [reflexivity|]. destruct e1 as [x|]; [reflexivity | discriminate].
  - destruct (JS.truthy_opt a2) eqn:T.
    + injection E2 as <- <-. destruct a2 as [x|]; [auto | discriminate].
    + destruct (JS.truthy_opt e2) eqn:Te; injection E2 as <- <-; [|reflexivity].
      split; [reflexivity|]. destruct e2 as [x|]; [reflexivity | discriminate].
  - destruct (Config.truthy_number a3) eqn:T.
    + injection E3 as <- <-. destruct a3 as [n|]; [|discriminate].
      simpl in T. destruct (Z.eqb_spec n 0); [discriminate|].
      repeat split; congruence.
    + destruct (JS.truthy_opt e3) eqn:Te; injection E3 as <- <-; [|reflexivity].
      split; [reflexivity|]. destruct e3 as [x|]; [eauto | discriminate].
  - destruct (Config.truthy_number a4) eqn:T.
    + injection E4 as <- <-. destruct a4 as [n|]; [|discriminate].
      simpl in T. destruct (Z.eqb_spec n 0); [discriminate|].
      repeat split; congruence.
    + destruct (JS.truthy_opt e4) eqn:Te; [|injection E4 as <- <-; reflexivity].
      destruct (Config.parseInt (or_default e4 EmptyString)) as [n|] eqn:Ep;
        injection E4 as <- <-; [|reflexivity].
      split; [reflexivity|]. destruct e4 as [x|]; [|discriminate].
      exists x. now rewrite <- Ep.
  - destruct (JS.truthy_opt a5) eqn:T.
    + injection E5 as <- <-. destruct a5 as [x|]; [auto | discriminate].
    + destruct (JS.truthy_opt e5) eqn:Te; [|injection E5 as <- <-; reflexivity].
      match type of E5 with
      | context [if ?b then _ else _] => destruct b
      end; injection E5 as <- <-; [|reflexivity].
      split; [reflexivity|]. destruct e5 as [x|]; [eauto | discriminate].
Qed.

(** X19.  An option given on the command line wins over the
    environment: when every option is given there, with a value that is
    not empty and not zero, the configuration does not depend on the
    environment at all. *)
Theorem command_line_wins argv env env' :
  JS.truthy_opt (Config.arg_yapi_base_url argv) = true ->
  JS.truthy_opt (Config.arg_yapi_token argv) = true ->
  Config.truthy_number (Config.arg_port argv) = true ->
  Config.truthy_number (Config.arg_yapi_cache_ttl argv) = true ->
  JS.truthy_opt (Config.arg_yapi_log_level argv) = true ->
  Config.getServerConfig argv env = Config.getServerConfig argv env' /\
  Config.configSources (Config.getServerConfig argv env)
  = Config.mkConfigSources Config.src_cli Config.src_cli Config.src_cli
      Config.src_cli Config.src_cli.
Proof.
  intros H1 H2 H3 H4 H5. unfold Config.getServerConfig.
  rewrite H1, H2, H3, H4, H5. split; reflexivity.
Qed.

Lemma command_line_wins_witness :
  let argv := Config.mkCliArgs (Some "http://yapi") (Some "10:abc") (Some 8080%Z)
                (Some 30%Z) (Some "debug") in
  Config.getServerConfig argv
    (Config.mkEnv (Some "http://other") None (Some "1") (Some "x") (Some "warn"))
  = Config.getServerConfig argv (Config.mkEnv None None None None None).
Proof.
  intros argv.
  apply (@command_line_wins argv
           (Config.mkEnv (Some "http://other") None (Some "1") (Some "x") (Some "warn"))
           (Config.mkEnv None None None None None));
    reflexivity.
Defined.

(** X20.  The cache lifetime of a configuration is always a number,
    whatever the environment holds.  And when the command line gives a log
    level only among debug, info, warn and error, as [yargs] checks, the
    configured log level is one of these four: a level of the
    environment is taken when, trimmed and in lower case, it is one of
    them, so that a logger made from the configuration always prints
    errors. *)
Theorem config_values_are_usable (Any : Type) argv env prefix m (args : list Any) :
  (forall l, Config.arg_yapi_log_level argv = Some l -> In l Config.validLevels) ->
  let c := Config.getServerConfig argv env in
  Config.yapiCacheTTL c <> None /\
  In (Config.yapiLogLevel c) Config.validLevels /\
  Logger.error (Logger.new prefix (Some (inr (Config.yapiLogLevel c)))) m args <> [].
Proof.
  intros Hcli c.
  assert (H : Config.yapiCacheTTL c <> None /\
              In (Config.yapiLogLevel c) Config.validLevels).
  { subst c. unfold Config.getServerConfig.
    destruct argv as [a1 a2 a3 a4 a5]. destruct env as [e1 e2 e3 e4 e5].
    cbn [Config.arg_yapi_base_url Config.arg_yapi_token Config.arg_port
         Config.arg_yapi_cache_ttl Config.arg_yapi_log_level
         Config.YAPI_BASE_URL Config.YAPI_TOKEN Config.PORT Config.YAPI_CACHE_TTL
         Config.YAPI_LOG_LEVEL] in *.
    config_cases.
    cbn [Config.yapiCacheTTL Config.yapiLogLevel]. split.
    - destruct (Config.truthy_number a4) eqn:T.
      + injection E4 as <- _. now destruct a4.
      + destruct (JS.truthy_opt e4); [|injection E4 as <- _; discriminate].
        destruct (Config.parseInt (or_default e4 EmptyString));
          injection E4 as <- _; discriminate.
    - destruct (JS.truthy_opt a5) eqn:T.
      + injection E5 as <- _. destruct a5 as [l|]; [|discriminate].
        now apply Hcli.
      + destruct (JS.truthy_opt e5); [|injection E5 as <- _; simpl; tauto].
        match type of E5 with
        | context [if ?b then _ else _] => destruct b eqn:Eb
        end; injection E5 as <- _; [|simpl; tauto].
        apply existsb_exists in Eb. destruct Eb as [x [Hx Ex]].
        apply String.eqb_eq in Ex. now rewrite Ex. }
  destruct H as [Ht Hl]. split; [exact Ht|]. split; [exact Hl|].
  unfold Logger.error, Logger.new. simpl Logger.logLevel.
  simpl in Hl. destruct Hl as [<-|[<-|[<-|[<-|[]]]]]; discriminate.
Qed.

Lemma config_values_are_usable_witness :
  let c := Config.getServerConfig
             (Config.mkCliArgs None None None (Some 0%Z) None)
             (Config.mkEnv None None (Some "abc") (Some "abc") (Some " WARN ")) in
  let c' := Config.getServerConfig
              (Config.mkCliArgs None None None None (Some "error"))
              (Config.mkEnv None None None (Some "15 minutes") (Some "none")) in
  Config.yapiCacheTTL c = Some 10%Z /\
  Config.port c = None /\
  Config.yapiLogLevel c = "warn" /\
  Config.yapiCacheTTL c' = Some 15%Z /\
  Logger.error (Logger.new "Config" (Some (inr (Config.yapiLogLevel c)))) "e"
    ([] : list string) <> [] /\
  Logger.error (Logger.new "Config" (Some (inr (Config.yapiLogLevel c')))) "e"
    ([] : list string) <> [].
Proof.
  intros c c'. split; [reflexivity|]. split; [reflexivity|]. split; [reflexivity|].
  split; [reflexivity|]. split.
  - apply (@config_values_are_usable string
             (Config.mkCliArgs None None None (Some 0%Z) None)
             (Config.mkEnv None None (Some "abc") (Some "abc") (Some " WARN "))
             "Config" "e" []).
    intros l H. discriminate H.
  - apply (@config_values_are_usable string
             (Config.mkCliArgs None None None None (Some "error"))
             (Config.mkEnv None None None (Some "15 minutes") (Some "none"))
             "Config" "e" []).
    intros l H. injection H as <-. simpl. tauto.
Defined.

(** ** Keywords and case *)

Lemma toLowerCase_truthy_eq k k' :
  JS.toLowerCase k = JS.toLowerCase k' -> JS.truthy k = JS.truthy k'.
Proof.
  intros H. rewrite <- (toLowerCase_truthy k), <- (toLowerCase_truthy k').
  now rewrite H.
Qed.

(** X21.  The filters of a fetch read their keywords without regard to
    case: two queries whose name keywords, path keywords and tag
    keywords are the same once put in lower case select the same
    interfaces of a menu, in the same order. *)
Theorem search_menu_ignores_keyword_case q q' menuData :
  option_map JS.toLowerCase (q_keyword q) = option_map JS.toLowerCase (q_keyword q') ->
  option_map JS.toLowerCase (q_path q) = option_map JS.toLowerCase (q_path q') ->
  option_map (map JS.toLowerCase) (q_tag q)
  = option_map (map JS.toLowerCase) (q_tag q') ->
  search_menu q menuData = search_menu q' menuData.
Proof.
  intros Hn Hp Ht. unfold search_menu.
  assert (En : forall items, filter_by_name q items = filter_by_name q' items).
  { intros items. unfold filter_by_name.
    destruct (q_keyword q) as [k|], (q_keyword q') as [k'|]; try discriminate;
      [|reflexivity].
    injection Hn as Hn. rewrite (toLowerCase_truthy_eq _ _ Hn), Hn. reflexivity. }
  assert (Ep : forall items, filter_by_path q items = filter_by_path q' items).
  { intros items. unfold filter_by_path.
    destruct (q_path q) as [k|], (q_path q') as [k'|]; try discriminate;
      [|reflexivity].
    injection Hp as Hp. rewrite (toLowerCase_truthy_eq _ _ Hp), Hp. reflexivity. }
  assert (Et : forall items, filter_by_tag q items = filter_by_tag q' items).
  { intros items. unfold filter_by_tag.
    destruct (q_tag q) as [tags|], (q_tag q') as [tags'|]; try discriminate;
      [|reflexivity].
    injection Ht as Ht.
    destruct tags as [|t ts], tags' as [|t' ts']; try discriminate; [reflexivity|].
    unfold try_filter_by_tag. now rewrite Ht. }
  now rewrite En, Ep, Et.
Qed.

Lemma search_menu_ignores_keyword_case_witness :
  search_menu (query_of "LOGIN" "/User" "AUTH") Demo.shop_menu
  = search_menu (query_of "login" "/user" "auth") Demo.shop_menu /\
  ids (search_menu (query_of "LOGIN" "/User" "AUTH") Demo.shop_menu) = [5%Z].
Proof.
  split; [|reflexivity].
  apply search_menu_ignores_keyword_case; reflexivity.
Defined.

(** ** A search with nothing to look into *)

Lemma Forall2_nil_left A B (P : A -> B -> Prop) l : Forall2 P [] l -> l = [].
Proof. intros H. now inversion H. Qed.

(** X22.  A search that has no project to look into returns the empty
    page and throws nothing.  This is so for a service without
    credentialed projects and with an empty project map, whose search
    sends nothing and changes nothing; and for a search with
    [maxProjects] 0, which sends no menu request. *)
Theorem search_without_projects remote options s :
  (Credentials.getConfiguredProjectIds (svc (now s)) = [] ->
   projectInfoCache (svc (now s)) = [] ->
   searchApis remote options s = (inr (mkSearchPage 0 []), s)) /\
  (maxProjects options = Some 0%Z ->
   exists s',
     searchApis remote options s = (inr (mkSearchPage 0 []), s') /\
     menu_requests (now s') = menu_requests (now s)).
Proof.
  split.
  - intros Hids Hmap.
    unfold searchApis, try_catch, bind at 1, loadAllProjectInfo, bind at 1, get_svc.
    rewrite Hids. simpl. unfold bind, get_svc. rewrite Hmap. simpl.
    assert (E : select_projects options [] = []).
    { unfold select_projects.
      assert (Ef : match projectKeyword options with
                   | Some pk =>
                       if (JS.truthy pk && JS.truthy (JS.trim pk))%bool
                       then filter (project_matches (JS.toLowerCase (JS.trim pk))) []
                       else []
                   | None => []
                   end = (@nil ProjectInfo)).
      { destruct (projectKeyword options) as [pk|]; [|reflexivity].
        now destruct (JS.truthy pk && JS.truthy (JS.trim pk))%bool. }
      rewrite Ef. destruct (_ >? _)%Z; [apply slice0_nil | reflexivity]. }
    rewrite E. reflexivity.
  - intros Hmax.
    destruct (searchApis_run remote options s) as [all [s' [E [Hall [_ Hm]]]]].
    assert (Ec : candidates remote options s = []).
    { pose proof (@select_projects_length options
                    (JS.Map.values (projectInfoCache
                       (svc (now (snd (loadAllProjectInfo remote s))))))) as Hl.
      rewrite Hmax in Hl. simpl in Hl. specialize (Hl ltac:(lia)).
      unfold candidates.
      destruct (select_projects options _) as [|p r]; [reflexivity|].
      simpl in Hl. lia. }
    rewrite Ec in Hall, Hm. simpl in Hall, Hm.
    apply Forall2_nil_left in Hall. subst all.
    exists s'. split; [|now rewrite Hm, List.app_nil_r].
    rewrite E. simpl. now rewrite slice0_nil.
Qed.

Lemma search_without_projects_witness :
  searchApis Demo.remote (Demo.everything None)
    (at_rest (Credentials.new "http://yapi" EmptyString))
  = (inr (mkSearchPage 0 []), at_rest (Credentials.new "http://yapi" EmptyString)) /\
  exists s',
    searchApis Demo.remote
      (mkSearchOptions None (KwString "login") KwUndefined KwUndefined None None
         (Some 0%Z)) (at_rest Demo.service)
    = (inr (mkSearchPage 0 []), s') /\
    menu_requests (now s') = [].
Proof.
  split.
  - apply (proj1 (search_without_projects Demo.remote (Demo.everything None)
                    (at_rest (Credentials.new "http://yapi" EmptyString))));
      reflexivity.
  - apply (proj2 (search_without_projects Demo.remote
                    (mkSearchOptions None (KwString "login") KwUndefined KwUndefined
                       None None (Some 0%Z)) (at_rest Demo.service))).
    reflexivity.
Defined.

(** ** The snapshot a refresh persists *)

Lemma same_snapshot_refl w : same_snapshot w w.
Proof. reflexivity. Qed.

Lemma same_snapshot_trans w1 w2 w3 :
  same_snapshot w1 w2 -> same_snapshot w2 w3 -> same_snapshot w1 w3.
Proof. unfold same_snapshot. congruence. Qed.

Lemma getProjectInfo_snapshot remote id :
  tame same_snapshot (fun _ => True) (getProjectInfo remote id).
Proof.
  intros w _.
  destruct (getProjectInfo_cases remote id w) as [[r [-> _]]|[_ [k [-> Hk]]]].
  - split; reflexivity.
  - split; [reflexivity|]. split; [reflexivity|]. intros w1. rewrite Hk.
    now destruct (project_answer remote (svc w) id).
Qed.

Lemma getCategoryList_snapshot remote id :
  tame same_snapshot (fun _ => True) (getCategoryList remote id).
Proof.
  intros w _.
  destruct (getCategoryList_cases remote id w) as [[r [-> _]]|[_ [k [-> Hk]]]].
  - split; reflexivity.
  - split; [reflexivity|]. split; [reflexivity|]. intros w1. rewrite Hk.
    now destruct (category_answer remote (svc w) id).
Qed.

Lemma promise_all__snapshot T (f : string -> Task T) l s :
  (forall id, tame same_snapshot (fun _ => True) (f id)) ->
  exists extra,
    in_flight (snd (promise_all_ (map f l) s)) = in_flight s ++ extra /\
    same_snapshot (now s) (now (snd (promise_all_ (map f l) s))) /\
    Forall (fun k : World -> World => forall w, same_snapshot w (k w)) extra.
Proof.
  intros Hf.
  assert (Ht : Forall (tame same_snapshot (fun _ => True) (T:=T)) (map f l)).
  { apply Forall_forall. intros t Hin. apply in_map_iff in Hin.
    destruct Hin as [id [<- _]]. apply Hf. }
  destruct (@promise_all__frame same_snapshot (fun _ => True) same_snapshot_refl
              same_snapshot_trans (fun _ _ _ _ => I) T (map f l) s Ht I)
    as [extra [H1 [H2 [H3 _]]]].
  exists extra. auto.
Qed.

Lemma quiesce_snapshot l w :
  Forall (fun k : World -> World => forall w, same_snapshot w (k w)) l ->
  same_snapshot w (fold_left (fun w k => k w) l w).
Proof.
  intros H. revert w. induction H as [|k r Hk Hr IH]; intros w; simpl.
  - reflexivity.
  - eapply same_snapshot_trans; [apply Hk | apply IH].
Qed.

Lemma loadAllProjectInfo_snapshot remote s :
  exists extra,
    in_flight (snd (loadAllProjectInfo remote s)) = in_flight s ++ extra /\
    same_snapshot (now s) (now (snd (loadAllProjectInfo remote s))) /\
    Forall (fun k : World -> World => forall w, same_snapshot w (k w)) extra.
Proof.
  unfold loadAllProjectInfo, bind, get_svc.
  destruct (Credentials.getConfiguredProjectIds (svc (now s))) as [|id r].
  - exists []. simpl. rewrite List.app_nil_r. repeat split. constructor.
  - destruct (promise_all__snapshot (getProjectInfo remote) (id :: r) s
                (getProjectInfo_snapshot remote)) as [extra H].
    exists extra. unfold try_catch.
    destruct (promise_all_ (map (getProjectInfo remote) (id :: r)) s)
      as [[e|[]] s0]; exact H.
Qed.

Lemma loadAllCategoryLists_snapshot remote s :
  exists extra,
    in_flight (snd (loadAllCategoryLists remote s)) = in_flight s ++ extra /\
    same_snapshot (now s) (now (snd (loadAllCategoryLists remote s))) /\
    Forall (fun k : World -> World => forall w, same_snapshot w (k w)) extra.
Proof.
  unfold loadAllCategoryLists, bind, get_svc.
  destruct (JS.Map.keys (projectInfoCache (svc (now s)))) as [|id r].
  - exists []. simpl. rewrite List.app_nil_r. repeat split. constructor.
  - destruct (promise_all__snapshot (getCategoryList remote) (id :: r) s
                (getCategoryList_snapshot remote)) as [extra H].
    exists extra. unfold try_catch.
    destruct (promise_all_ (map (getCategoryList remote) (id :: r)) s)
      as [[e|[]] s0]; exact H.
Qed.

(** X23.  A refresh started on a system at rest persists the project
    map exactly as it is when the pass over the projects returns,
    before the category lists are fetched.  The snapshot is not written
    again: it is still that map once the last answer in flight has
    arrived, so that a project whose answer arrives after the pass has
    returned is not in the snapshot. *)
Theorem refresh_snapshot_is_taken_once remote w :
  let mid := now (snd (loadAllProjectInfo remote (mkSys w []))) in
  let s' := snd (asyncUpdateCache remote (mkSys w [])) in
  persisted (now s') = Some (projectInfoCache (svc mid)) /\
  persisted (quiesce s') = Some (projectInfoCache (svc mid)).
Proof.
  intros mid s'.
  destruct (loadAllProjectInfo_run remote (mkSys w [])) as [s1 [R1 _]].
  destruct (loadAllProjectInfo_snapshot remote (mkSys w [])) as [ex1 [F1 [_ E1]]].
  rewrite R1 in F1. simpl in F1.
  set (s2 := mkSys (mkWorld (svc (now s1)) (requests (now s1))
                      (Some (projectInfoCache (svc (now s1))))) (in_flight s1)).
  assert (Run : snd (asyncUpdateCache remote (mkSys w []))
                = snd (loadAllCategoryLists remote s2)).
  { unfold asyncUpdateCache, try_catch, bind at 1. rewrite R1.
    unfold bind, get_svc, saveToCache, on_world. fold s2.
    now destruct (loadAllCategoryLists remote s2) as [[e|[]] s3]. }
  destruct (loadAllCategoryLists_snapshot remote s2) as [ex2 [F2 [K2 E2]]].
  subst s' mid. rewrite Run, R1. simpl snd.
  assert (Hnow : persisted (now (snd (loadAllCategoryLists remote s2)))
                 = Some (projectInfoCache (svc (now s1)))).
  { unfold same_snapshot in K2. now rewrite K2. }
  split; [exact Hnow|].
  unfold quiesce. rewrite <- Hnow. apply quiesce_snapshot.
  rewrite F2. simpl in_flight. rewrite F1. apply Forall_app. split; assumption.
Qed.

Example refresh_snapshot_misses_late_project :
  let s' := snd (asyncUpdateCache Demo.remote
                   (mkSys (mkWorld Demo.service4 [] None) [])) in
  JS.Map.keys (projectInfoCache (svc (quiesce s'))) = ["10"; "20"; "40"] /\
  option_map (@JS.Map.keys ProjectInfo) (persisted (quiesce s')) = Some ["10"; "20"].
Proof. vm_compute. split; reflexivity. Qed.
